(** * A shallow embedding of the crawl-and-analyze engine (site_analyzer.py)

    The two classes of [site_analyzer.py], [TechnicalAnalyzer] and
    [SiteCrawler], are embedded as state-passing programs over a record that
    holds the fields of the Python objects.  Dictionaries are [gmap]s, sets
    are [gset]s, lists are lists, Python integers are [Z].  What the program
    reads from the network (responses to HEAD and GET requests, rendered
    pages) and the results of the third-party parsers it calls are supplied
    by a [World]; everything the program itself computes is computed here. *)

From stdpp Require Import gmap strings list fin_maps pretty.
From Stdlib Require Import ZArith Floats Ascii.
Local Open Scope Z_scope.
Set Warnings "-register-all".

(** ** Exceptions and outcomes *)

(** The exceptions that the modelled code raises or catches, all of them
    subclasses of [Exception].  The message is what [str(e)] yields. *)
Inductive exn : Type :=
| RequestException (msg : string)   (* requests.RequestException and subclasses *)
| JSONDecodeError (msg : string)    (* json.JSONDecodeError, a ValueError *)
| ParseError (msg : string)         (* xml.etree.ElementTree.ParseError, a SyntaxError *)
| SyntaxError (msg : string)
| ValueError (msg : string)
| AttributeError (msg : string)
| TypeError (msg : string)
| RetryError                        (* tenacity.RetryError *)
| OtherException (msg : string).    (* any other subclass of Exception *)

Definition str_exn (e : exn) : string :=
  match e with
  | RequestException msg | JSONDecodeError msg | ParseError msg
  | SyntaxError msg | ValueError msg | AttributeError msg | TypeError msg
  | OtherException msg => msg
  | RetryError => "RetryError"
  end.

(** The classes named in the [except] clauses of the source. *)
Inductive exn_class : Type :=
| CRequestException | CJSONDecodeError | CParseError | CValueError | CException.

Definition isinstance (e : exn) (c : exn_class) : bool :=
  match c, e with
  | CException, _ => true
  | CRequestException, RequestException _ => true
  | CJSONDecodeError, JSONDecodeError _ => true
  | CParseError, ParseError _ => true
  | CValueError, (ValueError _ | JSONDecodeError _) => true
  | _, _ => false
  end.

(** A call returns a value, raises, or (in the model only) runs out of the
    fuel that bounds the recursion. *)
Inductive outcome (A : Type) : Type :=
| Returns (a : A)
| Raises (e : exn)
| Diverges.
Arguments Returns {A} a.
Arguments Raises {A} e.
Arguments Diverges {A}.

(** ** Strings and URLs *)

(** [sub in s] *)
Definition contains (sub s : string) : bool :=
  match String.index 0 sub s with Some _ => true | None => false end.

(** [s.startswith(p)] *)
Definition startswith (s p : string) : bool := String.prefix p s.

Definition is_ascii_letter (a : ascii) : bool :=
  let n := nat_of_ascii a in
  ((65 <=? n) && (n <=? 90) || (97 <=? n) && (n <=? 122))%nat.

Definition is_scheme_char (a : ascii) : bool :=
  let n := nat_of_ascii a in
  (is_ascii_letter a || (48 <=? n) && (n <=? 57)
   || (n =? 43) || (n =? 45) || (n =? 46))%nat.

Definition lower_ascii (a : ascii) : ascii :=
  let n := nat_of_ascii a in
  if ((65 <=? n) && (n <=? 90))%nat then ascii_of_nat (n + 32) else a.

Fixpoint lower (s : string) : string :=
  match s with
  | EmptyString => EmptyString
  | String a s' => String (lower_ascii a) (lower s')
  end.

Fixpoint all_chars (p : ascii -> bool) (s : string) : bool :=
  match s with
  | EmptyString => true
  | String a s' => p a && all_chars p s'
  end.

(** The characters of [s] before the first one satisfying [stop]. *)
Fixpoint take_until (stop : ascii -> bool) (s : string) : string :=
  match s with
  | EmptyString => EmptyString
  | String a s' => if stop a then EmptyString else String a (take_until stop s')
  end.

Definition drop_string (n : nat) (s : string) : string :=
  String.substring n (String.length s - n) s.

(** [urllib.parse.urlsplit], as far as the scheme and the network location
    are concerned: a scheme is a letter followed by scheme characters up to
    the first colon; the network location is what follows a leading [//] up
    to the first of [/], [?] and [#]. *)
Definition split_scheme (url : string) : string * string :=
  match String.index 0 ":" url with
  | Some (S i) =>
      let candidate := String.substring 0 (S i) url in
      match candidate with
      | String a _ =>
          if is_ascii_letter a && all_chars is_scheme_char candidate
          then (lower candidate, drop_string (S (S i)) url)
          else (EmptyString, url)
      | EmptyString => (EmptyString, url)
      end
  | _ => (EmptyString, url)
  end.

Definition is_netloc_delim (a : ascii) : bool :=
  let n := nat_of_ascii a in ((n =? 47) || (n =? 63) || (n =? 35))%nat.

Definition urlparse_scheme (url : string) : string := fst (split_scheme url).

Definition urlparse_netloc (url : string) : string :=
  let rest := snd (split_scheme url) in
  if startswith rest "//" then take_until is_netloc_delim (drop_string 2 rest)
  else EmptyString.

(** [urlsplit] rejects a network location in which exactly one of the two
    square brackets occurs. *)
Definition invalid_netloc (netloc : string) : bool :=
  xorb (contains "[" netloc) (contains "]" netloc).

(** The two components of [urlparse(url)] that the program reads. *)
Record ParseResult : Type := {
  scheme : string;
  netloc : string
}.

(** [str(x)] in an f-string, for a value that may be [None]. *)
Definition py_str (x : option string) : string := default "None" x.

(** [s.replace('Z', '+00:00')] *)
Fixpoint replace_Z (s : string) : string :=
  match s with
  | EmptyString => EmptyString
  | String a s' =>
      if (nat_of_ascii a =? 90)%nat then "+00:00" +:+ replace_Z s'
      else String a (replace_Z s')
  end.

(** [s.split('/')[-1]] *)
Fixpoint last_segment_from (acc s : string) : string :=
  match s with
  | EmptyString => acc
  | String a s' =>
      if (nat_of_ascii a =? 47)%nat then last_segment_from EmptyString s'
      else last_segment_from (acc +:+ String a EmptyString) s'
  end.

Definition last_segment (s : string) : string :=
  last_segment_from EmptyString s.

Definition nonempty (s : string) : bool :=
  match s with EmptyString => false | String _ _ => true end.

(** [s.strip()] *)
Fixpoint lstrip (s : string) : string :=
  match s with
  | EmptyString => EmptyString
  | String a s' => if Ascii.is_space a then lstrip s' else s
  end.

Definition strip (s : string) : string :=
  String.rev (lstrip (String.rev (lstrip s))).

(** [s.endswith(p)] *)
Definition endswith (s p : string) : bool :=
  String.prefix (String.rev p) (String.rev s).

(** [s.split('\n')] *)
Fixpoint split_lines_from (acc s : string) : list string :=
  match s with
  | EmptyString => [acc]
  | String a s' =>
      if (nat_of_ascii a =? 10)%nat then acc :: split_lines_from EmptyString s'
      else split_lines_from (acc +:+ String a EmptyString) s'
  end.

Definition split_lines (s : string) : list string :=
  split_lines_from EmptyString s.

(** [s.split(':', 1)[1]] for a string that contains a colon. *)
Fixpoint after_colon (s : string) : string :=
  match s with
  | EmptyString => EmptyString
  | String a s' => if (nat_of_ascii a =? 58)%nat then s' else after_colon s'
  end.

(** ** What the program reads from outside *)

(** A [requests.Response] to a HEAD request: the URLs of the intermediate
    responses ([r.url for r in response.history]), the final URL, the final
    status. *)
Record Response : Type := {
  history : list string;
  resp_url : string;
  status_code : Z
}.

(** [bool(response)] is [response.ok]: no 4xx or 5xx status. *)
Definition response_ok (r : Response) : bool :=
  negb ((400 <=? status_code r) && (status_code r <? 600)).

(** A [<url>] element of a sitemap: for each of the children [loc],
    [lastmod] and [priority], [None] when [find] finds none, otherwise the
    element's [text] (itself [None] for an empty element). *)
Record UrlEntry : Type := {
  ue_loc : option (option string);
  ue_lastmod : option (option string);
  ue_priority : option (option string)
}.

(** The root of a parsed sitemap: its tag, the texts of all [loc]
    descendants and the [url] descendants (what the two [findall] calls
    return once the namespace prefix resolves). *)
Record XmlRoot : Type := {
  root_tag : string;
  all_locs : list (option string);
  url_elements : list UrlEntry
}.

(** [ET.fromstring(response.content)] *)
Inductive xml_parse : Type :=
| Parsed (root : XmlRoot)
| NotWellFormed (msg : string).

Record SitemapResponse : Type := {
  sm_status_code : Z;
  sm_content : xml_parse
}.

(** JSON values, as [json.loads] returns them. *)
Inductive json : Type :=
| JNull
| JBool (b : bool)
| JNumber (n : Z)
| JString (s : string)
| JArray (items : list json)
| JObject (members : list (string * json)).

(** The [string] of a [<script type="application/ld+json">]: [json.loads]
    returns a value or rejects the text. *)
Inductive json_loads : Type :=
| Loaded (v : json)
| Malformed (msg : string)
| NotAString.                       (* script.string is None *)

(** The main content of a page: its text, Python's [hash] of it, and the
    readability grade ([None] when textstat raised). *)
Record MainContent : Type := {
  content_text : string;
  content_hash : Z;
  fk_grade : option float
}.

(** A rendered page as BeautifulSoup presents it to the analyzers: one
    field per [find] or [find_all] of the source.  For a tag looked up with
    [find], [None] when it is absent and otherwise the attribute or string
    read from it ([None] when that is missing; strings already stripped).
    [find_all_a_href] holds, for every [<a href>] in document order,
    [urljoin(url, href)], or [None] when joining the link raises. *)
Record Soup : Type := {
  find_title : option (option string);
  find_meta_description : option (option string);
  find_meta_robots : option (option string);
  find_link_canonical : option (option string);
  find_all_h : list (list string);                (* h1 .. h6 *)
  find_all_img : list (string * string);          (* src, alt, '' if absent *)
  find_main_content : option MainContent;
  find_all_json_ld : list json_loads;
  find_all_itemtype : list string;
  find_all_vocab : list string;
  find_all_a_href : list (option string)
}.

(** The environment of one crawl.  The network may answer the same request
    differently each time, so each request is indexed by the number of
    earlier requests of the same kind for the same URL.  The last two fields
    are the parsers of the Python library: [float(s)] ([None] for a
    ValueError) and whether [datetime.fromisoformat(s)] accepts [s]. *)
Record World : Type := {
  head_request : nat -> string -> exn + Response;
  sitemap_request : nat -> string -> exn + SitemapResponse;
  robots_request : string -> option string;
  page_source : nat -> string -> option Soup;
  py_float : string -> option float;
  fromisoformat : string -> bool
}.

(** What the program did on the network, oldest first. *)
Inductive NetEvent : Type :=
| Head (url : string)
| GetSitemap (url : string)
| GetRobots (url : string)
| GetPage (url : string)
| Sleep (seconds : Z).

Global Instance NetEvent_eq_dec : EqDecision NetEvent.
Proof. solve_decision. Defined.

Definition count_event (e : NetEvent) (log : list NetEvent) : nat :=
  length (filter (λ x, x = e) log).

(** ** The state of the two objects *)

(** An entry of [redirect_chains] (the latency, a reading of the clock, is
    left out). *)
Record RedirectChain : Type := {
  chain : list string;
  count : Z;
  final_status : Z;
  has_loop : bool
}.

(** An entry of [broken_links]: under a status code, or under ['error']. *)
Inductive BrokenLink : Type :=
| BrokenStatus (url : string) (is_internal : bool)
               (redirect_chain : option RedirectChain)
| BrokenError (url : option string) (is_internal : bool) (error : string).

Record TechnicalAnalyzer : Type := {
  broken_links : gmap (Z + string) (list BrokenLink);
  redirect_chains : gmap string RedirectChain;
  sitemap_issues : list string;
  redirect_loops : Z
}.

Definition TechnicalAnalyzer_init : TechnicalAnalyzer :=
  {| broken_links := ∅; redirect_chains := ∅;
     sitemap_issues := []; redirect_loops := 0 |}.

Record ImplementationMethod : Type := {
  im_count : Z;
  im_valid : list string;
  im_invalid : list string;
  im_errors : list string
}.

Record PageCoverage : Type := {
  total_pages : Z;
  pages_with_schema : Z;
  pages_without_schema : list string
}.

Record StructuredData : Type := {
  schema_types : gmap string (list string);
  json_ld : ImplementationMethod;
  microdata : ImplementationMethod;
  rdfa : ImplementationMethod;
  page_coverage : PageCoverage
}.

Definition known_schema_types : list string :=
  ["Organization"; "LocalBusiness"; "MedicalBusiness";
   "HealthAndBeautyBusiness"; "Service"; "Article"; "BlogPosting";
   "WebPage"; "FAQPage"; "BreadcrumbList"; "other"].

Definition ImplementationMethod_init : ImplementationMethod :=
  {| im_count := 0; im_valid := []; im_invalid := []; im_errors := [] |}.

Definition StructuredData_init : StructuredData :=
  {| schema_types := list_to_map ((λ k, (k, [])) <$> known_schema_types);
     json_ld := ImplementationMethod_init;
     microdata := ImplementationMethod_init;
     rdfa := ImplementationMethod_init;
     page_coverage :=
       {| total_pages := 0; pages_with_schema := 0;
          pages_without_schema := [] |} |}.

Record SiteCrawler : Type := {
  title_tracking : gmap string (list string);
  meta_desc_tracking : gmap string (list string);
  content_tracking : gmap Z (list string);
  crawl_issues : gmap string Z;
  canonical_issues : gmap string Z;
  internal_links : gmap string (gset string);
  inbound_links : gmap string (gset string);
  page_depths : gmap string Z;
  orphan_pages : gset string;
  structured_data : StructuredData;
  robots_txt_content : option string;
  technical_analyzer : TechnicalAnalyzer
}.

Definition SiteCrawler_init : SiteCrawler :=
  {| title_tracking := ∅; meta_desc_tracking := ∅; content_tracking := ∅;
     crawl_issues := ∅; canonical_issues := ∅;
     internal_links := ∅; inbound_links := ∅; page_depths := ∅;
     orphan_pages := ∅;
     structured_data := StructuredData_init;
     robots_txt_content := None;
     technical_analyzer := TechnicalAnalyzer_init |}.

(** What the analyzers return. *)
Record StructuredDataFindings : Type := {
  sd_schema_types : list json;
  sd_implementation_method : option string;
  sd_validation_status : string;
  sd_schema_content : option json;
  sd_errors : list string
}.

Record Metadata : Type := {
  md_title_tag : string;
  md_meta_description : string;
  md_h_tags : list (list string);
  md_images : list (string * string);
  md_structured_data : StructuredDataFindings;
  md_flesch_kincaid_grade : option float
}.

Record Indexability : Type := {
  ix_robots_txt_allowed : bool;
  ix_meta_robots : string;
  ix_canonical : string;
  ix_canonical_self_referencing : bool;
  ix_noindex_reason : option string;
  ix_canonical_issues : list string
}.

Record PageLinkingMetrics : Type := {
  plm_outbound_links : Z;
  plm_inbound_links : Z;
  plm_depth : Z
}.

Record LinkingMetrics : Type := {
  lm_orphan_pages : list string;
  lm_depth_distribution : gmap Z Z;
  lm_total_pages : Z;
  lm_total_internal_links : Z
}.

Record PageInfo : Type := {
  pi_url : string;
  pi_indexability : Indexability;
  pi_metadata : Metadata;
  pi_linking_metrics : PageLinkingMetrics
}.

(** The dictionary that [crawl_site] returns (the timestamp left out).  The
    technical analysis is the analyzer as it stood when the page was done,
    with the orphan pages and the depth distribution added.  (In the source
    the redirect chains and the sitemap issues in it are the analyzer's own
    objects and go on changing; no property below reads them.) *)
Inductive Results : Type := Build_Results {
  res_domain : string;
  res_analyzed_url : string;
  res_crawl_issues_summary : list (string * Z);
  res_canonical_issues_summary : gmap string Z;
  res_page_info : option PageInfo;
  res_technical_analysis : option (TechnicalAnalyzer * LinkingMetrics);
  res_linked_pages : list Results
}.

(** The crawler, the trace of its network activity, and the three mutable
    [visited] sets that [validate_sitemap], [analyze_internal_links] and
    [crawl_site] hand down their call trees.  A call that receives
    [visited=None] starts from a fresh set. *)
Record Machine : Type := {
  self : SiteCrawler;
  net : list NetEvent;
  visited_sitemaps : gset string;
  visited_links : gset string;
  visited_pages : gset string
}.

Definition Machine_init : Machine :=
  {| self := SiteCrawler_init; net := [];
     visited_sitemaps := ∅; visited_links := ∅; visited_pages := ∅ |}.

(** Field updates. *)
Definition set_broken_links (v : gmap (Z + string) (list BrokenLink))
    (ta : TechnicalAnalyzer) : TechnicalAnalyzer :=
  {| broken_links := v; redirect_chains := redirect_chains ta;
     sitemap_issues := sitemap_issues ta; redirect_loops := redirect_loops ta |}.

Definition set_redirect_chains (v : gmap string RedirectChain)
    (ta : TechnicalAnalyzer) : TechnicalAnalyzer :=
  {| broken_links := broken_links ta; redirect_chains := v;
     sitemap_issues := sitemap_issues ta; redirect_loops := redirect_loops ta |}.

Definition set_sitemap_issues (v : list string)
    (ta : TechnicalAnalyzer) : TechnicalAnalyzer :=
  {| broken_links := broken_links ta; redirect_chains := redirect_chains ta;
     sitemap_issues := v; redirect_loops := redirect_loops ta |}.

Definition set_redirect_loops (v : Z)
    (ta : TechnicalAnalyzer) : TechnicalAnalyzer :=
  {| broken_links := broken_links ta; redirect_chains := redirect_chains ta;
     sitemap_issues := sitemap_issues ta; redirect_loops := v |}.

Definition set_title_tracking (v : gmap string (list string))
    (sc : SiteCrawler) : SiteCrawler :=
  {| title_tracking := v; meta_desc_tracking := meta_desc_tracking sc;
     content_tracking := content_tracking sc; crawl_issues := crawl_issues sc;
     canonical_issues := canonical_issues sc;
     internal_links := internal_links sc; inbound_links := inbound_links sc;
     page_depths := page_depths sc; orphan_pages := orphan_pages sc;
     structured_data := structured_data sc;
     robots_txt_content := robots_txt_content sc;
     technical_analyzer := technical_analyzer sc |}.

Definition set_meta_desc_tracking (v : gmap string (list string))
    (sc : SiteCrawler) : SiteCrawler :=
  {| title_tracking := title_tracking sc; meta_desc_tracking := v;
     content_tracking := content_tracking sc; crawl_issues := crawl_issues sc;
     canonical_issues := canonical_issues sc;
     internal_links := internal_links sc; inbound_links := inbound_links sc;
     page_depths := page_depths sc; orphan_pages := orphan_pages sc;
     structured_data := structured_data sc;
     robots_txt_content := robots_txt_content sc;
     technical_analyzer := technical_analyzer sc |}.

Definition set_content_tracking (v : gmap Z (list string))
    (sc : SiteCrawler) : SiteCrawler :=
  {| title_tracking := title_tracking sc;
     meta_desc_tracking := meta_desc_tracking sc;
     content_tracking := v; crawl_issues := crawl_issues sc;
     canonical_issues := canonical_issues sc;
     internal_links := internal_links sc; inbound_links := inbound_links sc;
     page_depths := page_depths sc; orphan_pages := orphan_pages sc;
     structured_data := structured_data sc;
     robots_txt_content := robots_txt_content sc;
     technical_analyzer := technical_analyzer sc |}.

Definition set_crawl_issues (v : gmap string Z)
    (sc : SiteCrawler) : SiteCrawler :=
  {| title_tracking := title_tracking sc;
     meta_desc_tracking := meta_desc_tracking sc;
     content_tracking := content_tracking sc; crawl_issues := v;
     canonical_issues := canonical_issues sc;
     internal_links := internal_links sc; inbound_links := inbound_links sc;
     page_depths := page_depths sc; orphan_pages := orphan_pages sc;
     structured_data := structured_data sc;
     robots_txt_content := robots_txt_content sc;
     technical_analyzer := technical_analyzer sc |}.

Definition set_canonical_issues (v : gmap string Z)
    (sc : SiteCrawler) : SiteCrawler :=
  {| title_tracking := title_tracking sc;
     meta_desc_tracking := meta_desc_tracking sc;
     content_tracking := content_tracking sc; crawl_issues := crawl_issues sc;
     canonical_issues := v;
     internal_links := internal_links sc; inbound_links := inbound_links sc;
     page_depths := page_depths sc; orphan_pages := orphan_pages sc;
     structured_data := structured_data sc;
     robots_txt_content := robots_txt_content sc;
     technical_analyzer := technical_analyzer sc |}.

Definition set_internal_links (v : gmap string (gset string))
    (sc : SiteCrawler) : SiteCrawler :=
  {| title_tracking := title_tracking sc;
     meta_desc_tracking := meta_desc_tracking sc;
     content_tracking := content_tracking sc; crawl_issues := crawl_issues sc;
     canonical_issues := canonical_issues sc;
     internal_links := v; inbound_links := inbound_links sc;
     page_depths := page_depths sc; orphan_pages := orphan_pages sc;
     structured_data := structured_data sc;
     robots_txt_content := robots_txt_content sc;
     technical_analyzer := technical_analyzer sc |}.

Definition set_inbound_links (v : gmap string (gset string))
    (sc : SiteCrawler) : SiteCrawler :=
  {| title_tracking := title_tracking sc;
     meta_desc_tracking := meta_desc_tracking sc;
     content_tracking := content_tracking sc; crawl_issues := crawl_issues sc;
     canonical_issues := canonical_issues sc;
     internal_links := internal_links sc; inbound_links := v;
     page_depths := page_depths sc; orphan_pages := orphan_pages sc;
     structured_data := structured_data sc;
     robots_txt_content := robots_txt_content sc;
     technical_analyzer := technical_analyzer sc |}.

Definition set_page_depths (v : gmap string Z)
    (sc : SiteCrawler) : SiteCrawler :=
  {| title_tracking := title_tracking sc;
     meta_desc_tracking := meta_desc_tracking sc;
     content_tracking := content_tracking sc; crawl_issues := crawl_issues sc;
     canonical_issues := canonical_issues sc;
     internal_links := internal_links sc; inbound_links := inbound_links sc;
     page_depths := v; orphan_pages := orphan_pages sc;
     structured_data := structured_data sc;
     robots_txt_content := robots_txt_content sc;
     technical_analyzer := technical_analyzer sc |}.

Definition set_orphan_pages (v : gset string)
    (sc : SiteCrawler) : SiteCrawler :=
  {| title_tracking := title_tracking sc;
     meta_desc_tracking := meta_desc_tracking sc;
     content_tracking := content_tracking sc; crawl_issues := crawl_issues sc;
     canonical_issues := canonical_issues sc;
     internal_links := internal_links sc; inbound_links := inbound_links sc;
     page_depths := page_depths sc; orphan_pages := v;
     structured_data := structured_data sc;
     robots_txt_content := robots_txt_content sc;
     technical_analyzer := technical_analyzer sc |}.

Definition set_structured_data (v : StructuredData)
    (sc : SiteCrawler) : SiteCrawler :=
  {| title_tracking := title_tracking sc;
     meta_desc_tracking := meta_desc_tracking sc;
     content_tracking := content_tracking sc; crawl_issues := crawl_issues sc;
     canonical_issues := canonical_issues sc;
     internal_links := internal_links sc; inbound_links := inbound_links sc;
     page_depths := page_depths sc; orphan_pages := orphan_pages sc;
     structured_data := v;
     robots_txt_content := robots_txt_content sc;
     technical_analyzer := technical_analyzer sc |}.

Definition set_robots_txt_content (v : option string)
    (sc : SiteCrawler) : SiteCrawler :=
  {| title_tracking := title_tracking sc;
     meta_desc_tracking := meta_desc_tracking sc;
     content_tracking := content_tracking sc; crawl_issues := crawl_issues sc;
     canonical_issues := canonical_issues sc;
     internal_links := internal_links sc; inbound_links := inbound_links sc;
     page_depths := page_depths sc; orphan_pages := orphan_pages sc;
     structured_data := structured_data sc;
     robots_txt_content := v;
     technical_analyzer := technical_analyzer sc |}.

Definition set_technical_analyzer (v : TechnicalAnalyzer)
    (sc : SiteCrawler) : SiteCrawler :=
  {| title_tracking := title_tracking sc;
     meta_desc_tracking := meta_desc_tracking sc;
     content_tracking := content_tracking sc; crawl_issues := crawl_issues sc;
     canonical_issues := canonical_issues sc;
     internal_links := internal_links sc; inbound_links := inbound_links sc;
     page_depths := page_depths sc; orphan_pages := orphan_pages sc;
     structured_data := structured_data sc;
     robots_txt_content := robots_txt_content sc;
     technical_analyzer := v |}.

Definition set_self (v : SiteCrawler) (m : Machine) : Machine :=
  {| self := v; net := net m; visited_sitemaps := visited_sitemaps m;
     visited_links := visited_links m; visited_pages := visited_pages m |}.

Definition set_net (v : list NetEvent) (m : Machine) : Machine :=
  {| self := self m; net := v; visited_sitemaps := visited_sitemaps m;
     visited_links := visited_links m; visited_pages := visited_pages m |}.

Definition set_visited_sitemaps (v : gset string) (m : Machine) : Machine :=
  {| self := self m; net := net m; visited_sitemaps := v;
     visited_links := visited_links m; visited_pages := visited_pages m |}.

Definition set_visited_links (v : gset string) (m : Machine) : Machine :=
  {| self := self m; net := net m; visited_sitemaps := visited_sitemaps m;
     visited_links := v; visited_pages := visited_pages m |}.

Definition set_visited_pages (v : gset string) (m : Machine) : Machine :=
  {| self := self m; net := net m; visited_sitemaps := visited_sitemaps m;
     visited_links := visited_links m; visited_pages := v |}.

(** ** The monad of the embedded methods

    A method is a function from the machine to an outcome and the machine it
    leaves behind: what a method changed before it raised stays changed. *)
Definition M (A : Type) : Type := Machine -> outcome A * Machine.

Global Instance M_ret : MRet M := λ A a m, (Returns a, m).

Global Instance M_bind : MBind M := λ A B k c m,
  match c m with
  | (Returns a, m') => k a m'
  | (Raises e, m') => (Raises e, m')
  | (Diverges, m') => (Diverges, m')
  end.

Definition raise {A} (e : exn) : M A := λ m, (Raises e, m).
Definition diverge {A} : M A := λ m, (Diverges, m).

(** [try: body except cls1: h1 except cls2: h2 ...]: the first clause whose
    class the exception belongs to handles it; an exception raised by a
    handler is not handled by the later clauses. *)
Fixpoint dispatch {A} (handlers : list (exn_class * (exn -> M A)))
    (e : exn) : M A :=
  match handlers with
  | [] => raise e
  | (c, h) :: rest => if isinstance e c then h e else dispatch rest e
  end.

Definition try_except {A} (body : M A)
    (handlers : list (exn_class * (exn -> M A))) : M A :=
  λ m, match body m with
       | (Raises e, m') => dispatch handlers e m'
       | r => r
       end.

Definition gets {A} (f : Machine -> A) : M A := λ m, (Returns (f m), m).
Definition modify (f : Machine -> Machine) : M unit := λ m, (Returns tt, f m).
Definition modify_self (f : SiteCrawler -> SiteCrawler) : M unit :=
  modify (λ m, set_self (f (self m)) m).
Definition modify_analyzer (f : TechnicalAnalyzer -> TechnicalAnalyzer)
  : M unit :=
  modify_self (λ sc, set_technical_analyzer (f (technical_analyzer sc)) sc).
Definition emit (e : NetEvent) : M unit :=
  modify (λ m, set_net (net m ++ [e]) m).

(** [for x in l: body(x)] *)
Fixpoint for_each {A} (l : list A) (body : A -> M unit) : M unit :=
  match l with
  | [] => mret tt
  | x :: l' => body x ;; for_each l' body
  end.

(** A loop that updates local variables [acc]. *)
Fixpoint for_fold {A B} (l : list A) (acc : B) (body : B -> A -> M B) : M B :=
  match l with
  | [] => mret acc
  | x :: l' => acc' ← body acc x; for_fold l' acc' body
  end.

Definition when (b : bool) (c : M unit) : M unit := if b then c else mret tt.

(** [urlparse(url)], which raises [ValueError] for a network location it
    rejects. *)
Definition url_parts (url : string) : ParseResult :=
  {| scheme := urlparse_scheme url; netloc := urlparse_netloc url |}.

Definition urlparse (url : string) : M ParseResult :=
  if invalid_netloc (urlparse_netloc url)
  then raise (ValueError "Invalid IPv6 URL")
  else mret (url_parts url).

(** ** tenacity *)

(** [wait_exponential(multiplier, min, max)] with the default base 2: the
    wait after attempt [n] is [multiplier * 2^(n-1)], clamped to
    [[min, max]]. *)
Definition wait_exponential (multiplier min max : Z) (attempt_number : nat)
  : Z :=
  Z.max (Z.max 0 min) (Z.min (multiplier * 2 ^ (Z.of_nat attempt_number - 1)) max).

(** [@retry(stop=stop_after_attempt(n), wait=...)]: call [fn]; when it
    raises, stop with [RetryError] after the [n]-th attempt, otherwise sleep
    and call again.  A call that returns is never repeated. *)
Fixpoint retry_call {A} (remaining attempt_number : nat) (wait : nat -> Z)
    (fn : M A) : M A :=
  match remaining with
  | O => raise RetryError
  | S remaining' =>
      λ m, match fn m with
           | (Raises e, m') =>
               match remaining' with
               | O => (Raises RetryError, m')
               | S _ =>
                   (emit (Sleep (wait attempt_number)) ;;
                    retry_call remaining' (S attempt_number) wait fn) m'
               end
           | r => r
           end
  end.

Definition retry {A} (stop_after_attempt : nat) (wait : nat -> Z) (fn : M A)
  : M A :=
  retry_call stop_after_attempt 1 wait fn.

(** ** TechnicalAnalyzer *)

Definition dict_list_append {K} `{Countable K} {V} (k : K) (v : V)
    (d : gmap K (list V)) : gmap K (list V) :=
  <[k := default [] (d !! k) ++ [v]]> d.

Section Program.
Context (w : World).

(** [self.session.head(url, allow_redirects=True, timeout=10)] *)
Definition session_head (url : string) : M Response :=
  k ← gets (λ m, count_event (Head url) (net m));
  emit (Head url) ;;
  match head_request w k url with
  | inl e => raise e
  | inr response => mret response
  end.

(** The body of [check_url], one attempt. *)
Definition check_url_attempt (url : string) (is_internal : bool)
  : M (option Response) :=
  try_except
    (response ← session_head url;
     when (0 <? length (history response))%nat
       (let chain := history response ++ [resp_url response] in
        let has_loop :=
          (size (list_to_set chain : gset string) <? length chain)%nat in
        when has_loop
          (modify_analyzer (λ ta, set_redirect_loops (redirect_loops ta + 1) ta)) ;;
        modify_analyzer (λ ta,
          set_redirect_chains
            (<[url := {| chain := chain;
                         count := Z.of_nat (length (history response));
                         final_status := status_code response;
                         has_loop := has_loop |}]> (redirect_chains ta)) ta)) ;;
     when (400 <=? status_code response)
       (modify_analyzer (λ ta,
          set_broken_links
            (dict_list_append (inl (status_code response))
               (BrokenStatus url is_internal (redirect_chains ta !! url))
               (broken_links ta)) ta)) ;;
     mret (Some response))
    [(CRequestException, λ e,
       modify_analyzer (λ ta,
         set_broken_links
           (dict_list_append (inr "error")
              (BrokenError (Some url) is_internal (str_exn e))
              (broken_links ta)) ta) ;;
       mret None)].

(** [check_url] as decorated:
    [@retry(stop=stop_after_attempt(3),
            wait=wait_exponential(multiplier=1, min=4, max=10))]. *)
Definition check_url (url : string) (is_internal : bool)
  : M (option Response) :=
  retry 3 (wait_exponential 1 4 10) (check_url_attempt url is_internal).

(** [self.session.get(sitemap_url, timeout=10)] *)
Definition session_get (sitemap_url : string) : M SitemapResponse :=
  k ← gets (λ m, count_event (GetSitemap sitemap_url) (net m));
  emit (GetSitemap sitemap_url) ;;
  match sitemap_request w k sitemap_url with
  | inl e => raise e
  | inr response => mret response
  end.

Definition add_sitemap_issue (issue : string) : M unit :=
  modify_analyzer (λ ta, set_sitemap_issues (sitemap_issues ta ++ [issue]) ta).

(** [root.findall('.//ns:...', namespace)]: the prefix [ns] is bound only
    when the root tag carries a namespace; ElementTree raises a plain
    [SyntaxError] for an unbound prefix. *)
Definition findall_ns {A} (root : XmlRoot) (found : list A) : M (list A) :=
  if contains "}" (root_tag root) then mret found
  else raise (SyntaxError "prefix 'ns' not found in prefix map").

(** [self.check_url(loc.text)].  For an empty [<loc/>] the argument is
    [None]: requests rejects it with [MissingSchema], a [RequestException],
    before any network traffic, and [check_url] records it. *)
Definition check_url_text (url_to_check : option string)
  : M (option Response) :=
  match url_to_check with
  | Some url => check_url url true
  | None =>
      modify_analyzer (λ ta,
        set_broken_links
          (dict_list_append (inr "error")
             (BrokenError None true "Invalid URL 'None': No scheme supplied")
             (broken_links ta)) ta) ;;
      mret None
  end.

(** The body of the loop over the [<url>] elements of a leaf sitemap. *)
Definition validate_url_element (url : UrlEntry) : M unit :=
  match ue_loc url with
  | Some url_to_check =>
      response ← check_url_text url_to_check;
      match response with
      | Some r =>
          when (response_ok r
                && negb (bool_decide (status_code r ∈ [200; 301])))
            (add_sitemap_issue
               ("Invalid status " +:+ pretty (status_code r)
                +:+ " for sitemap URL: " +:+ py_str url_to_check))
      | None => mret tt
      end
  | None => mret tt
  end ;;
  match ue_lastmod url with
  | Some text =>
      try_except
        (match text with
         | None =>
             raise (AttributeError
                      "'NoneType' object has no attribute 'replace'")
         | Some t =>
             if fromisoformat w (replace_Z t) then mret tt
             else raise (ValueError ("Invalid isoformat string: " +:+ t))
         end)
        [(CValueError, λ _,
           add_sitemap_issue
             ("Invalid lastmod format in sitemap: " +:+ py_str text))]
  | None => mret tt
  end ;;
  match ue_priority url with
  | Some text =>
      try_except
        (match text with
         | None =>
             raise (TypeError
                      "float() argument must be a string or a real number")
         | Some t =>
             match py_float w t with
             | None =>
                 raise (ValueError
                          ("could not convert string to float: " +:+ t))
             | Some prio =>
                 when (negb (PrimFloat.leb 0 prio && PrimFloat.leb prio 1))
                   (add_sitemap_issue
                      ("Invalid priority value in sitemap: " +:+ t))
             end
         end)
        [(CValueError, λ _,
           add_sitemap_issue
             ("Invalid priority format in sitemap: " +:+ py_str text))]
  | None => mret tt
  end.

(** The network location in the text of a [<loc>]; that of [None] is
    empty. *)
Definition netloc_of_text (text : option string) : string :=
  match text with
  | Some t => urlparse_netloc t
  | None => EmptyString
  end.

(** [urlparse(sitemap.text).netloc] *)
Definition urlparse_text (text : option string) : M string :=
  match text with
  | Some t => parsed ← urlparse t; mret (netloc parsed)
  | None => mret EmptyString
  end.

Definition sitemap_url_of (domain : string) : string :=
  "https://" +:+ domain +:+ "/sitemap.xml".

(** [validate_sitemap(domain, visited_sitemaps)]; [fresh] says that
    [visited_sitemaps] is [None].  The recursion is bounded by [fuel]. *)
Fixpoint validate_sitemap (fuel : nat) (domain : string) (fresh : bool)
  : M unit :=
  match fuel with
  | O => diverge
  | S fuel' =>
      when fresh (modify (set_visited_sitemaps ∅)) ;;
      let sitemap_url := sitemap_url_of domain in
      visited ← gets visited_sitemaps;
      if bool_decide (sitemap_url ∈ visited) then mret tt
      else
        modify (λ m, set_visited_sitemaps (visited_sitemaps m ∪ {[sitemap_url]}) m) ;;
        try_except
          (response ← session_get sitemap_url;
           if negb (sm_status_code response =? 200) then
             add_sitemap_issue ("Sitemap not found at " +:+ sitemap_url)
           else
             try_except
               (match sm_content response with
                | NotWellFormed msg => raise (ParseError msg)
                | Parsed root =>
                    if contains "sitemapindex" (root_tag root) then
                      locs ← findall_ns root (all_locs root);
                      for_each locs (λ sitemap,
                        sitemap_domain ← urlparse_text sitemap;
                        visited ← gets visited_sitemaps;
                        when (nonempty sitemap_domain
                              && bool_decide (sitemap_domain ∉ visited))
                          (validate_sitemap fuel' sitemap_domain false))
                    else
                      urls ← findall_ns root (url_elements root);
                      for_each urls validate_url_element
                end)
               [(CParseError, λ e,
                  add_sitemap_issue
                    ("Invalid XML in sitemap: " +:+ str_exn e))])
          [(CRequestException, λ e,
             add_sitemap_issue ("Error fetching sitemap: " +:+ str_exn e));
           (CException, λ e,
             add_sitemap_issue
               ("Unexpected error processing sitemap: " +:+ str_exn e))]
  end.

(** ** SiteCrawler *)

Definition set_schema_types (v : gmap string (list string))
    (sd : StructuredData) : StructuredData :=
  {| schema_types := v; json_ld := json_ld sd; microdata := microdata sd;
     rdfa := rdfa sd; page_coverage := page_coverage sd |}.

Definition set_page_coverage (v : PageCoverage)
    (sd : StructuredData) : StructuredData :=
  {| schema_types := schema_types sd; json_ld := json_ld sd;
     microdata := microdata sd; rdfa := rdfa sd; page_coverage := v |}.

(** The three entries of ["implementation_methods"]. *)
Inductive method : Type := json_ld_method | microdata_method | rdfa_method.

Definition method_name (k : method) : string :=
  match k with
  | json_ld_method => "json_ld"
  | microdata_method => "microdata"
  | rdfa_method => "rdfa"
  end.

Definition get_method (k : method) (sd : StructuredData)
  : ImplementationMethod :=
  match k with
  | json_ld_method => json_ld sd
  | microdata_method => microdata sd
  | rdfa_method => rdfa sd
  end.

Definition set_method (k : method) (v : ImplementationMethod)
    (sd : StructuredData) : StructuredData :=
  {| schema_types := schema_types sd;
     json_ld := match k with json_ld_method => v | _ => json_ld sd end;
     microdata := match k with microdata_method => v | _ => microdata sd end;
     rdfa := match k with rdfa_method => v | _ => rdfa sd end;
     page_coverage := page_coverage sd |}.

Definition modify_structured_data (f : StructuredData -> StructuredData)
  : M unit :=
  modify_self (λ sc, set_structured_data (f (structured_data sc)) sc).

Definition modify_method (k : method)
    (f : ImplementationMethod -> ImplementationMethod) : M unit :=
  modify_structured_data (λ sd, set_method k (f (get_method k sd)) sd).

Definition method_count_incr (im : ImplementationMethod)
  : ImplementationMethod :=
  {| im_count := im_count im + 1; im_valid := im_valid im;
     im_invalid := im_invalid im; im_errors := im_errors im |}.

Definition method_valid_append (url : string) (im : ImplementationMethod)
  : ImplementationMethod :=
  {| im_count := im_count im; im_valid := im_valid im ++ [url];
     im_invalid := im_invalid im; im_errors := im_errors im |}.

Definition method_invalid_append (url error : string)
    (im : ImplementationMethod) : ImplementationMethod :=
  {| im_count := im_count im; im_valid := im_valid im;
     im_invalid := im_invalid im ++ [url];
     im_errors := im_errors im ++ [error] |}.

(** The value under [key] in the items of a dictionary. *)
Fixpoint dict_lookup {V} (key : string) (items : list (string * V))
  : option V :=
  match items with
  | [] => None
  | (k, v) :: rest => if String.eqb k key then Some v else dict_lookup key rest
  end.

(** [v.get(key, default)]: only a dictionary has the method. *)
Definition json_get (v : json) (key : string) (dflt : json) : M json :=
  match v with
  | JObject members =>
      mret (default dflt (dict_lookup key members))
  | JArray _ =>
      raise (AttributeError "'list' object has no attribute 'get'")
  | JString _ =>
      raise (AttributeError "'str' object has no attribute 'get'")
  | JNumber _ =>
      raise (AttributeError "'int' object has no attribute 'get'")
  | JBool _ =>
      raise (AttributeError "'bool' object has no attribute 'get'")
  | JNull =>
      raise (AttributeError "'NoneType' object has no attribute 'get'")
  end.

(** The classification of one declared type:
[[
    if t in self.structured_data["schema_types"]:
        self.structured_data["schema_types"][t].append(url)
    else:
        self.structured_data["schema_types"]["other"].append(url)
]]
    A list or a dictionary cannot be looked up in a dictionary. *)
Definition classify (t : json) (url : string) : M unit :=
  catalog ← gets (λ m, schema_types (structured_data (self m)));
  bucket ← match t with
           | JString s => mret (if catalog !! s is Some _ then s else "other")
           | JArray _ => raise (TypeError "unhashable type: 'list'")
           | JObject _ => raise (TypeError "unhashable type: 'dict'")
           | _ => mret "other"
           end;
  match catalog !! bucket with
  | Some urls =>
      modify_structured_data
        (set_schema_types (<[bucket := urls ++ [url]]> catalog))
  | None => raise (OtherException "KeyError: 'other'")
  end.

Definition findings_init : StructuredDataFindings :=
  {| sd_schema_types := []; sd_implementation_method := None;
     sd_validation_status := "valid"; sd_schema_content := None;
     sd_errors := [] |}.

Definition findings_method (name : string) (f : StructuredDataFindings)
  : StructuredDataFindings :=
  {| sd_schema_types := sd_schema_types f;
     sd_implementation_method := Some name;
     sd_validation_status := sd_validation_status f;
     sd_schema_content := sd_schema_content f; sd_errors := sd_errors f |}.

Definition findings_type (t : json) (f : StructuredDataFindings)
  : StructuredDataFindings :=
  {| sd_schema_types := sd_schema_types f ++ [t];
     sd_implementation_method := sd_implementation_method f;
     sd_validation_status := sd_validation_status f;
     sd_schema_content := sd_schema_content f; sd_errors := sd_errors f |}.

Definition findings_content (schema : json) (f : StructuredDataFindings)
  : StructuredDataFindings :=
  {| sd_schema_types := sd_schema_types f;
     sd_implementation_method := sd_implementation_method f;
     sd_validation_status := sd_validation_status f;
     sd_schema_content := Some schema; sd_errors := sd_errors f |}.

Definition findings_invalid (error : string) (f : StructuredDataFindings)
  : StructuredDataFindings :=
  {| sd_schema_types := sd_schema_types f;
     sd_implementation_method := sd_implementation_method f;
     sd_validation_status := "invalid";
     sd_schema_content := sd_schema_content f;
     sd_errors := sd_errors f ++ [error] |}.

(** The body of [for script in json_ld_scripts]. *)
Definition analyze_json_ld_script (url : string)
    (found : StructuredDataFindings) (script : json_loads)
  : M StructuredDataFindings :=
  try_except
    (schema ← match script with
              | Loaded v => mret v
              | Malformed msg => raise (JSONDecodeError msg)
              | NotAString =>
                  raise (TypeError "the JSON object must be str, bytes or bytearray, not NoneType")
              end;
     schema_type ← json_get schema "@type" (JString "");
     found' ← match schema with
              | JArray items =>
                  for_fold items found (λ found item,
                    item_type ← json_get item "@type" (JString "");
                    classify item_type url ;;
                    mret (findings_type item_type found))
              | _ =>
                  classify schema_type url ;;
                  mret (findings_type schema_type found)
              end;
     modify_method json_ld_method (method_valid_append url) ;;
     mret (findings_content schema found'))
    [(CJSONDecodeError, λ e,
       modify_method json_ld_method (method_invalid_append url (str_exn e)) ;;
       mret (findings_invalid ("Invalid JSON-LD: " +:+ str_exn e) found))].

(** The loops over the microdata and RDFa items; [attr] is the value of
    [itemtype] or [vocab]. *)
Definition analyze_attribute_item (k : method) (url : string)
    (found : StructuredDataFindings) (attr : string)
  : M StructuredDataFindings :=
  try_except
    (let schema_type := last_segment attr in
     classify (JString schema_type) url ;;
     modify_method k (method_valid_append url) ;;
     mret (findings_type (JString schema_type) found))
    [(CException, λ e,
       modify_method k (method_invalid_append url (str_exn e)) ;;
       mret (findings_invalid
               ((match k with
                 | rdfa_method => "Invalid RDFa: "
                 | _ => "Invalid Microdata: "
                 end) +:+ str_exn e) found))].

Definition analyze_style {A} (k : method) (items : list A)
    (body : StructuredDataFindings -> A -> M StructuredDataFindings)
    (found : StructuredDataFindings) : M StructuredDataFindings :=
  match items with
  | [] => mret found
  | _ =>
      modify_method k method_count_incr ;;
      for_fold items (findings_method (method_name k) found) body
  end.

Definition analyze_structured_data (soup : Soup) (url : string)
  : M StructuredDataFindings :=
  found ← analyze_style json_ld_method (find_all_json_ld soup)
            (analyze_json_ld_script url) findings_init;
  found ← (if sd_implementation_method found is Some _ then mret found
           else analyze_style microdata_method (find_all_itemtype soup)
                  (analyze_attribute_item microdata_method url) found);
  found ← (if sd_implementation_method found is Some _ then mret found
           else analyze_style rdfa_method (find_all_vocab soup)
                  (analyze_attribute_item rdfa_method url) found);
  modify_structured_data (λ sd,
    let pc := page_coverage sd in
    set_page_coverage
      (match sd_schema_types found with
       | [] =>
           {| total_pages := total_pages pc + 1;
              pages_with_schema := pages_with_schema pc;
              pages_without_schema := pages_without_schema pc ++ [url] |}
       | _ =>
           {| total_pages := total_pages pc + 1;
              pages_with_schema := pages_with_schema pc + 1;
              pages_without_schema := pages_without_schema pc |}
       end) sd) ;;
  mret found.

(** [self.crawl_issues[k] += 1] on a [defaultdict(int)] *)
Definition counter_incr (k : string) (d : gmap string Z) : gmap string Z :=
  <[k := default 0 (d !! k) + 1]> d.

Definition crawl_issue (k : string) : M unit :=
  modify_self (λ sc, set_crawl_issues (counter_incr k (crawl_issues sc)) sc).

Definition canonical_issue (k : string) : M unit :=
  modify_self (λ sc,
    set_canonical_issues (counter_incr k (canonical_issues sc)) sc).

(** The duplicate tracking shared by titles, descriptions and content:
[[
    if value in tracking:
        self.crawl_issues[issue] += 1
        tracking[value].append(url)
    else:
        tracking[value] = [url]
]] *)
Definition track_duplicate {K} `{Countable K}
    (tracking : SiteCrawler -> gmap K (list string))
    (set_tracking : gmap K (list string) -> SiteCrawler -> SiteCrawler)
    (issue : string) (value : K) (url : string) : M unit :=
  seen ← gets (λ m, tracking (self m) !! value);
  match seen with
  | Some urls =>
      crawl_issue issue ;;
      modify_self (λ sc,
        set_tracking (<[value := urls ++ [url]]> (tracking sc)) sc)
  | None =>
      modify_self (λ sc, set_tracking (<[value := [url]]> (tracking sc)) sc)
  end.

(** The block [# Get title]. *)
Definition extract_title (soup : Soup) (url : string) : M string :=
  match find_title soup with
  | Some s =>
      match s with
      | Some text =>
          let title := strip text in
          track_duplicate title_tracking set_title_tracking
            "duplicate_titles" title url ;;
          mret title
      | None =>
          raise (AttributeError "'NoneType' object has no attribute 'strip'")
      end
  | None => crawl_issue "urls_missing_title_tag" ;; mret ""
  end.

(** The block [# Get meta description]. *)
Definition extract_meta_description (soup : Soup) (url : string) : M string :=
  match find_meta_description soup with
  | Some (Some content) =>
      if nonempty content then
        let desc := strip content in
        track_duplicate meta_desc_tracking set_meta_desc_tracking
          "duplicate_meta_descriptions" desc url ;;
        mret desc
      else crawl_issue "urls_missing_meta_description" ;; mret ""
  | _ => crawl_issue "urls_missing_meta_description" ;; mret ""
  end.

(** The blocks [# Get heading tags] and [# Get images]. *)
Definition extract_headings_and_images (soup : Soup) : M unit :=
  when (bool_decide (default [] (find_all_h soup !! 0%nat) = []))
    (crawl_issue "urls_missing_h1") ;;
  for_each (find_all_img soup) (λ img,
    when (negb (nonempty (snd img)))
      (crawl_issue "images_missing_alt_text")).

(** The block [# Track duplicate content], with the readability grade. *)
Definition extract_content (soup : Soup) (url : string) : M (option float) :=
  match find_main_content soup with
  | Some main =>
      track_duplicate content_tracking set_content_tracking
        "duplicate_content" (content_hash main) url ;;
      mret (fk_grade main)
  | None => mret None
  end.

Definition extract_metadata (soup : Soup) (url : string) : M Metadata :=
  structured ← analyze_structured_data soup url;
  title ← extract_title soup url;
  desc ← extract_meta_description soup url;
  extract_headings_and_images soup ;;
  grade ← extract_content soup url;
  mret {| md_title_tag := title; md_meta_description := desc;
          md_h_tags := find_all_h soup; md_images := find_all_img soup;
          md_structured_data := structured;
          md_flesch_kincaid_grade := grade |}.

(** [get_robots_txt]: fetched once, empty unless the answer is a 200. *)
Definition get_robots_txt (domain : string) : M unit :=
  cached ← gets (λ m, robots_txt_content (self m));
  match cached with
  | Some _ => mret tt
  | None =>
      let robots_url := domain +:+ "/robots.txt" in
      emit (GetRobots robots_url) ;;
      modify_self
        (set_robots_txt_content (Some (default "" (robots_request w robots_url))))
  end.

Definition is_allowed_by_robots (sc : SiteCrawler) (url : string) : bool :=
  match robots_txt_content sc with
  | None => true
  | Some content =>
      negb (nonempty content)
      || forallb (λ line,
           negb (startswith (lower line) "disallow:"
                 && (let path := strip (after_colon line) in
                     nonempty path && endswith url path)))
           (split_lines content)
  end.

(** The block [# Check meta robots]: the directive and the reason for
    [noindex]. *)
Definition check_meta_robots (soup : Soup) : M (string * option string) :=
  match find_meta_robots soup with
  | Some (Some content) =>
      if nonempty content then
        let value := lower content in
        if contains "noindex" value then
          crawl_issue "non_indexable_urls" ;;
          mret (value, Some "meta_robots_noindex")
        else mret (value, None)
      else mret ("index,follow", None)
  | _ => mret ("index,follow", None)
  end.

(** The block [# Check canonical]: the canonical URL, whether the page
    refers to itself, and the issues of the page. *)
Definition check_canonical (soup : Soup) (url : string)
  : M (string * bool * list string) :=
  match find_link_canonical soup with
  | Some (Some href) =>
      if nonempty href then
        let canonical_url := href in
        issues ← (if negb (startswith canonical_url "http://"
                           || startswith canonical_url "https://")
                  then canonical_issue "relative_url" ;;
                       mret ["relative_url"]
                  else mret []);
        canonical_parsed ← urlparse canonical_url;
        current_parsed ← urlparse url;
        let canonical_domain := netloc canonical_parsed in
        let current_domain := netloc current_parsed in
        issues ← (if nonempty canonical_domain
                     && negb (String.eqb canonical_domain current_domain)
                  then canonical_issue "points_to_different_domain" ;;
                       mret (issues ++ ["points_to_different_domain"])
                  else mret issues);
        if negb (String.eqb canonical_url url) then
          match issues with
          | [] =>
              canonical_issue "points_to_different_url" ;;
              mret (canonical_url, false, ["points_to_different_url"])
          | _ => mret (canonical_url, false, issues)
          end
        else mret (canonical_url, true, issues)
      else canonical_issue "missing_canonical" ;;
           mret (url, true, ["missing_canonical"])
  | _ =>
      canonical_issue "missing_canonical" ;;
      mret (url, true, ["missing_canonical"])
  end.

Definition check_indexability (soup : Soup) (url : string) : M Indexability :=
  allowed ← gets (λ m, is_allowed_by_robots (self m) url);
  robots ← check_meta_robots soup;
  canonical ← check_canonical soup url;
  mret {| ix_robots_txt_allowed := allowed;
          ix_meta_robots := fst robots;
          ix_canonical := fst (fst canonical);
          ix_canonical_self_referencing := snd (fst canonical);
          ix_noindex_reason := snd robots;
          ix_canonical_issues := snd canonical |}.

(** [get_page_content]: the rendered page, or [None] for a timeout, an
    error or an empty page. *)
Definition get_page_content (url : string) : M (option Soup) :=
  k ← gets (λ m, count_event (GetPage url) (net m));
  emit (GetPage url) ;;
  mret (page_source w k url).

(** [d[k].add(v)] on a [defaultdict(set)] *)
Definition dict_set_add (k v : string) (d : gmap string (gset string))
  : gmap string (gset string) :=
  <[k := default ∅ (d !! k) ∪ {[v]}]> d.

(** Reading [d[k]] on a [defaultdict(set)] creates the entry. *)
Definition dict_set_touch (k : string) (d : gmap string (gset string))
  : gmap string (gset string) :=
  match d !! k with
  | Some _ => d
  | None => <[k := ∅]> d
  end.

(** The links that are neither followed nor probed:
    [not scheme or scheme.startswith(('mailto', 'tel', 'javascript'))] *)
Definition skipped_scheme (parsed_link : ParseResult) : bool :=
  negb (nonempty (scheme parsed_link))
  || existsb (startswith (scheme parsed_link)) ["mailto"; "tel"; "javascript"].

(** [parsed_link.netloc == domain or parsed_link.netloc == f"www.{domain}"] *)
Definition is_internal_link (domain : string) (parsed_link : ParseResult)
  : bool :=
  String.eqb (netloc parsed_link) domain
  || String.eqb (netloc parsed_link) ("www." +:+ domain).

(** The block [# Update page depth if this is a new page]:
[[
    if absolute_url not in self.page_depths:
        self.page_depths[absolute_url] = depth + 1
]] *)
Definition assign_depth (absolute_url : string) (new_depth : Z) : M unit :=
  depths ← gets (λ m, page_depths (self m));
  when (bool_decide (depths !! absolute_url = None))
    (modify_self (λ sc,
       set_page_depths (<[absolute_url := new_depth]> (page_depths sc)) sc)).

(** [analyze_internal_links(url, depth, visited)]; [fresh] says that
    [visited] is [None].  Both [try] blocks end in [except Exception] with a
    [print].  The recursion is bounded by [fuel]; the interpreter's own
    recursion limit is not modelled. *)
Fixpoint analyze_internal_links (fuel : nat) (url : string) (depth : Z)
    (fresh : bool) : M unit :=
  match fuel with
  | O => diverge
  | S fuel' =>
      when fresh
        (modify (set_visited_links ∅) ;;
         modify_self (λ sc, set_page_depths (<[url := 0]> (page_depths sc)) sc)) ;;
      visited ← gets visited_links;
      if bool_decide (url ∈ visited) then mret tt
      else
        modify (λ m, set_visited_links (visited_links m ∪ {[url]}) m) ;;
        parsed_url ← urlparse url;
        let domain := netloc parsed_url in
        try_except
          (content ← get_page_content url;
           match content with
           | None => mret tt
           | Some soup =>
               for_each (find_all_a_href soup) (λ link,
                 try_except
                   (match link with
                    | None => raise (ValueError "invalid link")
                    | Some absolute_url =>
                        parsed_link ← urlparse absolute_url;
                        if skipped_scheme parsed_link then mret tt
                        else
                          when (is_internal_link domain parsed_link)
                            (modify_self (λ sc,
                               set_internal_links
                                 (dict_set_add url absolute_url
                                    (internal_links sc)) sc) ;;
                             modify_self (λ sc,
                               set_inbound_links
                                 (dict_set_add absolute_url url
                                    (inbound_links sc)) sc) ;;
                             assign_depth absolute_url (depth + 1) ;;
                             visited ← gets visited_links;
                             when (bool_decide (absolute_url ∉ visited))
                               (analyze_internal_links fuel' absolute_url
                                  (depth + 1) false))
                    end)
                   [(CException, λ _, mret tt)])
           end)
          [(CException, λ _, mret tt)]
  end.

(** [identify_orphan_pages]: for every key of [internal_links], reading
    [inbound_links[page]] creates a missing entry, and the page joins the
    orphans when that set is empty. *)
Definition identify_orphan_page (sc : SiteCrawler) (page : string)
  : SiteCrawler :=
  let sc := set_inbound_links (dict_set_touch page (inbound_links sc)) sc in
  if bool_decide (default ∅ (inbound_links sc !! page) = ∅)
  then set_orphan_pages (orphan_pages sc ∪ {[page]}) sc
  else sc.

Definition identify_orphan_pages (sc : SiteCrawler) : SiteCrawler :=
  let all_pages : gset string := dom (internal_links sc) in
  foldl identify_orphan_page sc (elements all_pages).

Definition get_page_linking_metrics (url : string) : M PageLinkingMetrics :=
  modify_self (λ sc,
    set_internal_links (dict_set_touch url (internal_links sc)) sc) ;;
  modify_self (λ sc,
    set_inbound_links (dict_set_touch url (inbound_links sc)) sc) ;;
  sc ← gets self;
  mret {| plm_outbound_links :=
            Z.of_nat (size (default ∅ (internal_links sc !! url)));
          plm_inbound_links :=
            Z.of_nat (size (default ∅ (inbound_links sc !! url)));
          plm_depth := default (-1) (page_depths sc !! url) |}.

Definition depth_distribution (sc : SiteCrawler) : gmap Z Z :=
  foldl (λ dist url,
           let depth := default (-1) (page_depths sc !! url) in
           if 0 <=? depth then <[depth := default 0 (dist !! depth) + 1]> dist
           else dist)
        ∅ (elements (dom (internal_links sc) : gset string)).

Definition get_linking_metrics : M LinkingMetrics :=
  modify_self identify_orphan_pages ;;
  sc ← gets self;
  mret {| lm_orphan_pages := elements (orphan_pages sc);
          lm_depth_distribution := depth_distribution sc;
          lm_total_pages := Z.of_nat (size (internal_links sc));
          lm_total_internal_links :=
            foldr Z.add 0
              ((λ kv, Z.of_nat (size (snd kv)))
                 <$> map_to_list (internal_links sc)) |}.

Definition crawl_issues_summary (sc : SiteCrawler) : list (string * Z) :=
  ((λ k, (k, default 0 (crawl_issues sc !! k))) <$>
     ["urls_missing_title_tag"; "urls_missing_meta_description";
      "urls_missing_h1"; "images_missing_alt_text"; "duplicate_titles";
      "duplicate_meta_descriptions"; "duplicate_content"])
  ++ [("redirect_loops", redirect_loops (technical_analyzer sc))].

(** The loop of [crawl_site] over the links of the page: collect the
    internal links not yet visited, probe every link. *)
Definition process_link (domain : string) (internal : gset string)
    (link : option string) : M (gset string) :=
  try_except
    (match link with
     | None => raise (ValueError "invalid link")
     | Some absolute_url =>
         parsed_url ← urlparse absolute_url;
         if skipped_scheme parsed_url then mret internal
         else
           let is_internal := is_internal_link domain parsed_url in
           visited ← gets visited_pages;
           let internal' :=
             if is_internal && bool_decide (absolute_url ∉ visited)
             then internal ∪ {[absolute_url]} else internal in
           (* internal_links.add precedes the probe, which may raise *)
           try_except
             (check_url absolute_url is_internal ;; mret internal')
             [(CException, λ _, mret internal')]
     end)
    [(CException, λ _, mret internal)].

(** [crawl_site(url, depth, visited)]; [fresh] says that [visited] is
    [None].  The result is [None] for a page already visited.  The
    recursion is bounded by [fuel], which also bounds the two recursive
    methods that the page analysis calls.  The source fills the [results]
    dictionary in place and returns it from the [except] clause too; what
    can raise inside the [try] (the extraction of the metadata, the check
    of the indexability) comes before the first entry is filled in, so the
    clause returns the dictionary as it was created. *)
Fixpoint crawl_site (fuel : nat) (url : string) (depth : Z) (fresh : bool)
  : M (option Results) :=
  match fuel with
  | O => diverge
  | S fuel' =>
      when fresh (modify (set_visited_pages ∅)) ;;
      visited ← gets visited_pages;
      if bool_decide (url ∈ visited) then mret None
      else
        modify (λ m, set_visited_pages (visited_pages m ∪ {[url]}) m) ;;
        parsed_url ← urlparse url;
        let domain := netloc parsed_url in
        let base_url := scheme parsed_url +:+ "://" +:+ domain in
        let results :=
          {| res_domain := base_url; res_analyzed_url := url;
             res_crawl_issues_summary := [];
             res_canonical_issues_summary := ∅;
             res_page_info := None; res_technical_analysis := None;
             res_linked_pages := [] |} in
        try_except
          (get_robots_txt base_url ;;
           validate_sitemap fuel' domain true ;;
           content ← get_page_content url;
           match content with
           | None => mret (Some results)
           | Some soup =>
               metadata ← extract_metadata soup url;
               indexability ← check_indexability soup url;
               analyze_internal_links fuel' url 0 true ;;
               internal_links ← for_fold (find_all_a_href soup) ∅
                                  (process_link domain);
               linking ← get_page_linking_metrics url;
               sc ← gets self;
               linking_metrics ← get_linking_metrics;
               linked ← (if depth =? 0 then
                           for_fold (elements internal_links) []
                             (λ linked_pages linked_url,
                                try_except
                                  (linked_results ← crawl_site fuel' linked_url
                                                      (depth + 1) false;
                                   mret (linked_pages
                                         ++ option_list linked_results))
                                  [(CException, λ _, mret linked_pages)])
                         else mret []);
               mret (Some
                 {| res_domain := base_url; res_analyzed_url := url;
                    res_crawl_issues_summary := crawl_issues_summary sc;
                    res_canonical_issues_summary := canonical_issues sc;
                    res_page_info :=
                      Some {| pi_url := url;
                              pi_indexability := indexability;
                              pi_metadata := metadata;
                              pi_linking_metrics := linking |};
                    res_technical_analysis :=
                      Some (technical_analyzer sc, linking_metrics);
                    res_linked_pages := linked |})
           end)
          [(CException, λ _, mret (Some results))]
  end.

End Program.

(** * Concrete sites *)

Module Site.

Definition home : string := "https://e.com/".
Definition page_a : string := "https://e.com/a".
Definition page_b : string := "https://e.com/b".
Definition page_c : string := "https://e.com/c".

(** A page with a title and the given links, nothing else. *)
Definition page (title : string) (links : list string) : Soup :=
  {| find_title := Some (Some title); find_meta_description := None;
     find_meta_robots := None; find_link_canonical := None;
     find_all_h := []; find_all_img := []; find_main_content := None;
     find_all_json_ld := []; find_all_itemtype := []; find_all_vocab := [];
     find_all_a_href := Some <$> links |}.

Definition ok (url : string) : Response :=
  {| history := []; resp_url := url; status_code := 200 |}.

(** A world around a function from the fetch count and the URL to the
    rendered page: every HEAD request is answered 200 without redirect,
    there is neither a sitemap nor a robots file. *)
Definition serving (pages : nat -> string -> option Soup) : World :=
  {| head_request := λ _ url, inr (ok url);
     sitemap_request := λ _ _,
       inr {| sm_status_code := 404; sm_content := NotWellFormed "" |};
     robots_request := λ _, None;
     page_source := pages;
     py_float := λ _, None;
     fromisoformat := λ _, false |}.

(** A world that answers HEAD requests as [heads] says. *)
Definition probing (heads : nat -> string -> exn + Response) : World :=
  {| head_request := heads;
     sitemap_request := λ _ _,
       inr {| sm_status_code := 404; sm_content := NotWellFormed "" |};
     robots_request := λ _, None;
     page_source := λ _ _, None;
     py_float := λ _, None;
     fromisoformat := λ _, false |}.

(** The first HEAD request of a URL fails in the network, the later ones
    are answered. *)
Definition flaky_head : World :=
  probing (λ k url,
    match k with
    | O => inl (RequestException "Connection aborted")
    | S _ => inr (ok url)
    end).

(** Every HEAD request fails outside the requests library. *)
Definition failing_head : World :=
  probing (λ _ _, inl (OtherException "label too long")).

(** [/loop] redirects to [/a], which redirects back to [/loop]. *)
Definition looping : World :=
  probing (λ _ url,
    inr {| history := ["https://e.com/loop"; "https://e.com/a"];
           resp_url := "https://e.com/loop"; status_code := 200 |}).

(** A page whose only canonical link is the relative [/other-page]. *)
Definition relative_canonical : Soup :=
  {| find_title := Some (Some "B"); find_meta_description := None;
     find_meta_robots := None;
     find_link_canonical := Some (Some "/other-page");
     find_all_h := []; find_all_img := []; find_main_content := None;
     find_all_json_ld := []; find_all_itemtype := []; find_all_vocab := [];
     find_all_a_href := [] |}.

(** A page with one JSON-LD script holding [schema]. *)
Definition with_json_ld (schema : json) : Soup :=
  {| find_title := Some (Some "A"); find_meta_description := None;
     find_meta_robots := None; find_link_canonical := None;
     find_all_h := []; find_all_img := []; find_main_content := None;
     find_all_json_ld := [Loaded schema];
     find_all_itemtype := []; find_all_vocab := [];
     find_all_a_href := [] |}.

Definition declaration (type : string) : json :=
  JObject [("@context", JString "https://schema.org");
           ("@type", JString type)].

Definition two_declarations : json :=
  JArray [declaration "Organization"; declaration "Article"].

Definition two_names : json :=
  JArray [JString "Organization"; JString "Article"].

(** The home page links to page A, which links nowhere. *)
Definition two_pages : World :=
  serving (λ _ url,
    if String.eqb url home then Some (page "Home" [page_a])
    else if String.eqb url page_a then Some (page "A" [])
    else None).

(** The home page links to page A, which links back to it; the first fetch
    of page A times out, the later ones succeed. *)
Definition late_page : World :=
  serving (λ k url,
    if String.eqb url home then Some (page "Home" [page_a])
    else if String.eqb url page_a then
      match k with
      | O => None
      | S _ => Some (page "A" [home])
      end
    else None).

(** A chain: home links to A, A to B, B to C. *)
Definition chain_of_pages : World :=
  serving (λ _ url,
    if String.eqb url home then Some (page "Home" [page_a])
    else if String.eqb url page_a then Some (page "A" [page_b])
    else if String.eqb url page_b then Some (page "B" [page_c])
    else if String.eqb url page_c then Some (page "C" [])
    else None).

(** A world whose sitemaps are as [sitemaps] says; nothing else answers. *)
Definition mapping (sitemaps : nat -> string -> exn + SitemapResponse)
  : World :=
  {| head_request := λ _ _, inl (RequestException "Connection refused");
     sitemap_request := sitemaps;
     robots_request := λ _, None;
     page_source := λ _ _, None;
     py_float := λ _, None;
     fromisoformat := λ _, false |}.

Definition sitemap_index (locs : list string) : SitemapResponse :=
  {| sm_status_code := 200;
     sm_content :=
       Parsed {| root_tag :=
                   "{http://www.sitemaps.org/schemas/sitemap/0.9}sitemapindex";
                 all_locs := Some <$> locs;
                 url_elements := [] |} |}.

(** The sitemap index of [a.com] refers to a sitemap of [b.com], whose
    index refers back to [a.com]. *)
Definition cyclic_sitemaps : World :=
  mapping (λ _ url,
    if String.eqb url "https://a.com/sitemap.xml"
    then inr (sitemap_index ["https://b.com/sitemap-pages.xml"])
    else if String.eqb url "https://b.com/sitemap.xml"
    then inr (sitemap_index ["https://a.com/sitemap-posts.xml"])
    else inr {| sm_status_code := 404; sm_content := NotWellFormed "" |}).

End Site.

(** * Vocabulary of the properties *)

(** A list has a duplicate exactly when some element occurs again at a
    later position. *)
Definition revisits (l : list string) : Prop :=
  ∃ (i j : nat) (u : string), (i < j)%nat ∧ l !! i = Some u ∧ l !! j = Some u.

(** [keeps R c]: the machine that [c] leaves is related by [R] to the one it
    started from, however [c] ends. *)
Definition keeps {A} (R : relation Machine) (c : M A) : Prop :=
  ∀ m, R m (snd (c m)).

(** The title tracker and the issue counters are left alone. *)
Definition same_titles (m m' : Machine) : Prop :=
  title_tracking (self m') = title_tracking (self m)
  ∧ crawl_issues (self m') = crawl_issues (self m).

(** The title tracker and the counter of duplicate titles are left alone. *)
Definition same_duplicate_titles (m m' : Machine) : Prop :=
  title_tracking (self m') = title_tracking (self m)
  ∧ crawl_issues (self m') !! "duplicate_titles"
    = crawl_issues (self m) !! "duplicate_titles".

(** From a machine that satisfies [P], [c] does not diverge and leaves a
    machine that satisfies [P]; a value it returns satisfies [Q]. *)
Definition runs_to {A} (P : Machine → Prop) (c : M A) (Q : A → Prop) : Prop :=
  ∀ m, P m →
    match c m with
    | (Returns a, m') => Q a ∧ P m'
    | (Raises _, m') => P m'
    | (Diverges, _) => False
    end.

Abbreviation runs_from P c := (runs_to P c (λ _, True)).

(** The domains that sitemap indexes refer to all lie in [D]. *)
Definition references_within (w : World) (D : gset string) : Prop :=
  ∀ k url response root text,
    sitemap_request w k url = inr response →
    sm_content response = Parsed root →
    text ∈ all_locs root →
    nonempty (netloc_of_text text) = true →
    netloc_of_text text ∈ D.

(** The domains of [D] whose sitemap has not been visited. *)
Definition pending (D V : gset string) : nat :=
  size (filter (λ d, sitemap_url_of d ∉ V) D).

(** Between two machines the visited set has grown, and the sitemaps
    fetched in between are fetched once and are those that joined it. *)
Definition fetched_once (m m' : Machine) : Prop :=
  visited_sitemaps m ⊆ visited_sitemaps m'
  ∧ ∀ u,
      (count_event (GetSitemap u) (net m')
       ≤ count_event (GetSitemap u) (net m) + 1)%nat
      ∧ (count_event (GetSitemap u) (net m')
         ≠ count_event (GetSitemap u) (net m) →
         u ∈ visited_sitemaps m' ∧ u ∉ visited_sitemaps m).

(** Every value that [c] returns satisfies [Q]. *)
Definition yields {A} (c : M A) (Q : A → Prop) : Prop :=
  ∀ m a m', c m = (Returns a, m') → Q a.

(** The depths that are assigned stay as they are. *)
Definition depths_kept (m m' : Machine) : Prop :=
  ∀ u d, page_depths (self m) !! u = Some d →
         page_depths (self m') !! u = Some d.

(** Every page fetched is the seed or a link found on the page of the
    seed. *)
Definition fetches_within_two_levels (w : World) (seed : string)
    (m : Machine) : Prop :=
  ∀ url, GetPage url ∈ net m →
    url = seed
    ∨ ∃ k soup, page_source w k seed = Some soup
                ∧ Some url ∈ find_all_a_href soup.

(** The sitemap of [domain] as the world serves it at the next request. *)
Definition next_sitemap (w : World) (domain : string) (m : Machine)
  : exn + SitemapResponse :=
  sitemap_request w
    (count_event (GetSitemap (sitemap_url_of domain)) (net m))
    (sitemap_url_of domain).

(** [self.crawl_issues.get(k, 0)] *)
Definition issue_count (k : string) (m : Machine) : Z :=
  default 0 (crawl_issues (self m) !! k).

(** The counters of the missing elements are left alone. *)
Definition same_missing_elements (m m' : Machine) : Prop :=
  ∀ k, k ∈ ["urls_missing_title_tag"; "urls_missing_meta_description";
            "urls_missing_h1"; "images_missing_alt_text"] →
       issue_count k m' = issue_count k m.

(** The issue counters of the crawl are left alone. *)
Definition same_crawl_issues (m m' : Machine) : Prop :=
  crawl_issues (self m') = crawl_issues (self m).

(** Whether the page asks not to be indexed. *)
Definition asks_noindex (soup : Soup) : bool :=
  match find_meta_robots soup with
  | Some (Some content) => contains "noindex" (lower content)
  | _ => false
  end.

(** The inbound links are the outbound links read backwards. *)
Definition links_mirrored (sc : SiteCrawler) : Prop :=
  ∀ u v, v ∈ default ∅ (internal_links sc !! u)
         ↔ u ∈ default ∅ (inbound_links sc !! v).

(** A computation leaves the two link maps mirrored if it found them so. *)
Definition mirror_kept (m m' : Machine) : Prop :=
  links_mirrored (self m) → links_mirrored (self m').

(** Every link of every page that the world serves lies in [D]. *)
Definition links_within (w : World) (D : gset string) : Prop :=
  ∀ k url soup link,
    page_source w k url = Some soup →
    Some link ∈ find_all_a_href soup →
    link ∈ D.

(** Between two machines the set of analysed pages has grown, and the pages
    fetched in between are fetched once and are those that joined it. *)
Definition pages_fetched_once (m m' : Machine) : Prop :=
  visited_links m ⊆ visited_links m'
  ∧ ∀ u,
      (count_event (GetPage u) (net m')
       ≤ count_event (GetPage u) (net m) + 1)%nat
      ∧ (count_event (GetPage u) (net m')
         ≠ count_event (GetPage u) (net m) →
         u ∈ visited_links m' ∧ u ∉ visited_links m).

(** The pages of [pages] at depth [d]. *)
Definition pages_at (depths : gmap string Z) (d : Z) (pages : list string)
  : list string :=
  filter (λ u, depths !! u = Some d) pages.

(** [halts c]: [c] does not run out of fuel, whatever the machine. *)
Definition halts {A} (c : M A) : Prop := runs_from (λ _, True) c.

(** The method under which [analyze_structured_data] files a page: the
    first of JSON-LD, microdata and RDFa that the page has markup for. *)
Definition chosen_method (soup : Soup) : option method :=
  match find_all_json_ld soup, find_all_itemtype soup, find_all_vocab soup with
  | _ :: _, _, _ => Some json_ld_method
  | [], _ :: _, _ => Some microdata_method
  | [], [], _ :: _ => Some rdfa_method
  | [], [], [] => None
  end.

(** Of the structured data, only the lists of the catalog and the lists of
    valid and invalid pages of method [k] have changed. *)
Definition only_method (k : method) (m m' : Machine) : Prop :=
  let sd := structured_data (self m) in
  let sd' := structured_data (self m') in
  page_coverage sd' = page_coverage sd
  ∧ dom (schema_types sd') = dom (schema_types sd)
  ∧ im_count (get_method k sd') = im_count (get_method k sd)
  ∧ ∀ k', k' ≠ k → get_method k' sd' = get_method k' sd.

(** The counters of the coverage add up. *)
Definition coverage_consistent (pc : PageCoverage) : Prop :=
  total_pages pc
  = pages_with_schema pc + Z.of_nat (length (pages_without_schema pc)).

(** The coverage after one more page. *)
Definition covered (found : StructuredDataFindings) (url : string)
    (pc : PageCoverage) : PageCoverage :=
  match sd_schema_types found with
  | [] =>
      {| total_pages := total_pages pc + 1;
         pages_with_schema := pages_with_schema pc;
         pages_without_schema := pages_without_schema pc ++ [url] |}
  | _ =>
      {| total_pages := total_pages pc + 1;
         pages_with_schema := pages_with_schema pc + 1;
         pages_without_schema := pages_without_schema pc |}
  end.

(** The entry of the catalog that a type name is filed under. *)
Definition bucket_of (catalog : gmap string (list string)) (type : string)
  : string :=
  if catalog !! type is Some _ then type else "other".

(** The number of [items] whose type is filed under [bucket]. *)
Definition filed_under (catalog : gmap string (list string))
    (bucket : string) (items : list string) : nat :=
  length (filter (λ attr, bucket_of catalog (last_segment attr) = bucket)
            items).

(** Every recorded link leads from a page to a URL on the domain of the
    page, with or without [www.], and has a scheme that is followed. *)
Definition links_internal (sc : SiteCrawler) : Prop :=
  ∀ u v, v ∈ default ∅ (internal_links sc !! u) →
         is_internal_link (urlparse_netloc u) (url_parts v) = true
         ∧ skipped_scheme (url_parts v) = false.

(** A computation records internal links only, if only such were recorded
    before. *)
Definition internal_kept (m m' : Machine) : Prop :=
  links_internal (self m) → links_internal (self m').

(** No recorded depth is negative. *)
Definition depths_nonnegative (sc : SiteCrawler) : Prop :=
  ∀ u d, page_depths sc !! u = Some d → 0 ≤ d.

(** A computation leaves no negative depth if it found none. *)
Definition nonnegative_kept (m m' : Machine) : Prop :=
  depths_nonnegative (self m) → depths_nonnegative (self m').

(** * Properties *)

Set Warnings "-clear-no-such-hyp".

(** ** Running the monad *)

Lemma run_bind {A B} (c : M A) (k : A → M B) m :
  (c ≫= k) m = match c m with
               | (Returns a, m') => k a m'
               | (Raises e, m') => (Raises e, m')
               | (Diverges, m') => (Diverges, m')
               end.
Proof. reflexivity. Qed.

Lemma run_ret {A} (a : A) m : (mret a : M A) m = (Returns a, m).
Proof. reflexivity. Qed.

Lemma run_raise {A} e m : (raise e : M A) m = (Raises e, m).
Proof. reflexivity. Qed.

Lemma run_diverge {A} m : (diverge : M A) m = (Diverges, m).
Proof. reflexivity. Qed.

Lemma run_gets {A} (f : Machine → A) m : gets f m = (Returns (f m), m).
Proof. reflexivity. Qed.

Lemma run_modify f m : modify f m = (Returns tt, f m).
Proof. reflexivity. Qed.

Lemma run_modify_self f m :
  modify_self f m = (Returns tt, set_self (f (self m)) m).
Proof. reflexivity. Qed.

Lemma run_modify_analyzer f m :
  modify_analyzer f m
  = (Returns tt,
     set_self (set_technical_analyzer (f (technical_analyzer (self m)))
                 (self m)) m).
Proof. reflexivity. Qed.

Lemma run_emit e m : emit e m = (Returns tt, set_net (net m ++ [e]) m).
Proof. reflexivity. Qed.

Lemma run_when_true (c : M unit) m : when true c m = c m.
Proof. reflexivity. Qed.

Lemma run_when_false (c : M unit) m : when false c m = (Returns tt, m).
Proof. reflexivity. Qed.

Lemma run_try_except {A} (body : M A) hs m :
  try_except body hs m = match body m with
                         | (Raises e, m') => dispatch hs e m'
                         | r => r
                         end.
Proof. reflexivity. Qed.

Lemma run_retry_call {A} remaining n wait (fn : M A) m :
  retry_call (S remaining) n wait fn m
  = match fn m with
    | (Raises e, m') =>
        match remaining with
        | O => (Raises RetryError, m')
        | S _ => (emit (Sleep (wait n)) ;;
                  retry_call remaining (S n) wait fn) m'
        end
    | r => r
    end.
Proof. reflexivity. Qed.

Ltac mrun :=
  repeat (progress
            (rewrite ?run_bind, ?run_ret, ?run_raise, ?run_diverge, ?run_gets,
               ?run_modify_analyzer, ?run_modify_self, ?run_modify, ?run_emit,
               ?run_when_true, ?run_when_false, ?run_try_except;
             cbn beta iota)).

(** The same, leaving [try_except] in place. *)
Ltac mrun0 :=
  repeat (progress
            (rewrite ?run_bind, ?run_ret, ?run_raise, ?run_diverge, ?run_gets,
               ?run_modify_analyzer, ?run_modify_self, ?run_modify, ?run_emit,
               ?run_when_true, ?run_when_false;
             cbn beta iota)).

(** Reading a field back after the updates. *)
Ltac fields :=
  cbn [self net visited_sitemaps visited_links visited_pages
       set_self set_net set_visited_sitemaps set_visited_links
       set_visited_pages
       technical_analyzer set_technical_analyzer
       broken_links redirect_chains sitemap_issues redirect_loops
       set_broken_links set_redirect_chains set_sitemap_issues
       set_redirect_loops
       title_tracking meta_desc_tracking content_tracking crawl_issues
       canonical_issues internal_links inbound_links page_depths
       orphan_pages structured_data robots_txt_content
       set_title_tracking set_meta_desc_tracking set_content_tracking
       set_crawl_issues set_canonical_issues set_internal_links
       set_inbound_links set_page_depths set_orphan_pages
       set_structured_data set_robots_txt_content
       chain count final_status has_loop fst snd] in *.

(** ** Redirect chains *)

Lemma size_list_to_set_le (l : list string) :
  (size (list_to_set l : gset string) ≤ length l)%nat.
Proof.
  induction l as [|x l IH].
  - rewrite list_to_set_nil, size_empty. done.
  - rewrite list_to_set_cons, size_union_alt.
    assert (size (list_to_set l ∖ {[x]} : gset string)
            ≤ size (list_to_set l : gset string))%nat as Hle.
    { apply subseteq_size. set_solver. }
    rewrite size_singleton. cbn [length]. lia.
Qed.

Lemma size_list_to_set_NoDup (l : list string) :
  size (list_to_set l : gset string) = length l ↔ NoDup l.
Proof.
  split; [|apply size_list_to_set].
  induction l as [|x l IH]; intros Hsz; [constructor|].
  rewrite list_to_set_cons in Hsz. cbn [length] in Hsz.
  destruct (decide (x ∈ l)) as [Hin|Hnin].
  - exfalso.
    assert (({[x]} ∪ list_to_set l : gset string) = list_to_set l) as Heq
      by set_solver.
    rewrite Heq in Hsz. pose proof (size_list_to_set_le l). lia.
  - constructor; [done|]. apply IH.
    rewrite size_union in Hsz; [|set_solver].
    rewrite size_singleton in Hsz. lia.
Qed.

Lemma revisits_NoDup (l : list string) : revisits l ↔ ¬ NoDup l.
Proof.
  split.
  - intros (i & j & u & Hlt & Hi & Hj) Hnd.
    pose proof (proj1 (NoDup_alt l) Hnd i j u Hi Hj). lia.
  - induction l as [|x l IH]; intros Hnd.
    + destruct Hnd. constructor.
    + destruct (decide (x ∈ l)) as [Hin|Hnin].
      * apply list_elem_of_lookup in Hin as [k Hk].
        exists 0%nat, (S k), x. split; [lia|]. done.
      * destruct IH as (i & j & u & Hlt & Hi & Hj).
        { intros Hl. apply Hnd. by constructor. }
        exists (S i), (S j), u. split; [lia|]. done.
Qed.

Lemma loop_test_revisits (l : list string) :
  (size (list_to_set l : gset string) <? length l)%nat = true ↔ revisits l.
Proof.
  rewrite revisits_NoDup, <- size_list_to_set_NoDup, Nat.ltb_lt.
  pose proof (size_list_to_set_le l). lia.
Qed.

(** C6.  When the answer to the probe of [url] went through at least one
    redirect, [check_url] records the chain (the intermediate URLs followed
    by the final one) under [url] with the final status, whether it loops or
    not.  The loop flag of the recorded chain is true exactly when some URL
    of the chain occurs again at a later position of the chain, which is
    exactly when the set of its URLs is smaller than the chain is long; the
    redirect-loop counter grows by 1 for a looping chain and stays as it was
    otherwise. *)
Theorem check_url_loop_flag (w : World) (url : string) (is_internal : bool)
    (m : Machine) (r : Response) :
  head_request w (count_event (Head url) (net m)) url = inr r →
  history r ≠ [] →
  let visited := history r ++ [resp_url r] in
  let result := check_url w url is_internal m in
  let before := technical_analyzer (self m) in
  let after := technical_analyzer (self (snd result)) in
  fst result = Returns (Some r) ∧
  ∃ rc : RedirectChain,
    redirect_chains after !! url = Some rc ∧
    chain rc = visited ∧
    final_status rc = status_code r ∧
    (has_loop rc = true ↔ revisits visited) ∧
    (has_loop rc = true
     ↔ (size (list_to_set visited : gset string) < length visited)%nat) ∧
    redirect_loops after
    = redirect_loops before + (if has_loop rc then 1 else 0).
Proof.
  intros Hr Hhist visited result before after.
  subst result after before. unfold check_url, retry.
  rewrite run_retry_call. unfold check_url_attempt, session_head.
  mrun. rewrite Hr. mrun.
  destruct (history r) as [|h0 hs] eqn:Hh; [done|].
  replace (0 <? length (h0 :: hs))%nat with true by done.
  mrun. fold visited.
  destruct (size (list_to_set visited : gset string) <? length visited)%nat
    eqn:Hloop; mrun;
    destruct (400 <=? status_code r); mrun; fields;
    (split; [done|]);
    eexists; (split; [apply lookup_insert_eq|]); fields;
    repeat split; try done; try lia;
    try (intros _; by apply loop_test_revisits);
    try (intros _; by apply Nat.ltb_lt);
    try (intros Hx; apply loop_test_revisits in Hx; congruence);
    try (intros Hx; apply Nat.ltb_lt in Hx; congruence).
Qed.

(** The scenario of the specification: [/loop → /a → /loop]. *)
Lemma check_url_loop_flag_witness :
  let result :=
    check_url Site.looping "https://e.com/loop" true Machine_init in
  let after := technical_analyzer (self (snd result)) in
  (has_loop <$> redirect_chains after !! "https://e.com/loop") = Some true
  ∧ redirect_loops after = 1.
Proof.
  destruct (check_url_loop_flag Site.looping "https://e.com/loop" true
              Machine_init
              {| history := ["https://e.com/loop"; "https://e.com/a"];
                 resp_url := "https://e.com/loop"; status_code := 200 |})
    as (_ & rc & Hrc & _ & _ & Hrev & _ & Hcount).
  - reflexivity.
  - discriminate.
  - assert (has_loop rc = true) as Hloop.
    { apply Hrev. exists 0%nat, 2%nat, "https://e.com/loop".
      split; [lia|]. split; reflexivity. }
    cbn zeta. split.
    + rewrite Hrc. cbn. by rewrite Hloop.
    + rewrite Hcount, Hloop. reflexivity.
Defined.

(** ** Retrying *)

(** X1.  A failure of the network is caught inside the body of
    [check_url], so the decorator sees a call that returned: one request, no
    sleep, an entry under ['error'], [None] for the caller. *)
Lemma check_url_request_exception (w : World) (url : string)
    (is_internal : bool) (m : Machine) (msg : string) :
  head_request w (count_event (Head url) (net m)) url
  = inl (RequestException msg) →
  check_url w url is_internal m
  = (Returns None,
     set_self
       (set_technical_analyzer
          (set_broken_links
             (dict_list_append (inr "error")
                (BrokenError (Some url) is_internal msg)
                (broken_links (technical_analyzer (self m))))
             (technical_analyzer (self m)))
          (self m))
       (set_net (net m ++ [Head url]) m)).
Proof.
  intros Hr. unfold check_url, retry.
  rewrite run_retry_call. unfold check_url_attempt, session_head.
  mrun. rewrite Hr. mrun. cbn [dispatch isinstance]. mrun. fields.
  reflexivity.
Qed.

(** The first request is refused. *)
Lemma check_url_request_exception_witness :
  let result := check_url Site.flaky_head Site.page_a true Machine_init in
  fst result = Returns None ∧ net (snd result) = [Head Site.page_a].
Proof.
  cbn zeta.
  rewrite (check_url_request_exception Site.flaky_head Site.page_a true
             Machine_init "Connection aborted" eq_refl).
  split; reflexivity.
Defined.

(** C3 (the code at the failing input).  The first HEAD request of the URL
    fails in the network and a second one would be answered with a 200:
    [check_url] makes one request, does not sleep, does not try again,
    records the URL under ['error'] and returns [None]. *)
Theorem check_url_does_not_retry_network_failure :
  let result := check_url Site.flaky_head Site.page_a true Machine_init in
  fst result = Returns None
  ∧ net (snd result) = [Head Site.page_a]
  ∧ broken_links (technical_analyzer (self (snd result))) !! inr "error"
    = Some [BrokenError (Some Site.page_a) true "Connection aborted"]
  ∧ head_request Site.flaky_head 1 Site.page_a = inr (Site.ok Site.page_a).
Proof. vm_compute. done. Qed.

(** What the decorator does retry is an exception that leaves the body:
    three requests, a sleep of 4 seconds after the first and after the
    second, then [RetryError] for the caller. *)
Lemma check_url_retries_other_exceptions :
  let result := check_url Site.failing_head Site.page_a true Machine_init in
  fst result = Raises RetryError
  ∧ net (snd result)
    = [Head Site.page_a; Sleep 4; Head Site.page_a; Sleep 4;
       Head Site.page_a].
Proof. vm_compute. done. Qed.

Ltac mcase :=
  match goal with
  | |- context [match ?x with _ => _ end] =>
      lazymatch type of x with
      | (outcome _ * Machine)%type => fail
      | _ => destruct x eqn:?
      end
  end.

Ltac msteps := repeat (mrun; try mcase).

(** ** Computations that keep a relation *)

Section Keeps.
Context (R : relation Machine) `{!PreOrder R}.

Lemma keeps_ret {A} (a : A) : keeps R (mret a : M A).
Proof. intros m. reflexivity. Qed.

Lemma keeps_raise {A} e : keeps R (raise e : M A).
Proof. intros m. reflexivity. Qed.

Lemma keeps_diverge {A} : keeps R (diverge : M A).
Proof. intros m. reflexivity. Qed.

Lemma keeps_gets {A} (f : Machine → A) : keeps R (gets f).
Proof. intros m. reflexivity. Qed.

Lemma keeps_modify f : (∀ m, R m (f m)) → keeps R (modify f).
Proof. intros Hf m. apply Hf. Qed.

Lemma keeps_bind {A B} (c : M A) (k : A → M B) :
  keeps R c → (∀ a, keeps R (k a)) → keeps R (c ≫= k).
Proof.
  intros Hc Hk m. rewrite run_bind. specialize (Hc m).
  destruct (c m) as [[a| |] m1]; cbn [snd] in *; [|done..].
  etrans; [exact Hc|apply Hk].
Qed.

Lemma keeps_when b (c : M unit) : keeps R c → keeps R (when b c).
Proof. intros Hc. destruct b; [done|apply keeps_ret]. Qed.

Lemma keeps_dispatch {A} (hs : list (exn_class * (exn → M A))) e :
  Forall (λ ch, ∀ e, keeps R (snd ch e)) hs → keeps R (dispatch hs e).
Proof.
  induction 1 as [|[c h] hs Hh _ IH]; cbn [dispatch]; [apply keeps_raise|].
  destruct (isinstance e c); [apply Hh|apply IH].
Qed.

Lemma keeps_try_except {A} (body : M A) hs :
  keeps R body → Forall (λ ch, ∀ e, keeps R (snd ch e)) hs →
  keeps R (try_except body hs).
Proof.
  intros Hb Hh m. rewrite run_try_except. specialize (Hb m).
  destruct (body m) as [[a|e|] m1]; cbn [snd] in *; [done| |done].
  etrans; [exact Hb|by apply keeps_dispatch].
Qed.

Lemma keeps_for_each {A} (l : list A) (body : A → M unit) :
  (∀ x, keeps R (body x)) → keeps R (for_each l body).
Proof.
  intros Hb. induction l as [|x l IH]; cbn [for_each]; [apply keeps_ret|].
  apply keeps_bind; [apply Hb|done].
Qed.

Lemma keeps_for_fold {A B} (l : list A) (acc : B) (body : B → A → M B) :
  (∀ acc x, keeps R (body acc x)) → keeps R (for_fold l acc body).
Proof.
  intros Hb. revert acc.
  induction l as [|x l IH]; intros acc; cbn [for_fold]; [apply keeps_ret|].
  apply keeps_bind; [apply Hb|done].
Qed.

Lemma keeps_retry_call {A} remaining n wait (fn : M A) :
  keeps R fn → (∀ s, keeps R (emit (Sleep s))) →
  keeps R (retry_call remaining n wait fn).
Proof.
  intros Hfn Hemit. revert n.
  induction remaining as [|remaining IH]; intros n; [apply keeps_raise|].
  intros m. rewrite run_retry_call. specialize (Hfn m).
  destruct (fn m) as [[a|e|] m1]; cbn [snd] in *; [done| |done].
  destruct remaining as [|remaining']; [done|].
  etrans; [exact Hfn|]. apply keeps_bind; [apply Hemit|intros _; apply IH].
Qed.

End Keeps.

Ltac each_handler :=
  repeat first
    [apply Forall_nil_2 | apply Forall_cons_2; [intros ?; cbn [snd]|]].

Ltac keeps_step :=
  lazymatch goal with
  | |- PreOrder _ => exact _
  | |- keeps _ (mret _) => apply keeps_ret
  | |- keeps _ (raise _) => apply keeps_raise
  | |- keeps _ diverge => apply keeps_diverge
  | |- keeps _ (gets _) => apply keeps_gets
  | |- keeps _ (_ ≫= _) => apply keeps_bind; [| |intros ?]
  | |- keeps _ (when _ _) => apply keeps_when
  | |- keeps _ (for_each _ _) => apply keeps_for_each; [|intros ?]
  | |- keeps _ (for_fold _ _ _) => apply keeps_for_fold; [|intros ? ?]
  | |- keeps _ (try_except _ _) => apply keeps_try_except; [| |each_handler]
  | |- keeps _ (retry_call _ _ _ _) =>
      apply keeps_retry_call; [| |intros ?]
  | |- keeps _ (modify _) => apply keeps_modify; intros ?; fields
  | |- keeps _ (emit _) => apply keeps_modify; intros ?; fields
  | |- keeps _ (match ?x with _ => _ end) => destruct x
  end.

Ltac keeps_auto := repeat keeps_step.

Lemma counter_incr_lookup k d :
  counter_incr k d !! k = Some (default 0 (d !! k) + 1).
Proof. apply lookup_insert_eq. Qed.

Lemma counter_incr_lookup_ne k k' d :
  k ≠ k' → counter_incr k d !! k' = d !! k'.
Proof. intros. by apply lookup_insert_ne. Qed.

(** ** Canonical links *)

Lemma check_meta_robots_canonical_issues soup m :
  ∃ r m', check_meta_robots soup m = (Returns r, m')
          ∧ canonical_issues (self m') = canonical_issues (self m).
Proof. unfold check_meta_robots, crawl_issue. msteps; eauto. Qed.

Lemma check_canonical_first_match soup url m :
  let result := check_canonical soup url m in
  let counter m :=
    canonical_issues (self m) !! "points_to_different_url" in
  (∀ canonical_url self_referencing issues,
     fst result = Returns (canonical_url, self_referencing, issues) →
     ("points_to_different_url" ∈ issues →
      issues = ["points_to_different_url"])
     ∧ (counter (snd result)
        = if bool_decide (issues = ["points_to_different_url"])
          then Some (default 0 (counter m) + 1)
          else counter m)
     ∧ (find_link_canonical soup = Some (Some "/other-page") →
        issues = ["relative_url"]))
  ∧ (∀ e, fst result = Raises e → counter (snd result) = counter m)
  ∧ fst result ≠ Diverges.
Proof.
  cbn zeta. unfold check_canonical, canonical_issue, urlparse.
  msteps.
  all: cbn [app netloc] in *; simplify_eq.
  all: fields; cbn [fst snd].
  all: split; [|split; [|done]].
  all: try (intros e [= <-]).
  all: try (intros c sr issues [= <- <- <-]).
  all: try (intros c sr issues [=]).
  all: repeat split.
  all: try (intros Hin; set_solver).
  all: try (try case_bool_decide; simplify_eq;
            rewrite ?counter_incr_lookup_ne by done;
            try rewrite counter_incr_lookup; done).
  all: try (intros; simplify_eq; done).
Qed.

(** C7.  [check_indexability] ends by returning its verdict or, when
    [urlparse] rejects a URL, by raising.  When the issues it reports for
    the page contain ["points_to_different_url"], that is the only issue of
    the page; the counter of that issue grows by one exactly when it is the
    issue reported and is untouched otherwise, also when the check raises.
    A page whose canonical link is the relative [/other-page] gets the
    single issue ["relative_url"]. *)
Theorem check_indexability_first_match (soup : Soup) (url : string)
    (m : Machine) :
  let result := check_indexability soup url m in
  let counter m :=
    canonical_issues (self m) !! "points_to_different_url" in
  (∀ ix, fst result = Returns ix →
     ("points_to_different_url" ∈ ix_canonical_issues ix →
      ix_canonical_issues ix = ["points_to_different_url"])
     ∧ (counter (snd result)
        = if bool_decide
               (ix_canonical_issues ix = ["points_to_different_url"])
          then Some (default 0 (counter m) + 1)
          else counter m)
     ∧ (find_link_canonical soup = Some (Some "/other-page") →
        ix_canonical_issues ix = ["relative_url"]))
  ∧ (∀ e, fst result = Raises e → counter (snd result) = counter m)
  ∧ fst result ≠ Diverges.
Proof.
  cbn zeta. unfold check_indexability. mrun.
  destruct (check_meta_robots_canonical_issues soup m) as (r & m1 & -> & Hm1).
  mrun.
  destruct (check_canonical_first_match soup url m1)
    as (Hreturns & Hraises & Hdiverges).
  rewrite <- Hm1.
  destruct (check_canonical soup url m1) as [[[[c sr] issues]|e|] m'];
    mrun; cbn [fst snd] in *.
  - split; [|split; [|done]]; [|by intros e].
    intros ix [= <-]. cbn [ix_canonical_issues snd].
    by apply (Hreturns c sr).
  - split; [|split; [|done]]; [by intros ix|].
    intros e' _. by apply (Hraises e).
  - done.
Qed.

Lemma check_indexability_first_match_witness :
  ∃ (ix : Indexability),
    fst (check_indexability Site.relative_canonical Site.page_b Machine_init)
    = Returns ix
    ∧ ix_canonical_issues ix = ["relative_url"]
    ∧ canonical_issues
        (self (snd (check_indexability Site.relative_canonical Site.page_b
                      Machine_init)))
      !! "points_to_different_url" = None.
Proof.
  destruct (check_indexability_first_match Site.relative_canonical
              Site.page_b Machine_init)
    as (Hreturns & _ & _).
  destruct (fst (check_indexability Site.relative_canonical Site.page_b
                   Machine_init)) as [ix| |] eqn:Hrun;
    [|vm_compute in Hrun; discriminate Hrun..].
  exists ix. split; [reflexivity|].
  destruct (Hreturns ix eq_refl) as (_ & Hcount & Hrel).
  assert (ix_canonical_issues ix = ["relative_url"]) as Hissues.
  { apply Hrel. reflexivity. }
  split; [exact Hissues|].
  rewrite Hcount, Hissues. reflexivity.
Defined.

(** ** Duplicate titles *)

Global Instance same_titles_preorder : PreOrder same_titles.
Proof. split; [done|]. intros m1 m2 m3 [? ?] [? ?]. split; congruence. Qed.

Global Instance same_duplicate_titles_preorder :
  PreOrder same_duplicate_titles.
Proof. split; [done|]. intros m1 m2 m3 [? ?] [? ?]. split; congruence. Qed.

Lemma analyze_structured_data_same_titles soup url :
  keeps same_titles (analyze_structured_data soup url).
Proof.
  unfold analyze_structured_data, analyze_style, analyze_json_ld_script,
    analyze_attribute_item, classify, json_get, modify_method,
    modify_structured_data, modify_self.
  keeps_auto. all: done.
Qed.

Lemma extract_meta_description_same_titles soup url :
  keeps same_duplicate_titles (extract_meta_description soup url).
Proof.
  unfold extract_meta_description, track_duplicate, crawl_issue, modify_self.
  keeps_auto.
  all: split; fields; try done; by rewrite counter_incr_lookup_ne.
Qed.

Lemma extract_headings_and_images_same_titles soup :
  keeps same_duplicate_titles (extract_headings_and_images soup).
Proof.
  unfold extract_headings_and_images, crawl_issue, modify_self.
  keeps_auto.
  all: split; fields; try done; by rewrite counter_incr_lookup_ne.
Qed.

Lemma extract_content_same_titles soup url :
  keeps same_duplicate_titles (extract_content soup url).
Proof.
  unfold extract_content, track_duplicate, crawl_issue, modify_self.
  keeps_auto.
  all: split; fields; try done; by rewrite counter_incr_lookup_ne.
Qed.



(** ** Arrays of schema declarations *)

(** A single declaration is classified under its type and the page
    counted. *)
Lemma analyze_structured_data_single_declaration :
  let result :=
    analyze_structured_data
      (Site.with_json_ld (Site.declaration "Organization")) Site.page_a
      Machine_init in
  let sd := structured_data (self (snd result)) in
  (sd_schema_types <$> match fst result with
                       | Returns found => Some found
                       | _ => None
                       end) = Some [JString "Organization"]
  ∧ schema_types sd !! "Organization" = Some [Site.page_a]
  ∧ pages_with_schema (page_coverage sd) = 1.
Proof. vm_compute. done. Qed.

(** C4 (the code at the failing input).  Page A carries one JSON-LD script
    whose content is an array, of two declarations or of two names.  The
    analysis looks up ["@type"] in the array itself before it tests for an
    array and leaves with an [AttributeError]: no entry of the catalog
    receives A and the coverage counters are not touched. *)
Theorem analyze_structured_data_array_raises :
  ∀ schema, schema ∈ [Site.two_declarations; Site.two_names] →
  let result :=
    analyze_structured_data (Site.with_json_ld schema) Site.page_a
      Machine_init in
  let sd := structured_data (self (snd result)) in
  fst result
  = Raises (AttributeError "'list' object has no attribute 'get'")
  ∧ schema_types sd !! "Organization" = Some []
  ∧ schema_types sd !! "Article" = Some []
  ∧ pages_with_schema (page_coverage sd) = 0
  ∧ total_pages (page_coverage sd) = 0
  ∧ im_count (json_ld sd) = 1.
Proof.
  intros schema Hin.
  repeat (apply elem_of_cons in Hin as [->|Hin]); [| |by apply elem_of_nil in Hin].
  all: vm_compute; done.
Qed.

Lemma analyze_structured_data_array_raises_witness :
  fst (analyze_structured_data (Site.with_json_ld Site.two_declarations)
         Site.page_a Machine_init)
  = Raises (AttributeError "'list' object has no attribute 'get'").
Proof.
  apply (analyze_structured_data_array_raises Site.two_declarations).
  apply elem_of_cons. by left.
Defined.

(** ** Sitemaps: no exception leaves [validate_sitemap] *)

Lemma run_validate_sitemap w fuel domain fresh :
  validate_sitemap w (S fuel) domain fresh
  = (when fresh (modify (set_visited_sitemaps ∅)) ;;
     visited ← gets visited_sitemaps;
     if bool_decide (sitemap_url_of domain ∈ visited) then mret tt
     else
       modify (λ m, set_visited_sitemaps
                      (visited_sitemaps m ∪ {[sitemap_url_of domain]}) m) ;;
       try_except
         (response ← session_get w (sitemap_url_of domain);
          if negb (sm_status_code response =? 200) then
            add_sitemap_issue
              ("Sitemap not found at " +:+ sitemap_url_of domain)
          else
            try_except
              (match sm_content response with
               | NotWellFormed msg => raise (ParseError msg)
               | Parsed root =>
                   if contains "sitemapindex" (root_tag root) then
                     locs ← findall_ns root (all_locs root);
                     for_each locs (λ sitemap,
                       sitemap_domain ← urlparse_text sitemap;
                       visited ← gets visited_sitemaps;
                       when (nonempty sitemap_domain
                             && bool_decide (sitemap_domain ∉ visited))
                         (validate_sitemap w fuel sitemap_domain false))
                   else
                     urls ← findall_ns root (url_elements root);
                     for_each urls (validate_url_element w)
               end)
              [(CParseError, λ e,
                 add_sitemap_issue
                   ("Invalid XML in sitemap: " +:+ str_exn e))])
         [(CRequestException, λ e,
            add_sitemap_issue ("Error fetching sitemap: " +:+ str_exn e));
          (CException, λ e,
            add_sitemap_issue
              ("Unexpected error processing sitemap: " +:+ str_exn e))]).
Proof. reflexivity. Qed.

Lemma validate_sitemap_no_exception w fuel domain fresh m e :
  fst (validate_sitemap w fuel domain fresh m) ≠ Raises e.
Proof.
  destruct fuel as [|fuel]; [done|].
  rewrite run_validate_sitemap.
  destruct fresh; mrun.
  all: case_bool_decide; mrun; [done|].
  all: match goal with
       | |- context [match ?x with _ => _ end] =>
           destruct x as [[[]|e'|] m1]
       end; [done| |done].
  all: cbn [dispatch]; destruct (isinstance e' CRequestException);
    cbn [isinstance]; unfold add_sitemap_issue; mrun; done.
Qed.

(** ** Computations that neither diverge nor break an invariant *)

Lemma runs_from_spec {A} P (c : M A) m :
  runs_from P c → P m → fst (c m) ≠ Diverges ∧ P (snd (c m)).
Proof.
  intros Hc Hm. specialize (Hc m Hm).
  destruct (c m) as [[a|e|] m']; cbn [fst snd]; [split; [done|tauto]|done..].
Qed.

Section Runs.
Context (P : Machine → Prop).

Lemma runs_ret {A} (a : A) : runs_from P (mret a : M A).
Proof. intros m Hm. done. Qed.

Lemma runs_raise {A} e : runs_from P (raise e : M A).
Proof. intros m Hm. done. Qed.

Lemma runs_gets {A} (f : Machine → A) : runs_from P (gets f).
Proof. intros m Hm. done. Qed.

Lemma runs_modify f : (∀ m, P m → P (f m)) → runs_from P (modify f).
Proof. intros Hf m Hm. split; [done|by apply Hf]. Qed.

Lemma runs_bind {A B} (c : M A) (k : A → M B) (Q : A → Prop) :
  runs_to P c Q → (∀ a, Q a → runs_from P (k a)) → runs_from P (c ≫= k).
Proof.
  intros Hc Hk m Hm. rewrite run_bind. specialize (Hc m Hm).
  destruct (c m) as [[a| |] m1]; [|done..].
  destruct Hc as [Ha Hm1]. by apply Hk.
Qed.

Lemma runs_when b (c : M unit) :
  (b = true → runs_from P c) → runs_from P (when b c).
Proof. intros Hc. destruct b; [by apply Hc|apply runs_ret]. Qed.

Lemma runs_dispatch {A} (hs : list (exn_class * (exn → M A))) e :
  Forall (λ ch, ∀ e, runs_from P (snd ch e)) hs → runs_from P (dispatch hs e).
Proof.
  induction 1 as [|[c h] hs Hh _ IH]; cbn [dispatch]; [apply runs_raise|].
  destruct (isinstance e c); [apply Hh|apply IH].
Qed.

Lemma runs_try_except {A} (body : M A) hs :
  runs_from P body → Forall (λ ch, ∀ e, runs_from P (snd ch e)) hs →
  runs_from P (try_except body hs).
Proof.
  intros Hb Hh m Hm. rewrite run_try_except. specialize (Hb m Hm).
  destruct (body m) as [[a|e|] m1]; [done| |done].
  by apply runs_dispatch.
Qed.

Lemma runs_for_each {A} (l : list A) (body : A → M unit) :
  (∀ x, x ∈ l → runs_from P (body x)) → runs_from P (for_each l body).
Proof.
  induction l as [|x l IH]; intros Hb; cbn [for_each]; [apply runs_ret|].
  apply (runs_bind _ _ (λ _, True)); [apply Hb; by left|].
  intros _ _. apply IH. intros y Hy. apply Hb. by right.
Qed.

Lemma runs_for_fold {A B} (l : list A) (acc : B) (body : B → A → M B) :
  (∀ acc x, x ∈ l → runs_from P (body acc x)) →
  runs_from P (for_fold l acc body).
Proof.
  revert acc.
  induction l as [|x l IH]; intros acc Hb; cbn [for_fold]; [apply runs_ret|].
  apply (runs_bind _ _ (λ _, True)); [apply Hb; by left|].
  intros acc' _. apply IH. intros acc'' y Hy. apply Hb. by right.
Qed.

Lemma runs_retry_call {A} remaining n wait (fn : M A) :
  runs_from P fn → (∀ s, runs_from P (emit (Sleep s))) →
  runs_from P (retry_call remaining n wait fn).
Proof.
  intros Hfn Hemit. revert n.
  induction remaining as [|remaining IH]; intros n; [apply runs_raise|].
  intros m Hm. rewrite run_retry_call. specialize (Hfn m Hm).
  destruct (fn m) as [[a|e|] m1]; [done| |done].
  destruct remaining as [|remaining']; [done|].
  apply (runs_bind _ _ (λ _, True)); [apply Hemit|intros _ _; apply IH|done].
Qed.

End Runs.

Ltac runs_step :=
  lazymatch goal with
  | |- runs_to _ (mret _) _ => apply runs_ret
  | |- runs_to _ (raise _) _ => apply runs_raise
  | |- runs_to _ (gets _) _ => apply runs_gets
  | |- runs_to _ (_ ≫= _) _ =>
      apply (runs_bind _ _ _ (λ _, True)); [|intros ? _]
  | |- runs_to _ (when _ _) _ => apply runs_when; intros ?
  | |- runs_to _ (for_each _ _) _ => apply runs_for_each; intros ? ?
  | |- runs_to _ (for_fold _ _ _) _ => apply runs_for_fold; intros ? ? ?
  | |- runs_to _ (try_except _ _) _ => apply runs_try_except; [|each_handler]
  | |- runs_to _ (retry_call _ _ _ _) _ =>
      apply runs_retry_call; [|intros ?]
  | |- runs_to _ (modify _) _ => apply runs_modify; intros ? ?; fields
  | |- runs_to _ (emit _) _ => apply runs_modify; intros ? ?; fields
  | |- runs_to _ (match ?x with _ => _ end) _ => destruct x eqn:?
  end.

Ltac runs_auto := repeat runs_step.

(** The answer that [session_get] returns is an answer of the world. *)
Lemma session_get_runs w (P : Machine → Prop) url :
  (∀ m e, P m → P (set_net (net m ++ [e]) m)) →
  runs_to P (session_get w url)
    (λ response, ∃ k, sitemap_request w k url = inr response).
Proof.
  intros HP m Hm. unfold session_get. mrun.
  destruct (sitemap_request w _ url) eqn:Hreq; mrun; [by apply HP|].
  split; [eauto|by apply HP].
Qed.

Lemma findall_ns_runs {A} (P : Machine → Prop) root (found : list A) :
  runs_to P (findall_ns root found) (λ l, l = found).
Proof. intros m Hm. unfold findall_ns. destruct (contains _ _); by mrun. Qed.

Lemma urlparse_text_runs (P : Machine → Prop) text :
  runs_to P (urlparse_text text) (λ domain, domain = netloc_of_text text).
Proof.
  intros m Hm. unfold urlparse_text, urlparse.
  destruct text as [t|]; [|by mrun].
  mrun. destruct (invalid_netloc _); by mrun.
Qed.

Lemma validate_url_element_runs w (V : gset string) entry :
  runs_from (λ m, V ⊆ visited_sitemaps m) (validate_url_element w entry).
Proof.
  unfold validate_url_element, check_url_text, check_url, retry,
    check_url_attempt, session_head, add_sitemap_issue, modify_analyzer,
    modify_self, emit.
  runs_auto. all: done.
Qed.

Lemma pending_mono D V V' : V ⊆ V' → (pending D V' ≤ pending D V)%nat.
Proof.
  intros HV. apply subseteq_size. intros d.
  rewrite !elem_of_filter. set_solver.
Qed.

Lemma pending_lt D V V' d :
  d ∈ D → sitemap_url_of d ∉ V → V ∪ {[sitemap_url_of d]} ⊆ V' →
  (pending D V' < pending D V)%nat.
Proof.
  intros Hd Hn HV. apply subset_size. split.
  - intros x. rewrite !elem_of_filter. set_solver.
  - intros Hsub. specialize (Hsub d). rewrite !elem_of_filter in Hsub.
    destruct Hsub as [Hx _]; [done|]. set_solver.
Qed.

Lemma validate_sitemap_enough_fuel w D :
  references_within w D →
  ∀ fuel d m,
    d ∈ D → (pending D (visited_sitemaps m) < fuel)%nat →
    fst (validate_sitemap w fuel d false m) ≠ Diverges
    ∧ visited_sitemaps m ⊆ visited_sitemaps (snd (validate_sitemap w fuel d false m)).
Proof.
  intros Href. induction fuel as [|fuel IH]; intros d m Hd Hfuel; [lia|].
  rewrite run_validate_sitemap. mrun0.
  case_bool_decide as Hvis; mrun0; [done|].
  set (V1 := visited_sitemaps m ∪ {[sitemap_url_of d]}).
  match goal with
  | |- context [try_except ?body ?hs ?m1] =>
      assert (runs_from (λ m, V1 ⊆ visited_sitemaps m) (try_except body hs))
        as Hruns;
      [|destruct (runs_from_spec _ _ m1 Hruns) as [Hdiv Hsub]; [done|]]
  end.
  2:{ split; [exact Hdiv|]. etrans; [|exact Hsub]. subst V1. set_solver. }
  unfold add_sitemap_issue, modify_analyzer, modify_self.
  apply runs_try_except; [|each_handler; runs_auto; done].
  eapply runs_bind; [by apply session_get_runs|].
  intros response [k Hreq].
  destruct (negb _); [runs_auto; done|].
  apply runs_try_except; [|each_handler; runs_auto; done].
  destruct (sm_content response) as [root|msg] eqn:Hroot; [|apply runs_raise].
  destruct (contains "sitemapindex" _).
  - eapply runs_bind; [apply findall_ns_runs|]. intros locs ->.
    apply runs_for_each. intros text Htext.
    eapply runs_bind; [apply urlparse_text_runs|]. intros sitemap_domain ->.
    apply (runs_bind _ _ _ (λ _, True)); [apply runs_gets|]. intros visited _.
    apply runs_when. intros [Hne _]%andb_prop.
    intros m' Hm'.
    assert (netloc_of_text text ∈ D) as HD by (eapply Href; eauto).
    destruct (IH (netloc_of_text text) m' HD) as [Hdiv Hsub].
    { pose proof (pending_lt D (visited_sitemaps m) (visited_sitemaps m') d
                    Hd Hvis Hm'). lia. }
    destruct (validate_sitemap w fuel (netloc_of_text text) false m')
      as [[[]|e|] m''] eqn:Hrun; cbn [fst snd] in *.
    + split; [done|]. by etrans.
    + by etrans.
    + done.
  - eapply runs_bind; [apply findall_ns_runs|]. intros urls ->.
    apply runs_for_each. intros entry _. apply validate_url_element_runs.
Qed.

(** ** Each sitemap is fetched at most once *)

Lemma count_event_app e e' log :
  count_event e (log ++ [e'])
  = (count_event e log + (if bool_decide (e' = e) then 1 else 0))%nat.
Proof.
  unfold count_event. rewrite filter_app, length_app. f_equal.
  rewrite filter_cons, filter_nil.
  destruct (decide (e' = e)) as [->|Hne].
  - by rewrite bool_decide_eq_true_2.
  - by rewrite bool_decide_eq_false_2.
Qed.

Global Instance fetched_once_preorder : PreOrder fetched_once.
Proof.
  split.
  - intros m. split; [done|]. intros u. split; [lia|done].
  - intros m0 m1 m2 [HV1 H1] [HV2 H2]. split; [by etrans|].
    intros u. destruct (H1 u) as [Hle1 Hne1], (H2 u) as [Hle2 Hne2].
    destruct (decide (count_event (GetSitemap u) (net m1)
                      = count_event (GetSitemap u) (net m0))) as [Heq|Hne].
    + rewrite <- Heq. split; [done|]. intros Hc.
      destruct (Hne2 Hc) as [? ?]. split; [done|]. set_solver.
    + destruct (Hne1 Hne) as [Hin Hnin].
      destruct (decide (count_event (GetSitemap u) (net m2)
                        = count_event (GetSitemap u) (net m1))) as [Heq|Hne'].
      * rewrite Heq. split; [done|]. intros _. split; [|done]. set_solver.
      * destruct (Hne2 Hne') as [_ Hn]. done.
Qed.

Lemma fetched_once_same m m' :
  visited_sitemaps m' = visited_sitemaps m →
  (∀ u, count_event (GetSitemap u) (net m')
        = count_event (GetSitemap u) (net m)) →
  fetched_once m m'.
Proof.
  intros HV Hc. split; [by rewrite HV|]. intros u. rewrite Hc.
  split; [lia|done].
Qed.

Ltac same_fetches :=
  apply fetched_once_same; fields; [done|];
  intros ?; rewrite ?count_event_app; try done;
  rewrite bool_decide_eq_false_2 by done; lia.

Lemma validate_url_element_fetched_once w entry :
  keeps fetched_once (validate_url_element w entry).
Proof.
  unfold validate_url_element, check_url_text, check_url, retry,
    check_url_attempt, session_head, add_sitemap_issue, modify_analyzer,
    modify_self, emit.
  keeps_auto.
  all: same_fetches.
Qed.

Lemma run_try_session_get {A} w url (k : SitemapResponse → M A) hs m :
  try_except (session_get w url ≫= k) hs m
  = let m' := set_net (net m ++ [GetSitemap url]) m in
    match sitemap_request w (count_event (GetSitemap url) (net m)) url with
    | inl e => dispatch hs e m'
    | inr response => try_except (k response) hs m'
    end.
Proof.
  rewrite run_try_except. unfold session_get. mrun.
  destruct (sitemap_request w _ url); mrun; reflexivity.
Qed.

Lemma validate_sitemap_fetched_once w fuel domain :
  keeps fetched_once (validate_sitemap w fuel domain false).
Proof.
  revert domain. induction fuel as [|fuel IH]; intros domain m; [done|].
  rewrite run_validate_sitemap. mrun0.
  case_bool_decide as Hvis; mrun0; [done|].
  rewrite run_try_session_get. cbn zeta.
  match goal with
  | |- context [set_net ?l ?m1] =>
      set (m2 := set_net l m1);
      assert (fetched_once m m2) as Hstep
  end.
  { subst m2. split; fields; [set_solver|]. intros u.
    rewrite count_event_app. case_bool_decide; simplify_eq.
    - split; [lia|]. intros _. set_solver.
    - split; [lia|]. lia. }
  unfold add_sitemap_issue, modify_analyzer, modify_self.
  destruct (sitemap_request w _ _) as [e|response].
  - etrans; [exact Hstep|]. apply keeps_dispatch; [exact _|].
    each_handler; keeps_auto; same_fetches.
  - etrans; [exact Hstep|]. clear Hstep. generalize m2. clear m2 m Hvis.
    change (keeps fetched_once ?c) with (keeps fetched_once c).
    match goal with |- ∀ m2, fetched_once m2 (snd (?c m2)) =>
      change (keeps fetched_once c) end.
    unfold findall_ns, urlparse_text, urlparse.
    keeps_auto; try same_fetches.
    + apply IH.
    + apply validate_url_element_fetched_once.
Qed.

Lemma validate_sitemap_visited w fuel domain m :
  sitemap_url_of domain ∈ visited_sitemaps m →
  validate_sitemap w (S fuel) domain false m = (Returns tt, m).
Proof.
  intros Hvis. rewrite run_validate_sitemap. mrun0.
  rewrite bool_decide_eq_true_2 by done. reflexivity.
Qed.

Lemma validate_sitemap_fresh w fuel domain m :
  validate_sitemap w (S fuel) domain true m
  = validate_sitemap w (S fuel) domain false (set_visited_sitemaps ∅ m).
Proof. rewrite !run_validate_sitemap. mrun0. reflexivity. Qed.

Lemma pending_le_size D V : (pending D V ≤ size D)%nat.
Proof. apply subseteq_size. intros d. rewrite elem_of_filter. tauto. Qed.


Lemma cyclic_sitemaps_references :
  references_within Site.cyclic_sitemaps {["a.com"; "b.com"]}.
Proof.
  intros k url response root text Hreq Hroot Htext _.
  unfold Site.cyclic_sitemaps, Site.mapping in Hreq. cbn [sitemap_request] in Hreq.
  repeat case_match; simplify_eq; unfold Site.sitemap_index in Hroot;
    cbn [sm_content] in Hroot; simplify_eq; cbn [all_locs] in Htext.
  - apply list_elem_of_singleton in Htext as ->.
    vm_compute netloc_of_text. set_solver.
  - apply list_elem_of_singleton in Htext as ->.
    vm_compute netloc_of_text. set_solver.
Qed.


(** ** Sitemaps: what is recorded *)

Lemma validate_sitemap_records_fetch w fuel domain m :
  let url := sitemap_url_of domain in
  let result := validate_sitemap w (S fuel) domain true m in
  let issues := sitemap_issues (technical_analyzer (self m)) in
  let issues' := sitemap_issues (technical_analyzer (self (snd result))) in
  match sitemap_request w (count_event (GetSitemap url) (net m)) url with
  | inl e =>
      fst result = Returns tt
      ∧ issues'
        = issues
          ++ [(if isinstance e CRequestException
               then "Error fetching sitemap: "
               else "Unexpected error processing sitemap: ") +:+ str_exn e]
  | inr response =>
      if sm_status_code response =? 200 then
        match sm_content response with
        | NotWellFormed msg =>
            fst result = Returns tt
            ∧ issues' = issues ++ ["Invalid XML in sitemap: " +:+ msg]
        | Parsed root =>
            contains "}" (root_tag root) = false →
            fst result = Returns tt
            ∧ issues'
              = issues
                ++ ["Unexpected error processing sitemap: "
                    +:+ "prefix 'ns' not found in prefix map"]
        end
      else
        fst result = Returns tt
        ∧ issues' = issues ++ ["Sitemap not found at " +:+ url]
  end.
Proof.
  cbn zeta. rewrite validate_sitemap_fresh, run_validate_sitemap. mrun0.
  fields. rewrite bool_decide_eq_false_2 by set_solver. mrun0.
  rewrite run_try_session_get. cbn zeta. fields.
  unfold add_sitemap_issue.
  destruct (sitemap_request w _ _) as [e|response].
  - cbn [dispatch]. destruct (isinstance e CRequestException);
      cbn [isinstance]; mrun; fields; done.
  - rewrite run_try_except.
    destruct (sm_status_code response =? 200); cbn [negb]; mrun; fields;
      [|done].
    destruct (sm_content response) as [root|msg]; mrun.
    + intros Hns. unfold findall_ns.
      destruct (contains "sitemapindex" (root_tag root)); rewrite Hns;
        mrun; cbn [dispatch isinstance]; mrun; fields; done.
    + cbn [dispatch isinstance str_exn]. mrun. fields. done.
Qed.

Lemma validate_url_element_records w entry m text :
  ue_loc entry = None →
  let result := validate_url_element w entry m in
  let issues := sitemap_issues (technical_analyzer (self m)) in
  let issues' := sitemap_issues (technical_analyzer (self (snd result))) in
  (ue_lastmod entry = Some (Some text) → ue_priority entry = None →
   fromisoformat w (replace_Z text) = false →
   fst result = Returns tt
   ∧ issues' = issues ++ ["Invalid lastmod format in sitemap: " +:+ text])
  ∧ (ue_lastmod entry = None → ue_priority entry = Some (Some text) →
     py_float w text = None →
     fst result = Returns tt
     ∧ issues' = issues ++ ["Invalid priority format in sitemap: " +:+ text])
  ∧ (ue_lastmod entry = None → ue_priority entry = Some (Some text) →
     ∀ prio, py_float w text = Some prio →
     PrimFloat.leb 0 prio && PrimFloat.leb prio 1 = false →
     fst result = Returns tt
     ∧ issues' = issues ++ ["Invalid priority value in sitemap: " +:+ text]).
Proof.
  intros Hloc. cbn zeta. unfold validate_url_element, add_sitemap_issue.
  rewrite Hloc. split; [|split].
  - intros -> -> Hiso. mrun. rewrite Hiso. mrun.
    cbn [dispatch isinstance py_str default]. mrun. fields. done.
  - intros -> -> Hfloat. mrun. rewrite Hfloat. mrun.
    cbn [dispatch isinstance py_str default]. mrun. fields. done.
  - intros -> -> prio Hfloat Hrange. mrun. rewrite Hfloat, Hrange.
    cbn [negb]. mrun. fields. done.
Qed.



(** ** What a computation can return *)

Lemma yields_any {A} (c : M A) : yields c (λ _, True).
Proof. done. Qed.

Lemma yields_ret {A} (a : A) (Q : A → Prop) : Q a → yields (mret a) Q.
Proof. intros Ha m a' m' [= <- _]. done. Qed.

Lemma yields_raise {A} e (Q : A → Prop) : yields (raise e) Q.
Proof. intros m a m' [=]. Qed.

Lemma yields_diverge {A} (Q : A → Prop) : yields diverge Q.
Proof. intros m a m' [=]. Qed.

Lemma yields_bind {A B} (c : M A) (k : A → M B) (P : A → Prop)
    (Q : B → Prop) :
  yields c P → (∀ a, P a → yields (k a) Q) → yields (c ≫= k) Q.
Proof.
  intros Hc Hk m b m'. rewrite run_bind.
  destruct (c m) as [[a| |] m1] eqn:Hrun; [|done..].
  apply Hk. by eapply Hc.
Qed.

Lemma yields_dispatch {A} (hs : list (exn_class * (exn → M A))) e
    (Q : A → Prop) :
  Forall (λ ch, ∀ e, yields (snd ch e) Q) hs → yields (dispatch hs e) Q.
Proof.
  induction 1 as [|[c h] hs Hh _ IH]; cbn [dispatch]; [apply yields_raise|].
  destruct (isinstance e c); [apply Hh|apply IH].
Qed.

Lemma yields_try_except {A} (body : M A) hs (Q : A → Prop) :
  yields body Q → Forall (λ ch, ∀ e, yields (snd ch e) Q) hs →
  yields (try_except body hs) Q.
Proof.
  intros Hb Hh m a m'. rewrite run_try_except.
  destruct (body m) as [[a'|e|] m1] eqn:Hrun; [|by apply yields_dispatch|done].
  intros [= <- <-]. by eapply Hb.
Qed.

Lemma yields_for_fold {A B} (l : list A) (acc : B) (body : B → A → M B)
    (I : B → Prop) :
  I acc → (∀ acc x, x ∈ l → I acc → yields (body acc x) I) →
  yields (for_fold l acc body) I.
Proof.
  revert acc.
  induction l as [|x l IH]; intros acc Hacc Hb; cbn [for_fold].
  - by apply yields_ret.
  - eapply yields_bind; [apply Hb; [by left|done]|].
    intros acc' Hacc'. apply IH; [done|].
    intros acc'' y Hy. apply Hb. by right.
Qed.

Section Crawl.
Context (w : World).

Lemma run_crawl_site fuel url depth fresh :
  crawl_site w (S fuel) url depth fresh
  = (when fresh (modify (set_visited_pages ∅)) ;;
     visited ← gets visited_pages;
     if bool_decide (url ∈ visited) then mret None
     else
       modify (λ m, set_visited_pages (visited_pages m ∪ {[url]}) m) ;;
       parsed_url ← urlparse url;
       let domain := netloc parsed_url in
       let base_url := scheme parsed_url +:+ "://" +:+ domain in
       let results :=
         {| res_domain := base_url; res_analyzed_url := url;
            res_crawl_issues_summary := [];
            res_canonical_issues_summary := ∅;
            res_page_info := None; res_technical_analysis := None;
            res_linked_pages := [] |} in
       try_except
         (get_robots_txt w base_url ;;
          validate_sitemap w fuel domain true ;;
          content ← get_page_content w url;
          match content with
          | None => mret (Some results)
          | Some soup =>
              metadata ← extract_metadata soup url;
              indexability ← check_indexability soup url;
              analyze_internal_links w fuel url 0 true ;;
              internal_links ← for_fold (find_all_a_href soup) ∅
                                 (process_link w domain);
              linking ← get_page_linking_metrics url;
              sc ← gets self;
              linking_metrics ← get_linking_metrics;
              linked ← (if depth =? 0 then
                          for_fold (elements internal_links) []
                            (λ linked_pages linked_url,
                               try_except
                                 (linked_results ← crawl_site w fuel linked_url
                                                     (depth + 1) false;
                                  mret (linked_pages
                                        ++ option_list linked_results))
                                 [(CException, λ _, mret linked_pages)])
                        else mret []);
              mret (Some
                {| res_domain := base_url; res_analyzed_url := url;
                   res_crawl_issues_summary := crawl_issues_summary sc;
                   res_canonical_issues_summary := canonical_issues sc;
                   res_page_info :=
                     Some {| pi_url := url;
                             pi_indexability := indexability;
                             pi_metadata := metadata;
                             pi_linking_metrics := linking |};
                   res_technical_analysis :=
                     Some (technical_analyzer sc, linking_metrics);
                   res_linked_pages := linked |})
          end)
         [(CException, λ _, mret (Some results))]).
Proof. reflexivity. Qed.

Ltac yields_skip :=
  eapply yields_bind; [apply yields_any|intros ? _].

(** A page crawled at a depth other than 0 has no linked pages. *)
Lemma crawl_site_leaf fuel url depth fresh :
  yields (crawl_site w fuel url depth fresh)
    (λ o, ∀ r, o = Some r →
       res_analyzed_url r = url ∧ (depth ≠ 0 → res_linked_pages r = [])).
Proof.
  destruct fuel as [|fuel]; [apply yields_diverge|].
  rewrite run_crawl_site. yields_skip. yields_skip.
  case_bool_decide; [by apply yields_ret|]. do 2 yields_skip. cbn zeta.
  apply yields_try_except;
    [|each_handler; apply yields_ret; by intros r [= <-]].
  do 2 yields_skip.
  eapply yields_bind; [apply yields_any|intros content _].
  destruct content as [soup|]; [|apply yields_ret; by intros r [= <-]].
  do 7 yields_skip.
  eapply (yields_bind _ _ (λ linked, depth ≠ 0 → linked = [])).
  - destruct (depth =? 0) eqn:Hd; [|by apply yields_ret].
    intros m a' m' _ Hne. apply Z.eqb_eq in Hd. done.
  - intros linked Hlinked. apply yields_ret. intros r [= <-]. done.
Qed.

Lemma urlparse_parts url :
  yields (urlparse url) (λ parsed, parsed = url_parts url).
Proof.
  unfold urlparse. destruct (invalid_netloc _);
    [apply yields_raise|by apply yields_ret].
Qed.

Lemma process_link_internal domain internal link :
  yields (process_link w domain internal link)
    (λ internal', ∀ u, u ∈ internal' →
       u ∈ internal
       ∨ (link = Some u ∧ is_internal_link domain (url_parts u) = true)).
Proof.
  unfold process_link.
  apply yields_try_except; [|each_handler; apply yields_ret; auto].
  destruct link as [absolute_url|]; [|apply yields_raise].
  eapply yields_bind; [apply urlparse_parts|]. intros parsed ->.
  destruct (skipped_scheme _); [apply yields_ret; auto|].
  eapply yields_bind; [apply yields_any|intros a _]. cbn zeta.
  assert (∀ u, u ∈ (if is_internal_link domain (url_parts absolute_url)
                       && bool_decide (absolute_url ∉ a)
                    then internal ∪ {[absolute_url]} else internal) →
            u ∈ internal
            ∨ (Some absolute_url = Some u
               ∧ is_internal_link domain (url_parts u) = true)) as Hin.
  { intros u. destruct (is_internal_link domain (url_parts absolute_url))
      eqn:Hint; cbn [andb]; [|auto].
    case_bool_decide; [|auto].
    intros [?| ->%elem_of_singleton]%elem_of_union; auto. }
  apply yields_try_except; [|each_handler; by apply yields_ret].
  yields_skip. by apply yields_ret.
Qed.

Lemma get_page_content_source url :
  yields (get_page_content w url)
    (λ content, ∀ soup, content = Some soup →
       ∃ k, page_source w k url = Some soup).
Proof.
  intros m content m'. unfold get_page_content. mrun.
  intros [= <- _] soup Hsoup. eauto.
Qed.


End Crawl.

(** ** Orphan pages *)

Lemma dict_set_touch_default k d p :
  default ∅ (dict_set_touch k d !! p) = default (∅ : gset string) (d !! p).
Proof.
  unfold dict_set_touch. destruct (d !! k) eqn:Hk; [done|].
  destruct (decide (k = p)) as [->|Hne].
  - by rewrite lookup_insert_eq, Hk.
  - by rewrite lookup_insert_ne.
Qed.

Lemma identify_orphan_page_spec sc page :
  let sc' := identify_orphan_page sc page in
  orphan_pages sc'
  = orphan_pages sc
    ∪ (if bool_decide (default ∅ (inbound_links sc !! page) = ∅)
       then {[page]} else ∅)
  ∧ (∀ p, default ∅ (inbound_links sc' !! p)
          = default ∅ (inbound_links sc !! p))
  ∧ internal_links sc' = internal_links sc.
Proof.
  cbn zeta. unfold identify_orphan_page. fields.
  rewrite dict_set_touch_default.
  case_bool_decide; fields; repeat split;
    try (intros p; apply dict_set_touch_default); set_solver.
Qed.

Lemma identify_orphan_pages_fold pages sc :
  let sc' := foldl identify_orphan_page sc pages in
  orphan_pages sc'
  = orphan_pages sc
    ∪ list_to_set
        (filter (λ p, default ∅ (inbound_links sc !! p) = ∅) pages)
  ∧ (∀ p, default ∅ (inbound_links sc' !! p)
          = default ∅ (inbound_links sc !! p))
  ∧ internal_links sc' = internal_links sc.
Proof.
  cbn zeta. revert sc. induction pages as [|page pages IH]; intros sc.
  - cbn [foldl]. rewrite filter_nil, list_to_set_nil. split; [set_solver|done].
  - cbn [foldl].
    destruct (identify_orphan_page_spec sc page) as (Ho & Hi & Hl).
    destruct (IH (identify_orphan_page sc page)) as (Ho' & Hi' & Hl').
    split; [|split].
    + rewrite Ho', Ho, filter_cons.
      assert (filter (λ p, default ∅
                (inbound_links (identify_orphan_page sc page) !! p) = ∅) pages
              = filter (λ p, default ∅ (inbound_links sc !! p) = ∅) pages)
        as ->.
      { apply list_filter_iff. intros p. by rewrite Hi. }
      case_bool_decide as Hempty.
      * rewrite decide_True by done. rewrite list_to_set_cons. set_solver.
      * rewrite decide_False by done. set_solver.
    + intros p. by rewrite Hi', Hi.
    + by rewrite Hl', Hl.
Qed.

(** X2.  One run of [identify_orphan_pages] adds to the orphans exactly the
    keys of [internal_links] whose inbound set is empty, and removes
    none. *)
Lemma identify_orphan_pages_adds sc :
  orphan_pages (identify_orphan_pages sc)
  = orphan_pages sc
    ∪ filter (λ p, default ∅ (inbound_links sc !! p) = ∅)
        (dom (internal_links sc)).
Proof.
  unfold identify_orphan_pages.
  destruct (identify_orphan_pages_fold
              (elements (dom (internal_links sc) : gset string)) sc)
    as (-> & _ & _).
  reflexivity.
Qed.

(** ** Depths *)

Global Instance depths_kept_preorder : PreOrder depths_kept.
Proof.
  split; [by intros m u d Hu|].
  intros m1 m2 m3 H1 H2 u d Hu. apply H2, H1, Hu.
Qed.

Lemma assign_depth_depths_kept u d : keeps depths_kept (assign_depth u d).
Proof.
  intros m. unfold assign_depth. mrun.
  case_bool_decide as Hnew; mrun; [|done].
  intros u' d' Hu'. fields.
  rewrite lookup_insert_ne; [done|]. congruence.
Qed.

Lemma when_false (c : M unit) : when false c = mret tt.
Proof. reflexivity. Qed.

Lemma run_analyze_internal_links w fuel url depth fresh :
  analyze_internal_links w (S fuel) url depth fresh
  = (when fresh
       (modify (set_visited_links ∅) ;;
        modify_self (λ sc, set_page_depths (<[url := 0]> (page_depths sc)) sc)) ;;
     visited ← gets visited_links;
     if bool_decide (url ∈ visited) then mret tt
     else
       modify (λ m, set_visited_links (visited_links m ∪ {[url]}) m) ;;
       parsed_url ← urlparse url;
       let domain := netloc parsed_url in
       try_except
         (content ← get_page_content w url;
          match content with
          | None => mret tt
          | Some soup =>
              for_each (find_all_a_href soup) (λ link,
                try_except
                  (match link with
                   | None => raise (ValueError "invalid link")
                   | Some absolute_url =>
                       parsed_link ← urlparse absolute_url;
                       if skipped_scheme parsed_link then mret tt
                       else
                         when (is_internal_link domain parsed_link)
                           (modify_self (λ sc,
                              set_internal_links
                                (dict_set_add url absolute_url
                                   (internal_links sc)) sc) ;;
                            modify_self (λ sc,
                              set_inbound_links
                                (dict_set_add absolute_url url
                                   (inbound_links sc)) sc) ;;
                            assign_depth absolute_url (depth + 1) ;;
                            visited ← gets visited_links;
                            when (bool_decide (absolute_url ∉ visited))
                              (analyze_internal_links w fuel absolute_url
                                 (depth + 1) false))
                   end)
                  [(CException, λ _, mret tt)])
          end)
         [(CException, λ _, mret tt)]).
Proof. reflexivity. Qed.

(** X3.  A recursive call of [analyze_internal_links] (one that is handed
    the visited set) assigns depths to new pages only: a depth that a page
    has keeps its value, however the call ends. *)
Lemma analyze_internal_links_depths_kept w fuel url depth :
  keeps depths_kept (analyze_internal_links w fuel url depth false).
Proof.
  revert url depth. induction fuel as [|fuel IH]; intros url depth;
    [by intros m u d Hu|].
  rewrite run_analyze_internal_links, when_false.
  unfold get_page_content, modify_self, urlparse.
  keeps_auto.
  all: try apply assign_depth_depths_kept.
  all: try apply IH.
  all: intros u d Hu; fields; exact Hu.
Qed.

(** Page A has a depth of 7 when the home page, which links to it, is
    analysed. *)
Lemma analyze_internal_links_depths_kept_witness :
  let m :=
    set_self (set_page_depths {[Site.page_a := 7]} SiteCrawler_init)
      Machine_init in
  page_depths
    (self (snd (analyze_internal_links Site.chain_of_pages 5 Site.home 0
                  false m))) !! Site.page_a = Some 7.
Proof.
  cbn zeta.
  apply (analyze_internal_links_depths_kept Site.chain_of_pages 5 Site.home 0).
  reflexivity.
Defined.

(** ** The crawl on concrete sites *)



(** C1 (the code at the failing input).  The home page links to page A.
    The link analysis that the crawl runs for the home page assigns depth 0
    to the home page and depth 1 to A, discovered from it.  The crawl then
    turns to A and runs the link analysis again with A as its root, which
    sets the depth of A to 0: when the crawl is over, A, whose only inbound
    link comes from the home page at depth 0, has depth 0 as well, and that
    is the depth its page info reports. *)
Theorem crawl_site_resets_depth_of_linked_page :
  let analysis :=
    analyze_internal_links Site.two_pages 4 Site.home 0 true Machine_init in
  let crawl := crawl_site Site.two_pages 5 Site.home 0 true Machine_init in
  let reported :=
    match fst crawl with
    | Returns (Some results) =>
        (λ linked, (res_analyzed_url linked,
                    plm_depth <$> (pi_linking_metrics
                                     <$> res_page_info linked)))
          <$> res_linked_pages results
    | _ => []
    end in
  page_depths (self (snd analysis)) !! Site.home = Some 0
  ∧ page_depths (self (snd analysis)) !! Site.page_a = Some 1
  ∧ page_depths (self (snd crawl)) !! Site.home = Some 0
  ∧ (elements <$> inbound_links (self (snd crawl)) !! Site.page_a)
    = Some [Site.home]
  ∧ page_depths (self (snd crawl)) !! Site.page_a = Some 0
  ∧ reported = [(Site.page_a, Some 0)].
Proof. vm_compute. done. Qed.

(** C2 (the code at the failing input).  The home page links to page A and
    A links back; the first fetch of A times out.  The orphans are
    identified once the home page is done, when nothing links to it yet,
    and again once A is done, when A does: the home page stays in the
    orphan set, with an inbound link recorded, and the results of both
    pages list it. *)
Theorem crawl_site_keeps_stale_orphan :
  let crawl := crawl_site Site.late_page 5 Site.home 0 true Machine_init in
  let sc := self (snd crawl) in
  let reported :=
    match fst crawl with
    | Returns (Some results) =>
        ((lm_orphan_pages ∘ snd) <$> res_technical_analysis results)
        :: ((λ linked, (lm_orphan_pages ∘ snd)
                         <$> res_technical_analysis linked)
              <$> res_linked_pages results)
    | _ => []
    end in
  elements (orphan_pages sc) = [Site.home]
  ∧ elements (dom (internal_links sc)) = [Site.page_a; Site.home]
  ∧ (elements <$> inbound_links sc !! Site.home) = Some [Site.page_a]
  ∧ reported = [Some [Site.home]; Some [Site.home]].
Proof. vm_compute. done. Qed.

(** On the chain, the sitemap of the domain is requested once for each of
    the two pages that [crawl_site] analyses. *)
Lemma sitemap_validated_for_each_analysed_page :
  count_event (GetSitemap "https://e.com/sitemap.xml")
    (net (snd (crawl_site Site.chain_of_pages 6 Site.home 0 true
                 Machine_init)))
  = 2%nat.
Proof. vm_compute. reflexivity. Qed.

(** ** Running [urlparse] *)

Lemma run_urlparse url m :
  urlparse url m
  = if invalid_netloc (urlparse_netloc url)
    then (Raises (ValueError "Invalid IPv6 URL"), m)
    else (Returns (url_parts url), m).
Proof. unfold urlparse. by destruct (invalid_netloc _). Qed.

Lemma urlparse_runs (P : Machine → Prop) url :
  runs_to P (urlparse url) (λ parsed, parsed = url_parts url).
Proof. intros m Hm. rewrite run_urlparse. by destruct (invalid_netloc _). Qed.

(** ** Probing: what is recorded for a response *)

(** What a probe that is answered does to the analyzer. *)
Lemma check_url_on_response w url is_internal m r :
  head_request w (count_event (Head url) (net m)) url = inr r →
  ∃ m1,
    check_url w url is_internal m = (Returns (Some r), m1)
    ∧ net m1 = net m ++ [Head url]
    ∧ sitemap_issues (technical_analyzer (self m1))
      = sitemap_issues (technical_analyzer (self m))
    ∧ broken_links (technical_analyzer (self m1))
      = (if 400 <=? status_code r
         then dict_list_append (inl (status_code r))
                (BrokenStatus url is_internal
                   (redirect_chains (technical_analyzer (self m1)) !! url))
                (broken_links (technical_analyzer (self m)))
         else broken_links (technical_analyzer (self m)))
    ∧ (history r = [] →
       redirect_chains (technical_analyzer (self m1))
       = redirect_chains (technical_analyzer (self m))).
Proof.
  intros Hr. unfold check_url, retry. rewrite run_retry_call.
  unfold check_url_attempt, session_head. mrun. rewrite Hr. mrun.
  destruct (0 <? length (history r))%nat eqn:Hh; mrun.
  - destruct (size (list_to_set (history r ++ [resp_url r]) : gset string)
              <? length (history r ++ [resp_url r]))%nat; mrun;
      destruct (400 <=? status_code r); mrun; fields;
      eexists; (split; [reflexivity|]); fields;
      repeat split; try done;
      try (intros Hnil; rewrite Hnil in Hh; discriminate Hh).
  - destruct (400 <=? status_code r); mrun; fields;
      eexists; (split; [reflexivity|]); fields; done.
Qed.

(** X4.  A HEAD request that is answered: [check_url] makes the one
    request and returns the response.  A status of 400 or more is recorded
    under the status in [broken_links], together with the redirect chain
    that [redirect_chains] holds for the URL at that moment; a lower status
    leaves [broken_links] alone.  A response without redirects leaves
    [redirect_chains] alone, so the chain recorded with a broken link may be
    the one of an earlier probe of the URL. *)
Theorem check_url_broken_status (w : World) (url : string)
    (is_internal : bool) (m : Machine) (r : Response) :
  head_request w (count_event (Head url) (net m)) url = inr r →
  let result := check_url w url is_internal m in
  let before := technical_analyzer (self m) in
  let after := technical_analyzer (self (snd result)) in
  fst result = Returns (Some r)
  ∧ net (snd result) = net m ++ [Head url]
  ∧ broken_links after
    = (if 400 <=? status_code r
       then dict_list_append (inl (status_code r))
              (BrokenStatus url is_internal (redirect_chains after !! url))
              (broken_links before)
       else broken_links before)
  ∧ (history r = [] → redirect_chains after = redirect_chains before).
Proof.
  intros Hr result before after. subst result after before.
  unfold check_url, retry. rewrite run_retry_call.
  unfold check_url_attempt, session_head. mrun. rewrite Hr. mrun.
  destruct (0 <? length (history r))%nat eqn:Hh; mrun.
  - destruct (size (list_to_set (history r ++ [resp_url r]) : gset string)
              <? length (history r ++ [resp_url r]))%nat; mrun;
      destruct (400 <=? status_code r); mrun; fields;
      repeat split; try done;
      try (intros Hnil; rewrite Hnil in Hh; discriminate Hh).
  - destruct (400 <=? status_code r); mrun; fields; done.
Qed.

(** A 404 without redirects. *)
Lemma check_url_broken_status_witness :
  let result :=
    check_url (Site.probing (λ _ url,
                 inr {| history := []; resp_url := url; status_code := 404 |}))
      Site.page_a false Machine_init in
  broken_links (technical_analyzer (self (snd result))) !! inl 404
  = Some [BrokenStatus Site.page_a false None].
Proof.
  destruct (check_url_broken_status
              (Site.probing (λ _ url,
                 inr {| history := []; resp_url := url; status_code := 404 |}))
              Site.page_a false Machine_init
              {| history := []; resp_url := Site.page_a; status_code := 404 |}
              eq_refl)
    as (_ & _ & Hbroken & Hchains).
  cbn zeta. rewrite Hbroken. cbn [status_code Z.leb Z.compare Pos.compare
    Pos.compare_cont]. rewrite (Hchains eq_refl). reflexivity.
Defined.

(** X5.  What the decorator retries is an exception that leaves the body
    of [check_url], one that is no [RequestException].  After such a
    failure of the first request the call sleeps 4 seconds and asks again:
    an answer to the second request is returned as if nothing had
    happened; two more such failures end, after another sleep of 4 seconds,
    in [RetryError] for the caller, with nothing recorded. *)
Theorem check_url_retry (w : World) (url : string) (is_internal : bool)
    (m : Machine) (e1 : exn) :
  let k := count_event (Head url) (net m) in
  head_request w k url = inl e1 →
  isinstance e1 CRequestException = false →
  (∀ r, head_request w (S k) url = inr r →
     fst (check_url w url is_internal m) = Returns (Some r)
     ∧ net (snd (check_url w url is_internal m))
       = net m ++ [Head url; Sleep 4; Head url])
  ∧ (∀ e2 e3,
       head_request w (S k) url = inl e2 →
       isinstance e2 CRequestException = false →
       head_request w (S (S k)) url = inl e3 →
       isinstance e3 CRequestException = false →
       check_url w url is_internal m
       = (Raises RetryError,
          set_net (net m ++ [Head url; Sleep 4; Head url; Sleep 4; Head url])
            m)).
Proof.
  intros k H1 Hc1.
  assert (∀ log, count_event (Head url) (log ++ [Head url])
                 = S (count_event (Head url) log)) as Hhead.
  { intros log. rewrite count_event_app, bool_decide_eq_true_2 by done. lia. }
  assert (∀ log s, count_event (Head url) (log ++ [Sleep s])
                   = count_event (Head url) log) as Hsleep.
  { intros log s. rewrite count_event_app, bool_decide_eq_false_2 by done.
    lia. }
  assert (check_url w url is_internal m
          = retry_call 2 2 (wait_exponential 1 4 10)
              (check_url_attempt w url is_internal)
              (set_net (net m ++ [Head url; Sleep 4]) m)) as Hfirst.
  { unfold check_url, retry. rewrite run_retry_call.
    unfold check_url_attempt at 1, session_head. mrun. fold k. rewrite H1.
    mrun. cbn [dispatch]. rewrite Hc1. mrun. fields.
    rewrite <- app_assoc. reflexivity. }
  split.
  - intros r H2. rewrite Hfirst, run_retry_call.
    unfold check_url_attempt, session_head. mrun. fields.
    rewrite (app_assoc _ [Head url] [Sleep 4]), Hsleep, Hhead. fold k.
    rewrite H2. mrun.
    destruct (0 <? length (history r))%nat; mrun;
      [destruct (size (list_to_set (history r ++ [resp_url r]) : gset string)
                 <? length (history r ++ [resp_url r]))%nat; mrun|];
      destruct (400 <=? status_code r); mrun; fields;
      rewrite <- !app_assoc; done.
  - intros e2 e3 H2 Hc2 H3 Hc3. rewrite Hfirst, run_retry_call.
    unfold check_url_attempt at 1, session_head. mrun. fields.
    rewrite (app_assoc _ [Head url] [Sleep 4]), Hsleep, Hhead. fold k.
    rewrite H2. mrun. cbn [dispatch]. rewrite Hc2. mrun. fields.
    rewrite run_retry_call.
    unfold check_url_attempt at 1, session_head. mrun. fields.
    rewrite !Hsleep, !Hhead, !Hsleep, !Hhead. fold k.
    rewrite H3. mrun. cbn [dispatch]. rewrite Hc3. fields.
    rewrite <- !app_assoc. reflexivity.
Qed.

(** Every request fails outside the requests library. *)
Lemma check_url_retry_witness :
  check_url Site.failing_head Site.page_a true Machine_init
  = (Raises RetryError,
     set_net [Head Site.page_a; Sleep 4; Head Site.page_a; Sleep 4;
              Head Site.page_a] Machine_init).
Proof.
  destruct (check_url_retry Site.failing_head Site.page_a true Machine_init
              (OtherException "label too long") eq_refl eq_refl)
    as [_ Hthree].
  exact (Hthree (OtherException "label too long")
           (OtherException "label too long") eq_refl eq_refl eq_refl eq_refl).
Defined.

(** ** Sitemap URLs: which statuses are reported *)

(** X6.  A [<url>] element with a [<loc>] (and neither [lastmod] nor
    [priority]) whose HEAD request is answered.  The statuses 200 and 301
    add no sitemap issue.  Neither does a status from 400 to 599: the test
    [if response and ...] reads the truth value of the response, which is
    false for these, so the URL is recorded in [broken_links] only.  Every
    other status adds the issue ["Invalid status ... for sitemap URL"]. *)
Theorem validate_url_element_status (w : World) (entry : UrlEntry)
    (u : string) (m : Machine) (r : Response) :
  ue_loc entry = Some (Some u) →
  ue_lastmod entry = None →
  ue_priority entry = None →
  head_request w (count_event (Head u) (net m)) u = inr r →
  let result := validate_url_element w entry m in
  let issues := sitemap_issues (technical_analyzer (self m)) in
  let issues' := sitemap_issues (technical_analyzer (self (snd result))) in
  fst result = Returns tt
  ∧ (status_code r = 200 ∨ status_code r = 301 → issues' = issues)
  ∧ (400 <= status_code r < 600 →
     issues' = issues
     ∧ is_Some (broken_links (technical_analyzer (self (snd result)))
                !! inl (status_code r)))
  ∧ (status_code r ≠ 200 → status_code r ≠ 301 →
     ¬ (400 <= status_code r < 600) →
     issues'
     = issues ++ ["Invalid status " +:+ pretty (status_code r)
                  +:+ " for sitemap URL: " +:+ u]).
Proof.
  intros Hloc Hlastmod Hpriority Hr. cbn zeta.
  unfold validate_url_element. rewrite Hloc, Hlastmod, Hpriority.
  unfold check_url_text, add_sitemap_issue. mrun.
  destruct (check_url_on_response w u true m r Hr)
    as (m1 & -> & _ & Hissues & Hbroken & _).
  mrun. unfold response_ok.
  destruct (decide (400 <= status_code r < 600)) as [Herr|Hok].
  - replace ((400 <=? status_code r) && (status_code r <? 600)) with true
      by (symmetry; apply andb_true_iff; lia).
    cbn [negb andb]. mrun. cbn [fst snd].
    split; [done|]. split; [intros; lia|]. split; [|intros; lia].
    intros _. split; [done|].
    rewrite Hbroken. replace (400 <=? status_code r) with true by lia.
    unfold dict_list_append. rewrite lookup_insert_eq. eauto.
  - replace ((400 <=? status_code r) && (status_code r <? 600)) with false
      by (symmetry; apply andb_false_iff; lia).
    cbn [negb andb].
    case_bool_decide as Hin; cbn [negb]; mrun; fields; cbn [fst snd].
    + split; [done|]. split; [done|]. split; [intros; lia|].
      intros H200 H301 _. set_solver.
    + split; [done|]. split; [|split; [intros; lia|]].
      * intros [H200|H301]; destruct Hin; rewrite ?H200, ?H301; set_solver.
      * intros _ _ _. by rewrite Hissues.
Qed.

(** A sitemap URL that answers 404. *)
Lemma validate_url_element_status_witness :
  let w := Site.probing (λ _ url,
             inr {| history := []; resp_url := url; status_code := 404 |}) in
  let result :=
    validate_url_element w
      {| ue_loc := Some (Some Site.page_a); ue_lastmod := None;
         ue_priority := None |} Machine_init in
  fst result = Returns tt
  ∧ sitemap_issues (technical_analyzer (self (snd result))) = [].
Proof.
  destruct (validate_url_element_status
              (Site.probing (λ _ url,
                 inr {| history := []; resp_url := url;
                        status_code := 404 |}))
              {| ue_loc := Some (Some Site.page_a); ue_lastmod := None;
                 ue_priority := None |}
              Site.page_a Machine_init
              {| history := []; resp_url := Site.page_a; status_code := 404 |}
              eq_refl eq_refl eq_refl eq_refl)
    as (Hret & _ & Herr & _).
  split; [exact Hret|]. apply Herr. cbn. lia.
Defined.

(** ** Sitemaps: what is not validated *)

Lemma run_validate_sitemap_parsed w fuel domain m response root :
  next_sitemap w domain m = inr response →
  sm_status_code response = 200 →
  sm_content response = Parsed root →
  validate_sitemap w (S fuel) domain true m
  = try_except
      (try_except
         (if contains "sitemapindex" (root_tag root) then
            locs ← findall_ns root (all_locs root);
            for_each locs (λ sitemap,
              sitemap_domain ← urlparse_text sitemap;
              visited ← gets visited_sitemaps;
              when (nonempty sitemap_domain
                    && bool_decide (sitemap_domain ∉ visited))
                (validate_sitemap w fuel sitemap_domain false))
          else
            urls ← findall_ns root (url_elements root);
            for_each urls (validate_url_element w))
         [(CParseError, λ e,
            add_sitemap_issue ("Invalid XML in sitemap: " +:+ str_exn e))])
      [(CRequestException, λ e,
         add_sitemap_issue ("Error fetching sitemap: " +:+ str_exn e));
       (CException, λ e,
         add_sitemap_issue
           ("Unexpected error processing sitemap: " +:+ str_exn e))]
      (set_net (net m ++ [GetSitemap (sitemap_url_of domain)])
         (set_visited_sitemaps {[sitemap_url_of domain]} m)).
Proof.
  unfold next_sitemap. intros Hnext Hstatus Hroot.
  rewrite validate_sitemap_fresh, run_validate_sitemap. mrun0. fields.
  rewrite bool_decide_eq_false_2 by set_solver. mrun0.
  rewrite run_try_session_get. cbn zeta. fields. rewrite Hnext.
  rewrite Hstatus, Hroot. cbn [Z.eqb Pos.eqb negb].
  rewrite union_empty_l_L. reflexivity.
Qed.



(** X8.  A [<url>] element with an empty [<lastmod/>] raises an exception
    that is no [ValueError]: the validation of the sitemap stops at this
    element with an unexpected-error issue, and the elements after it are
    not checked (no request is made for them, nothing joins
    [broken_links]). *)
Theorem validate_sitemap_stops_at_empty_lastmod (w : World) (fuel : nat)
    (domain : string) (m : Machine) (response : SitemapResponse)
    (root : XmlRoot) (entry : UrlEntry) (rest : list UrlEntry) :
  next_sitemap w domain m = inr response →
  sm_status_code response = 200 →
  sm_content response = Parsed root →
  contains "}" (root_tag root) = true →
  contains "sitemapindex" (root_tag root) = false →
  url_elements root = entry :: rest →
  ue_loc entry = None →
  ue_lastmod entry = Some None →
  let result := validate_sitemap w (S fuel) domain true m in
  fst result = Returns tt
  ∧ net (snd result) = net m ++ [GetSitemap (sitemap_url_of domain)]
  ∧ sitemap_issues (technical_analyzer (self (snd result)))
    = sitemap_issues (technical_analyzer (self m))
      ++ ["Unexpected error processing sitemap: "
          +:+ "'NoneType' object has no attribute 'replace'"]
  ∧ broken_links (technical_analyzer (self (snd result)))
    = broken_links (technical_analyzer (self m)).
Proof.
  intros Hnext Hstatus Hroot Hns Hleaf Hentries Hloc Hempty. cbn zeta.
  rewrite (run_validate_sitemap_parsed w _ domain m response root) by done.
  rewrite Hleaf. unfold findall_ns. rewrite Hns, Hentries.
  set (m1 := set_net _ _).
  assert (validate_url_element w entry m1
          = (Raises (AttributeError
                       "'NoneType' object has no attribute 'replace'"), m1))
    as Hentry.
  { unfold validate_url_element. rewrite Hloc, Hempty. mrun.
    cbn [dispatch isinstance]. mrun. done. }
  rewrite !run_try_except. mrun0. cbn [for_each]. rewrite run_bind, Hentry.
  unfold add_sitemap_issue. cbn [dispatch isinstance str_exn]. mrun.
  subst m1. fields. done.
Qed.

(** The element after the empty [<lastmod/>] has a [<loc>], which is not requested. *)
Lemma validate_sitemap_stops_at_empty_lastmod_witness :
  let entries :=
    [{| ue_loc := None; ue_lastmod := Some None; ue_priority := None |};
     {| ue_loc := Some (Some "https://a.com/broken"); ue_lastmod := None;
        ue_priority := None |}] in
  let root :=
    {| root_tag := "{http://www.sitemaps.org/schemas/sitemap/0.9}urlset";
       all_locs := [Some "https://a.com/broken"];
       url_elements := entries |} in
  let w :=
    Site.mapping (λ _ _,
      inr {| sm_status_code := 200; sm_content := Parsed root |}) in
  let result := validate_sitemap w 1 "a.com" true Machine_init in
  fst result = Returns tt
  ∧ net (snd result) = [GetSitemap "https://a.com/sitemap.xml"].
Proof.
  cbn zeta.
  match goal with
  | |- context [validate_sitemap ?w 1 "a.com" true Machine_init] =>
      match w with
      | context [Parsed ?root] =>
          destruct (validate_sitemap_stops_at_empty_lastmod w 0 "a.com"
                      Machine_init
                      {| sm_status_code := 200; sm_content := Parsed root |}
                      root
                      {| ue_loc := None; ue_lastmod := Some None;
                         ue_priority := None |}
                      [{| ue_loc := Some (Some "https://a.com/broken");
                          ue_lastmod := None; ue_priority := None |}])
            as (Hret & Hnet & _); try reflexivity
      end
  end.
  split; [exact Hret|exact Hnet].
Defined.

(** ** robots.txt is fetched once *)

(** X9.  The first call of [get_robots_txt] makes one request, for
    [<domain>/robots.txt], and stores the text of a 200 answer (the empty
    string otherwise).  Every later call, for whatever domain, makes no
    request and changes nothing. *)
Theorem get_robots_txt_cached (w : World) (first later : string)
    (m : Machine) :
  let m1 := snd (get_robots_txt w first m) in
  robots_txt_content (self m) = None →
  net m1 = net m ++ [GetRobots (first +:+ "/robots.txt")]
  ∧ robots_txt_content (self m1)
    = Some (default "" (robots_request w (first +:+ "/robots.txt")))
  ∧ get_robots_txt w later m1 = (Returns tt, m1).
Proof.
  intros m1 Hnone. subst m1. unfold get_robots_txt. mrun. rewrite Hnone.
  mrun. fields. done.
Qed.

(** The second call is for another domain. *)
Lemma get_robots_txt_cached_witness :
  let m1 := snd (get_robots_txt Site.two_pages "https://e.com" Machine_init) in
  get_robots_txt Site.two_pages "https://other.org" m1 = (Returns tt, m1).
Proof.
  destruct (get_robots_txt_cached Site.two_pages "https://e.com"
              "https://other.org" Machine_init eq_refl) as (_ & _ & Hlater).
  exact Hlater.
Defined.

(** ** Missing elements *)

Global Instance same_missing_elements_preorder :
  PreOrder same_missing_elements.
Proof.
  split; [by intros m k Hk|].
  intros m1 m2 m3 H1 H2 k Hk. by rewrite H2, H1.
Qed.

Lemma issue_count_incr k k' m :
  issue_count k'
    (set_self (set_crawl_issues (counter_incr k (crawl_issues (self m)))
                 (self m)) m)
  = issue_count k' m + (if bool_decide (k = k') then 1 else 0).
Proof.
  unfold issue_count. fields. case_bool_decide as Hk.
  - subst k'. by rewrite counter_incr_lookup.
  - rewrite counter_incr_lookup_ne by done. lia.
Qed.

Lemma track_duplicate_same_missing {K} `{Countable K}
    (tracking : SiteCrawler → gmap K (list string)) set_tracking issue
    (value : K) url :
  (∀ v sc, crawl_issues (set_tracking v sc) = crawl_issues sc) →
  issue ∈ ["duplicate_titles"; "duplicate_meta_descriptions";
           "duplicate_content"] →
  keeps same_missing_elements
    (track_duplicate tracking set_tracking issue value url).
Proof.
  intros Hset Hissue m k Hk. unfold track_duplicate, crawl_issue. mrun.
  destruct (tracking (self m) !! value); mrun; cbn [snd]; unfold issue_count;
    fields; rewrite Hset; fields; [|done].
  rewrite counter_incr_lookup_ne; [done|].
  intros ->. set_solver.
Qed.

Lemma extract_images_count imgs m :
  ∃ m',
    for_each imgs (λ img : string * string,
      when (negb (nonempty (snd img)))
        (crawl_issue "images_missing_alt_text")) m = (Returns tt, m')
    ∧ ∀ k, issue_count k m'
           = issue_count k m
             + (if bool_decide ("images_missing_alt_text" = k)
                then Z.of_nat (length (filter (λ img, snd img = "") imgs))
                else 0).
Proof.
  set (body := λ img : string * string,
         when (negb (nonempty (snd img)))
           (crawl_issue "images_missing_alt_text")).
  revert m. induction imgs as [|[src alt] imgs IH]; intros m.
  - exists m. split; [done|]. intros k. rewrite filter_nil. cbn [length].
    case_bool_decide; lia.
  - cbn [for_each]. rewrite filter_cons, run_bind. cbn [snd].
    unfold body at 1. cbn [snd].
    destruct alt as [|a alt]; cbn [nonempty negb]; unfold crawl_issue;
      rewrite ?run_when_true, ?run_when_false, ?run_modify_self;
      cbn beta iota.
    + destruct (IH (set_self
                      (set_crawl_issues
                         (counter_incr "images_missing_alt_text"
                            (crawl_issues (self m))) (self m)) m))
        as (m' & -> & Hcount).
      exists m'. split; [done|]. intros k.
      rewrite Hcount, issue_count_incr, decide_True by done. cbn [length].
      case_bool_decide; lia.
    + destruct (IH m) as (m' & -> & Hcount).
      exists m'. split; [done|]. intros k.
      rewrite Hcount, decide_False by done. done.
Qed.

(** X10.  When [extract_metadata] returns, the counters of the missing
    elements have grown by what the page lacks: 1 for a page without
    [title] element, 1 for a page without (or with an empty) meta
    description, 1 for a page without [h1], and 1 for every image whose
    [alt] is missing or empty.  The metadata list every image. *)
Theorem extract_metadata_missing_elements (soup : Soup) (url : string)
    (m m' : Machine) (metadata : Metadata) :
  extract_metadata soup url m = (Returns metadata, m') →
  issue_count "urls_missing_title_tag" m'
  = issue_count "urls_missing_title_tag" m
    + (if find_title soup is None then 1 else 0)
  ∧ issue_count "urls_missing_meta_description" m'
    = issue_count "urls_missing_meta_description" m
      + match find_meta_description soup with
        | Some (Some content) => if nonempty content then 0 else 1
        | _ => 1
        end
  ∧ issue_count "urls_missing_h1" m'
    = issue_count "urls_missing_h1" m
      + (if bool_decide (default [] (find_all_h soup !! 0%nat) = [])
         then 1 else 0)
  ∧ issue_count "images_missing_alt_text" m'
    = issue_count "images_missing_alt_text" m
      + Z.of_nat (length (filter (λ img, snd img = "") (find_all_img soup)))
  ∧ md_images metadata = find_all_img soup.
Proof.
  unfold extract_metadata. rewrite run_bind.
  pose proof (analyze_structured_data_same_titles soup url m) as [_ Hc1].
  destruct (analyze_structured_data soup url m) as [[structured| |] m1];
    [|discriminate..].
  cbn [snd] in Hc1. rewrite run_bind.
  assert (∀ k, issue_count k m1 = issue_count k m) as H1
    by (intros k; unfold issue_count; by rewrite Hc1).
  clear Hc1.
  (* the title *)
  assert (∃ o m2, extract_title soup url m1 = (o, m2)
            ∧ ∀ k, k ∈ ["urls_missing_title_tag";
                        "urls_missing_meta_description";
                        "urls_missing_h1"; "images_missing_alt_text"] →
                issue_count k m2
                = issue_count k m1
                  + (if bool_decide ("urls_missing_title_tag" = k)
                     then if find_title soup is None then 1 else 0
                     else 0)) as (o2 & m2 & -> & H2).
  { unfold extract_title. destruct (find_title soup) as [[text|]|].
    - pose proof (track_duplicate_same_missing title_tracking
                    set_title_tracking "duplicate_titles" (strip text) url
                    (λ _ _, eq_refl)) as Hsame.
      rewrite run_bind.
      specialize (Hsame ltac:(set_solver) m1).
      destruct (track_duplicate _ _ _ _ _ m1) as [[[]| |] m2];
        cbn [snd] in Hsame; mrun;
        eexists _, _; (split; [reflexivity|]); intros k Hk;
        rewrite (Hsame k Hk); case_bool_decide; lia.
    - mrun. eexists _, _. split; [reflexivity|]. intros k _.
      case_bool_decide; lia.
    - unfold crawl_issue. mrun. eexists _, _. split; [reflexivity|].
      intros k _. apply issue_count_incr. }
  destruct o2 as [title| |]; [|discriminate..]. rewrite run_bind.
  (* the description *)
  assert (∃ o m3, extract_meta_description soup url m2 = (o, m3)
            ∧ ∀ k, k ∈ ["urls_missing_title_tag";
                        "urls_missing_meta_description";
                        "urls_missing_h1"; "images_missing_alt_text"] →
                issue_count k m3
                = issue_count k m2
                  + (if bool_decide ("urls_missing_meta_description" = k)
                     then match find_meta_description soup with
                          | Some (Some content) =>
                              if nonempty content then 0 else 1
                          | _ => 1
                          end
                     else 0)) as (o3 & m3 & -> & H3).
  { unfold extract_meta_description.
    assert (∃ o m3,
              (crawl_issue "urls_missing_meta_description" ;; mret "") m2
              = (o, m3)
              ∧ ∀ k, issue_count k m3
                     = issue_count k m2
                       + (if bool_decide
                               ("urls_missing_meta_description" = k)
                          then 1 else 0)) as Hmissing.
    { unfold crawl_issue. mrun. eexists _, _. split; [reflexivity|].
      intros k. apply issue_count_incr. }
    destruct (find_meta_description soup) as [[content|]|];
      [|destruct Hmissing as (o & m3 & -> & Hk); eauto..].
    destruct (nonempty content);
      [|destruct Hmissing as (o & m3 & -> & Hk); eauto].
    pose proof (track_duplicate_same_missing meta_desc_tracking
                  set_meta_desc_tracking "duplicate_meta_descriptions"
                  (strip content) url (λ _ _, eq_refl)) as Hsame.
    rewrite run_bind.
    specialize (Hsame ltac:(set_solver) m2).
    destruct (track_duplicate _ _ _ _ _ m2) as [[[]| |] m3];
      cbn [snd] in Hsame; mrun;
      eexists _, _; (split; [reflexivity|]); intros k Hk;
      rewrite (Hsame k Hk); case_bool_decide; lia. }
  destruct o3 as [desc| |]; [|discriminate..]. rewrite run_bind.
  (* the headings and the images *)
  unfold extract_headings_and_images at 1. rewrite run_bind.
  assert (∃ m4,
            when (bool_decide (default [] (find_all_h soup !! 0%nat) = []))
              (crawl_issue "urls_missing_h1") m3 = (Returns tt, m4)
            ∧ ∀ k, issue_count k m4
                   = issue_count k m3
                     + (if bool_decide ("urls_missing_h1" = k)
                        then if bool_decide
                                  (default [] (find_all_h soup !! 0%nat) = [])
                             then 1 else 0
                        else 0)) as (m4 & Hrun4 & H4).
  { destruct (bool_decide (default [] (find_all_h soup !! 0%nat) = []));
      unfold crawl_issue; mrun.
    - eexists. split; [reflexivity|]. intros k. apply issue_count_incr.
    - eexists. split; [reflexivity|]. intros k. case_bool_decide; lia. }
  rewrite ?run_bind, Hrun4.
  destruct (extract_images_count (find_all_img soup) m4)
    as (m5 & -> & H5).
  rewrite ?run_bind.
  (* the content *)
  assert (same_missing_elements m5 (snd (extract_content soup url m5)))
    as H6.
  { unfold extract_content. destruct (find_main_content soup) as [main|];
      [|done].
    rewrite run_bind.
    pose proof (track_duplicate_same_missing content_tracking
                  set_content_tracking "duplicate_content"
                  (content_hash main) url (λ _ _, eq_refl)) as Hsame.
    specialize (Hsame ltac:(set_solver) m5).
    destruct (track_duplicate _ _ _ _ _ m5) as [[[]| |] m6]; done. }
  destruct (extract_content soup url m5) as [[grade| |] m6];
    [|discriminate..].
  cbn [snd] in H6. mrun. intros [= <- <-]. cbn [md_images].
  repeat split.
  all: rewrite H6, H5, H4, H3, H2, H1 by set_solver.
  all: repeat (case_bool_decide; try done); lia.
Qed.

(** A page without title, with an empty description, without [h1], and with two of three images without [alt]. *)
Lemma extract_metadata_missing_elements_witness :
  let soup :=
    {| find_title := None; find_meta_description := Some (Some "");
       find_meta_robots := None; find_link_canonical := None;
       find_all_h := [[]; ["Prices"]];
       find_all_img := [("a.png", "A"); ("b.png", ""); ("c.png", "")];
       find_main_content := None; find_all_json_ld := [];
       find_all_itemtype := []; find_all_vocab := [];
       find_all_a_href := [] |} in
  let m' := snd (extract_metadata soup Site.page_a Machine_init) in
  issue_count "urls_missing_title_tag" m' = 1
  ∧ issue_count "urls_missing_meta_description" m' = 1
  ∧ issue_count "urls_missing_h1" m' = 1
  ∧ issue_count "images_missing_alt_text" m' = 2.
Proof.
  cbn zeta.
  match goal with
  | |- context [extract_metadata ?soup ?url ?m] =>
      destruct (extract_metadata soup url m) as [o m'] eqn:Hrun;
      assert (∃ metadata, o = Returns metadata) as [metadata ->]
        by (apply (f_equal fst) in Hrun; vm_compute in Hrun;
            rewrite <- Hrun; eauto);
      destruct (extract_metadata_missing_elements soup url m m' metadata
                  Hrun) as (Htitle & Hdesc & Hh1 & Himg & _)
  end.
  cbn [snd]. rewrite Htitle, Hdesc, Hh1, Himg. repeat split.
Defined.

(** ** Indexability: the verdicts *)

Global Instance same_crawl_issues_preorder : PreOrder same_crawl_issues.
Proof. split; [done|]. intros m1 m2 m3 H1 H2. unfold same_crawl_issues in *. congruence. Qed.

Lemma check_canonical_same_crawl_issues soup url :
  keeps same_crawl_issues (check_canonical soup url).
Proof.
  unfold check_canonical, canonical_issue, urlparse, modify_self.
  keeps_auto. all: done.
Qed.

Lemma check_meta_robots_verdict soup m :
  ∃ value m',
    check_meta_robots soup m
    = (Returns (value, if asks_noindex soup
                       then Some "meta_robots_noindex" else None), m')
    ∧ canonical_issues (self m') = canonical_issues (self m)
    ∧ crawl_issues (self m')
      = (if asks_noindex soup
         then counter_incr "non_indexable_urls" (crawl_issues (self m))
         else crawl_issues (self m)).
Proof.
  unfold check_meta_robots, crawl_issue, asks_noindex.
  destruct (find_meta_robots soup) as [[content|]|]; [|mrun; eauto..].
  destruct content as [|a content]; [mrun; eauto|].
  cbn [nonempty].
  destruct (contains "noindex" (lower (String a content))); mrun; fields;
    eauto.
Qed.



(** X12.  A page without canonical link, or with an empty one: the page
    is its own canonical URL, counted as self-referencing, with the one
    issue ["missing_canonical"], whose counter grows by 1. *)
Theorem check_indexability_missing_canonical (soup : Soup) (url : string)
    (m : Machine) :
  (∀ href, find_link_canonical soup = Some (Some href) → href = "") →
  let result := check_indexability soup url m in
  ∃ ix,
    fst result = Returns ix
    ∧ ix_canonical ix = url
    ∧ ix_canonical_self_referencing ix = true
    ∧ ix_canonical_issues ix = ["missing_canonical"]
    ∧ canonical_issues (self (snd result))
      = counter_incr "missing_canonical" (canonical_issues (self m)).
Proof.
  intros Hmissing. cbn zeta. unfold check_indexability. mrun.
  destruct (check_meta_robots_verdict soup m)
    as (value & m1 & -> & Hcanonical & _).
  mrun. unfold check_canonical, canonical_issue.
  destruct (find_link_canonical soup) as [[href|]|] eqn:Hlink;
    [rewrite (Hmissing href eq_refl); cbn [nonempty]|..];
    mrun; fields; rewrite Hcanonical; eauto 10.
Qed.

(** A page with a title only. *)
Lemma check_indexability_missing_canonical_witness :
  ∃ ix,
    fst (check_indexability (Site.page "A" []) Site.page_a Machine_init)
    = Returns ix
    ∧ ix_canonical_issues ix = ["missing_canonical"].
Proof.
  destruct (check_indexability_missing_canonical (Site.page "A" [])
              Site.page_a Machine_init) as (ix & Hrun & _ & _ & Hissues & _).
  - intros href Hlink. discriminate Hlink.
  - exists ix. split; [exact Hrun|exact Hissues].
Defined.



(** ** The link graph *)

Global Instance mirror_kept_preorder : PreOrder mirror_kept.
Proof.
  split; [by intros m Hm|].
  intros m1 m2 m3 H1 H2 Hm. apply H2, H1, Hm.
Qed.

Lemma dict_set_add_elem k x (d : gmap string (gset string)) u v :
  v ∈ default ∅ (dict_set_add k x d !! u)
  ↔ v ∈ default ∅ (d !! u) ∨ (u = k ∧ v = x).
Proof.
  unfold dict_set_add. destruct (decide (k = u)) as [->|Hne].
  - rewrite lookup_insert_eq. cbn [default]. set_solver.
  - rewrite lookup_insert_ne by done. set_solver.
Qed.

Lemma keeps_modify_self R f :
  (∀ m, R m (set_self (f (self m)) m)) → keeps R (modify_self f).
Proof. intros Hf m. apply Hf. Qed.

Lemma keeps_modify_self_twice {A} R `{!PreOrder R} f g (k : M A) :
  (∀ m, R m (set_self (g (f (self m))) m)) → keeps R k →
  keeps R (modify_self f ;; modify_self g ;; k).
Proof.
  intros Hfg Hk m. mrun. fields.
  etrans; [apply (Hfg m)|]. 
  specialize (Hk (set_self (g (f (self m))) m)).
  destruct m. exact Hk.
Qed.

Ltac mirror_step :=
  first
    [ apply keeps_modify_self_twice; [exact _| |]
    | apply keeps_modify_self; intros ?; fields
    | keeps_step ].

(** X14.  Whatever [analyze_internal_links] records, it records in both
    maps: if the inbound links were the outbound links read backwards
    before the call, they are so after it, however the call ends. *)
Theorem analyze_internal_links_mirrored (w : World) (fuel : nat)
    (url : string) (depth : Z) (fresh : bool) (m : Machine) :
  links_mirrored (self m) →
  links_mirrored (self (snd (analyze_internal_links w fuel url depth fresh m))).
Proof.
  revert m. change (keeps mirror_kept (analyze_internal_links w fuel url depth fresh)).
  revert url depth fresh.
  induction fuel as [|fuel IH]; intros url depth fresh;
    [apply keeps_diverge; exact _|].
  rewrite run_analyze_internal_links.
  unfold get_page_content, urlparse, assign_depth.
  repeat mirror_step.
  all: try apply IH.
  all: try (intros Hm; exact Hm).
  intros m Hm u v. fields. rewrite !dict_set_add_elem, (Hm u v). tauto.
Qed.

(** From the empty maps. *)
Lemma analyze_internal_links_mirrored_witness :
  links_mirrored
    (self (snd (analyze_internal_links Site.late_page 5 Site.home 0 true
                  Machine_init))).
Proof.
  apply analyze_internal_links_mirrored.
  intros u v. cbn. rewrite !lookup_empty. done.
Defined.

(** ** The link analysis ends *)

Global Instance pages_fetched_once_preorder : PreOrder pages_fetched_once.
Proof.
  split.
  - intros m. split; [done|]. intros u. split; [lia|done].
  - intros m0 m1 m2 [HV1 H1] [HV2 H2]. split; [by etrans|].
    intros u. destruct (H1 u) as [Hle1 Hne1], (H2 u) as [Hle2 Hne2].
    destruct (decide (count_event (GetPage u) (net m1)
                      = count_event (GetPage u) (net m0))) as [Heq|Hne].
    + rewrite <- Heq. split; [done|]. intros Hc.
      destruct (Hne2 Hc) as [? ?]. split; [done|]. set_solver.
    + destruct (Hne1 Hne) as [Hin Hnin].
      destruct (decide (count_event (GetPage u) (net m2)
                        = count_event (GetPage u) (net m1))) as [Heq|Hne'].
      * rewrite Heq. split; [done|]. intros _. split; [|done]. set_solver.
      * destruct (Hne2 Hne') as [_ Hn]. done.
Qed.

Lemma pages_fetched_once_same m m' :
  visited_links m' = visited_links m →
  net m' = net m →
  pages_fetched_once m m'.
Proof.
  intros HV Hnet. split; [by rewrite HV|]. intros u. rewrite Hnet.
  split; [lia|done].
Qed.

Lemma get_page_content_runs w (P : Machine → Prop) url :
  (∀ m e, P m → P (set_net (net m ++ [e]) m)) →
  runs_to P (get_page_content w url)
    (λ content, ∃ k, content = page_source w k url).
Proof.
  intros HP m Hm. unfold get_page_content. mrun.
  split; [eauto|by apply HP].
Qed.

Lemma unvisited_lt (D V V' : gset string) u :
  u ∈ D → u ∉ V → V ∪ {[u]} ⊆ V' → (size (D ∖ V') < size (D ∖ V))%nat.
Proof.
  intros Hu Hn HV. apply subset_size. split; [set_solver|].
  intros Hsub. specialize (Hsub u). set_solver.
Qed.

Lemma analyze_internal_links_enough_fuel w D :
  links_within w D →
  ∀ fuel u depth m,
    u ∈ D → (size (D ∖ visited_links m) < fuel)%nat →
    fst (analyze_internal_links w fuel u depth false m) ≠ Diverges
    ∧ visited_links m
      ⊆ visited_links (snd (analyze_internal_links w fuel u depth false m)).
Proof.
  intros Hlinks. induction fuel as [|fuel IH]; intros u depth m Hu Hfuel;
    [lia|].
  rewrite run_analyze_internal_links, when_false. mrun0.
  case_bool_decide as Hvis; mrun0; [done|].
  set (V1 := visited_links m ∪ {[u]}).
  rewrite run_urlparse. destruct (invalid_netloc (urlparse_netloc u));
    mrun0; cbn zeta; [fields; split; [done|set_solver]|].
  match goal with
  | |- context [try_except ?body ?hs ?m1] =>
      assert (runs_from (λ m, V1 ⊆ visited_links m) (try_except body hs))
        as Hruns;
      [|destruct (runs_from_spec _ _ m1 Hruns) as [Hdiv Hsub]; [done|]]
  end.
  2:{ split; [exact Hdiv|]. etrans; [|exact Hsub]. subst V1. set_solver. }
  apply runs_try_except; [|each_handler; runs_auto; done].
  eapply runs_bind; [by apply get_page_content_runs|].
  intros content [k ->].
  destruct (page_source w k u) as [soup|] eqn:Hsoup; [|apply runs_ret].
  apply runs_for_each. intros link Hlink.
  apply runs_try_except; [|each_handler; runs_auto; done].
  destruct link as [a|]; [|apply runs_raise].
  assert (a ∈ D) as Ha by (eapply Hlinks; eauto).
  unfold urlparse, assign_depth, modify_self.
  runs_auto. all: try done.
  intros m' Hm'.
  destruct (IH a (depth + 1) m' Ha) as [Hdiv Hsub].
  { pose proof (unvisited_lt D (visited_links m) (visited_links m') u
                  Hu Hvis Hm'). lia. }
  destruct (analyze_internal_links w fuel a (depth + 1) false m')
    as [[[]|e|] m''] eqn:Hrun; cbn [fst snd] in *.
  - split; [done|]. by etrans.
  - by etrans.
  - done.
Qed.

Lemma run_try_get_page_content {A} w url (k : option Soup → M A) hs m :
  try_except (get_page_content w url ≫= k) hs m
  = try_except
      (k (page_source w (count_event (GetPage url) (net m)) url)) hs
      (set_net (net m ++ [GetPage url]) m).
Proof. rewrite !run_try_except. unfold get_page_content. mrun. reflexivity. Qed.

Lemma analyze_internal_links_fetched_once w fuel url depth :
  keeps pages_fetched_once (analyze_internal_links w fuel url depth false).
Proof.
  revert url depth. induction fuel as [|fuel IH]; intros url depth m; [done|].
  rewrite run_analyze_internal_links, when_false. mrun0.
  case_bool_decide as Hvis; mrun0; [done|].
  rewrite run_urlparse. destruct (invalid_netloc (urlparse_netloc url));
    mrun0; cbn zeta.
  { cbn [snd]. split; fields; [set_solver|]. intros u. split; [lia|done]. }
  rewrite run_try_get_page_content.
  match goal with
  | |- context [page_source w ?k url] =>
      generalize (page_source w k url); intros content
  end.
  match goal with
  | |- context [set_net ?l ?m1] =>
      set (m2 := set_net l m1);
      assert (pages_fetched_once m m2) as Hstep
  end.
  { subst m2. split; fields; [set_solver|]. intros u.
    rewrite count_event_app. case_bool_decide; simplify_eq.
    - split; [lia|]. intros _. set_solver.
    - split; [lia|]. lia. }
  etrans; [exact Hstep|]. clear Hstep. generalize m2. clear m2 m Hvis.
  match goal with |- ∀ m2, pages_fetched_once m2 (snd (?c m2)) =>
    change (keeps pages_fetched_once c) end.
  unfold urlparse, assign_depth, modify_self.
  keeps_auto.
  all: try apply IH.
  all: by apply pages_fetched_once_same.
Qed.

Lemma analyze_internal_links_no_exception w fuel url depth fresh m e :
  invalid_netloc (urlparse_netloc url) = false →
  fst (analyze_internal_links w fuel url depth fresh m) ≠ Raises e.
Proof.
  intros Hvalid. destruct fuel as [|fuel]; [done|].
  rewrite run_analyze_internal_links.
  destruct fresh; mrun0.
  all: case_bool_decide; mrun0; [done|].
  all: rewrite run_urlparse, Hvalid; mrun0; cbn zeta.
  all: rewrite run_try_except.
  all: match goal with
       | |- context [match ?x with _ => _ end] =>
           destruct x as [[[]|e'|] m1]
       end; [done| |done].
  all: cbn [dispatch isinstance]; mrun; done.
Qed.

Lemma analyze_internal_links_fresh w fuel url depth m :
  analyze_internal_links w (S fuel) url depth true m
  = analyze_internal_links w (S fuel) url depth false
      (set_self (set_page_depths (<[url := 0]> (page_depths (self m)))
                   (self m))
         (set_visited_links ∅ m)).
Proof. rewrite !run_analyze_internal_links. mrun0. reflexivity. Qed.

Lemma links_within_union w D D' :
  links_within w D → links_within w (D ∪ D').
Proof. intros Hlinks k url soup link Hsoup Hlink. set_solver. Qed.

Lemma analyze_internal_links_halts w D fuel url depth :
  links_within w D → (size D + 1 < fuel)%nat →
  halts (analyze_internal_links w fuel url depth true).
Proof.
  intros Hlinks Hfuel m _. destruct fuel as [|fuel]; [lia|].
  rewrite analyze_internal_links_fresh.
  match goal with
  | |- context [analyze_internal_links _ _ _ _ _ ?m1] =>
      destruct (analyze_internal_links_enough_fuel w (D ∪ {[url]})
                  (links_within_union w D {[url]} Hlinks)
                  (S fuel) url depth m1) as [Hdiv _]
  end.
  { set_solver. }
  { fields. rewrite difference_empty_L.
    pose proof (size_union_alt D {[url]}) as Hsize.
    pose proof (subseteq_size ({[url]} ∖ D) {[url]}) as Hle.
    rewrite size_singleton in Hle.
    assert (size ({[url]} ∖ D) ≤ 1)%nat by (apply Hle; set_solver).
    lia. }
  destruct (analyze_internal_links w (S fuel) url depth false _)
    as [[[]|e|] m']; done.
Qed.


Lemma late_page_links_within :
  links_within Site.late_page {[Site.home; Site.page_a]}.
Proof.
  intros k url soup link Hsoup Hlink.
  unfold Site.late_page, Site.serving in Hsoup. cbn [page_source] in Hsoup.
  repeat case_match; simplify_eq; unfold Site.page in Hlink;
    cbn [find_all_a_href fmap list_fmap] in Hlink;
    apply list_elem_of_singleton in Hlink; simplify_eq; set_solver.
Qed.


(** ** Linking metrics *)

Lemma identify_orphan_pages_page_depths sc :
  page_depths (identify_orphan_pages sc) = page_depths sc.
Proof.
  unfold identify_orphan_pages.
  generalize (elements (dom (internal_links sc) : gset string)). intros pages.
  revert sc. induction pages as [|page pages IH]; intros sc; [done|].
  cbn [foldl]. rewrite IH. unfold identify_orphan_page.
  case_bool_decide; reflexivity.
Qed.

Lemma depth_distribution_fold (depths : gmap string Z) (pages : list string)
    (d n : Z) :
  foldl (λ (dist : gmap Z Z) url,
           let depth := default (-1) (depths !! url) in
           if 0 <=? depth then <[depth := default 0 (dist !! depth) + 1]> dist
           else dist) ∅ pages !! d = Some n
  ↔ 0 ≤ d ∧ 0 < n ∧ n = Z.of_nat (length (pages_at depths d pages)).
Proof.
  revert n. induction pages as [|page pages IH] using rev_ind; intros n.
  - cbn [foldl]. rewrite lookup_empty. unfold pages_at.
    rewrite filter_nil. cbn [length]. split; [done|lia].
  - rewrite foldl_snoc. cbn zeta. unfold pages_at in *.
    rewrite filter_app, length_app, filter_cons, filter_nil.
    remember (foldl _ ∅ pages) as dist eqn:Hdist. clear Hdist.
    destruct (0 <=? default (-1) (depths !! page)) eqn:Hdepth.
    + apply Z.leb_le in Hdepth.
      destruct (depths !! page) as [depth|] eqn:Hpage; cbn [default] in *;
        [|lia]. unfold id in *.
      destruct (decide (depth = d)) as [->|Hne].
      * rewrite lookup_insert_eq, decide_True by done. cbn [length].
        destruct (dist !! d) as [k|] eqn:Hk; cbn [default].
        -- destruct (proj1 (IH k) eq_refl) as (_ & Hpos & Hcount).
           split; [intros [= <-]; lia|]. intros (_ & _ & ->). f_equal. lia.
        -- assert (length (filter (λ u, depths !! u = Some d) pages) = 0%nat)
             as ->.
           { destruct (length (filter _ pages)) as [|c] eqn:Hc; [done|].
             exfalso.
             assert (None = Some (Z.of_nat (S c))) as Hsome
               by (apply IH; lia).
             discriminate Hsome. }
           split; [intros [= <-]; lia|]. intros (_ & _ & ->). done.
      * rewrite lookup_insert_ne by done.
        rewrite decide_False by congruence. cbn [length].
        rewrite Nat.add_0_r. apply IH.
    + apply Z.leb_gt in Hdepth.
      destruct (decide (depths !! page = Some d)) as [Hpage|Hpage].
      * rewrite Hpage in Hdepth. cbn [default] in Hdepth.
        unfold id in Hdepth. rewrite IH. split; intros (? & _); lia.
      * cbn [length]. rewrite Nat.add_0_r. apply IH.
Qed.

(** X16.  The metrics of the link graph count the keys of
    [internal_links]: a depth is a key of the distribution exactly when
    some of these pages has that depth, with the number of these pages;
    pages without a depth are left out, so no key is negative and no count
    is 0. *)
Theorem get_linking_metrics_depth_distribution (m : Machine) :
  let pages : gset string := dom (internal_links (self m)) in
  ∃ metrics m',
    get_linking_metrics m = (Returns metrics, m')
    ∧ lm_total_pages metrics = Z.of_nat (size pages)
    ∧ ∀ d n,
        lm_depth_distribution metrics !! d = Some n
        ↔ 0 ≤ d ∧ 0 < n
          ∧ n = Z.of_nat
                  (size (filter (λ u, page_depths (self m) !! u = Some d)
                           pages)).
Proof.
  cbn zeta. unfold get_linking_metrics. mrun. fields.
  eexists _, _. split; [reflexivity|].
  cbn [lm_total_pages lm_depth_distribution].
  destruct (identify_orphan_pages_fold
              (elements (dom (internal_links (self m)) : gset string))
              (self m)) as (_ & _ & Hlinks).
  cbn zeta in Hlinks. fold (identify_orphan_pages (self m)) in Hlinks.
  split.
  - rewrite Hlinks. by rewrite size_dom.
  - intros d n. unfold depth_distribution.
    rewrite identify_orphan_pages_page_depths, Hlinks.
    rewrite depth_distribution_fold. unfold pages_at.
    unfold filter at 2, set_filter.
    rewrite size_list_to_set; [done|].
    apply NoDup_filter, NoDup_elements.
Qed.

Lemma dict_set_touch_dom k (d : gmap string (gset string)) :
  dom (dict_set_touch k d) = dom d ∪ {[k]}.
Proof.
  unfold dict_set_touch. destruct (d !! k) eqn:Hk.
  - apply elem_of_dom_2 in Hk. set_solver.
  - rewrite dom_insert_L. set_solver.
Qed.

(** X17.  Reading the metrics of a page enters it in the link graph: a
    page that no recorded link points to is counted among the pages and
    reported as an orphan by the metrics taken next, also when it has no
    links itself.  ([crawl_site] takes the two metrics in this order for
    every page that it analyses.) *)
Theorem page_without_inbound_links_is_orphan (url : string) (m : Machine) :
  default ∅ (inbound_links (self m) !! url) = ∅ →
  ∃ page metrics m',
    (page ← get_page_linking_metrics url;
     metrics ← get_linking_metrics;
     mret (page, metrics)) m = (Returns (page, metrics), m')
    ∧ plm_inbound_links page = 0
    ∧ url ∈ lm_orphan_pages metrics
    ∧ url ∈ orphan_pages (self m')
    ∧ lm_total_pages metrics
      = Z.of_nat (size (dom (internal_links (self m)) ∪ {[url]})).
Proof.
  intros Hinbound. unfold get_page_linking_metrics, get_linking_metrics.
  mrun. fields. eexists _, _, _. split; [reflexivity|].
  cbn [plm_inbound_links lm_orphan_pages lm_total_pages].
  match goal with
  | |- context [identify_orphan_pages ?sc] => set (sc1 := sc)
  end.
  assert (internal_links sc1 = dict_set_touch url (internal_links (self m)))
    as Hlinks by done.
  assert (inbound_links sc1 = dict_set_touch url (inbound_links (self m)))
    as Hin by done.
  assert (url ∈ orphan_pages (identify_orphan_pages sc1)) as Horphan.
  { unfold identify_orphan_pages.
    destruct (identify_orphan_pages_fold
                (elements (dom (internal_links sc1) : gset string)) sc1)
      as (-> & _ & _).
    apply elem_of_union_r, elem_of_list_to_set, list_elem_of_filter.
    split.
    - by rewrite Hin, dict_set_touch_default.
    - apply elem_of_elements. rewrite Hlinks, dict_set_touch_dom.
      set_solver. }
  split; [|split; [|split]].
  - rewrite dict_set_touch_default, Hinbound. done.
  - by apply elem_of_elements.
  - exact Horphan.
  - destruct (identify_orphan_pages_fold
                (elements (dom (internal_links sc1) : gset string)) sc1)
      as (_ & _ & Hsame).
    cbn zeta in Hsame. fold (identify_orphan_pages sc1) in Hsame.
    rewrite Hsame, Hlinks, <- size_dom, dict_set_touch_dom. done.
Qed.

(** The seed of a crawl, before anything is recorded. *)
Lemma page_without_inbound_links_is_orphan_witness :
  ∃ page metrics m',
    (page ← get_page_linking_metrics Site.home;
     metrics ← get_linking_metrics;
     mret (page, metrics)) Machine_init = (Returns (page, metrics), m')
    ∧ Site.home ∈ lm_orphan_pages metrics.
Proof.
  destruct (page_without_inbound_links_is_orphan Site.home Machine_init)
    as (page & metrics & m' & Hrun & _ & Horphan & _); [reflexivity|].
  exists page, metrics, m'. split; [exact Hrun|exact Horphan].
Defined.

(** ** The crawl ends *)

Lemma runs_to_yields {A} (P : Machine → Prop) (c : M A) (Q : A → Prop) :
  runs_from P c → yields c Q → runs_to P c Q.
Proof.
  intros Hruns Hyields m Hm. specialize (Hruns m Hm).
  destruct (c m) as [[a|e|] m'] eqn:Hrun; [|done..].
  split; [by eapply Hyields|tauto].
Qed.

Lemma runs_for_fold_inv {A B} (P : Machine → Prop) (l : list A) (acc : B)
    (body : B → A → M B) (I : B → Prop) :
  I acc →
  (∀ acc x, x ∈ l → I acc → runs_to P (body acc x) I) →
  runs_to P (for_fold l acc body) I.
Proof.
  revert acc.
  induction l as [|x l IH]; intros acc Hacc Hb; cbn [for_fold].
  - intros m Hm. done.
  - intros m Hm. rewrite run_bind.
    pose proof (Hb acc x ltac:(by left) Hacc m Hm) as Hx.
    destruct (body acc x m) as [[acc'|e|] m1]; [|done..].
    destruct Hx as [Hacc' Hm1]. apply IH; [done| |done].
    intros acc'' y Hy. apply Hb. by right.
Qed.

Lemma get_robots_txt_halts w domain : halts (get_robots_txt w domain).
Proof.
  unfold halts, get_robots_txt, modify_self, emit. runs_auto. all: done.
Qed.

Lemma extract_metadata_halts soup url : halts (extract_metadata soup url).
Proof.
  unfold halts, extract_metadata, analyze_structured_data, analyze_style,
    analyze_json_ld_script, analyze_attribute_item, classify, json_get,
    modify_method, modify_structured_data, extract_title,
    extract_meta_description, extract_headings_and_images, extract_content,
    track_duplicate, crawl_issue, modify_self.
  runs_auto. all: done.
Qed.

Lemma check_indexability_halts soup url : halts (check_indexability soup url).
Proof.
  unfold halts, check_indexability, check_meta_robots, check_canonical,
    canonical_issue, crawl_issue, urlparse, modify_self.
  runs_auto. all: done.
Qed.

Lemma process_link_halts w domain internal link :
  halts (process_link w domain internal link).
Proof.
  unfold halts, process_link, check_url, retry, check_url_attempt,
    session_head, urlparse, modify_analyzer, modify_self, emit.
  runs_auto. all: done.
Qed.

Lemma get_page_linking_metrics_halts url :
  halts (get_page_linking_metrics url).
Proof.
  unfold halts, get_page_linking_metrics, modify_self. runs_auto. all: done.
Qed.

Lemma get_linking_metrics_halts : halts get_linking_metrics.
Proof. unfold halts, get_linking_metrics, modify_self. runs_auto. done. Qed.

Lemma validate_sitemap_halts w D fuel domain :
  references_within w D → domain ∈ D → (size D < fuel)%nat →
  halts (validate_sitemap w fuel domain true).
Proof.
  intros Href Hd Hfuel m _. destruct fuel as [|fuel]; [lia|].
  rewrite validate_sitemap_fresh.
  destruct (validate_sitemap_enough_fuel w D Href (S fuel) domain
              (set_visited_sitemaps ∅ m) Hd) as [Hdiv _].
  { fields. pose proof (pending_le_size D ∅). lia. }
  destruct (validate_sitemap w (S fuel) domain false _) as [[[]|e|] m'];
    done.
Qed.

Lemma process_link_within w D domain internal link :
  (∀ u, link = Some u → u ∈ D) → internal ⊆ D →
  runs_to (λ _, True) (process_link w domain internal link) (λ acc, acc ⊆ D).
Proof.
  intros Hlink Hinternal. apply runs_to_yields; [apply process_link_halts|].
  intros m acc m' Hrun u Hu.
  destruct (process_link_internal w domain internal link m acc m' Hrun u Hu)
    as [Hin|[Heq _]]; [by apply Hinternal|by apply Hlink].
Qed.

Section Halting.
Context (w : World) (D1 D2 : gset string).
Hypothesis sitemaps : references_within w D1.
Hypothesis links : links_within w D2.
Hypothesis domains : ∀ u, u ∈ D2 → urlparse_netloc u ∈ D1.

Lemma crawl_site_halts_step fuel url depth fresh :
  urlparse_netloc url ∈ D1 →
  (size D1 < fuel)%nat → (size D2 + 1 < fuel)%nat →
  (depth = 0 → ∀ u, u ∈ D2 → halts (crawl_site w fuel u (depth + 1) false)) →
  halts (crawl_site w (S fuel) url depth fresh).
Proof.
  intros Hdomain Hfuel1 Hfuel2 Hlinked.
  rewrite run_crawl_site. unfold halts.
  apply (runs_bind _ _ _ (λ _, True)); [runs_auto; done|]. intros _ _.
  apply (runs_bind _ _ _ (λ _, True)); [runs_auto|]. intros visited _.
  destruct (bool_decide (url ∈ visited)); [runs_auto|].
  apply (runs_bind _ _ _ (λ _, True)); [runs_auto; done|]. intros _ _.
  eapply runs_bind; [apply urlparse_runs|]. intros parsed ->.
  cbn zeta. cbn [netloc url_parts].
  apply runs_try_except; [|each_handler; runs_auto].
  apply (runs_bind _ _ _ (λ _, True)); [apply get_robots_txt_halts|].
  intros _ _.
  apply (runs_bind _ _ _ (λ _, True));
    [by apply (validate_sitemap_halts w D1)|].
  intros _ _.
  eapply runs_bind; [by apply get_page_content_runs|].
  intros content [k ->].
  destruct (page_source w k url) as [soup|] eqn:Hsoup; [|runs_auto].
  apply (runs_bind _ _ _ (λ _, True)); [apply extract_metadata_halts|].
  intros metadata _.
  apply (runs_bind _ _ _ (λ _, True)); [apply check_indexability_halts|].
  intros indexability _.
  apply (runs_bind _ _ _ (λ _, True));
    [by apply (analyze_internal_links_halts w D2)|].
  intros _ _.
  eapply runs_bind.
  { apply (runs_for_fold_inv _ _ _ _ (λ acc, acc ⊆ D2)); [set_solver|].
    intros acc link Hlink Hacc. apply process_link_within; [|done].
    intros u ->. by eapply links. }
  intros internal Hinternal.
  apply (runs_bind _ _ _ (λ _, True));
    [apply get_page_linking_metrics_halts|].
  intros linking _.
  apply (runs_bind _ _ _ (λ _, True)); [runs_auto|]. intros sc _.
  apply (runs_bind _ _ _ (λ _, True)); [apply get_linking_metrics_halts|].
  intros linking_metrics _.
  apply (runs_bind _ _ _ (λ _, True)); [|intros; runs_auto].
  destruct (depth =? 0) eqn:Hdepth; [|runs_auto].
  apply Z.eqb_eq in Hdepth.
  apply runs_for_fold. intros linked_pages linked_url Hin.
  apply runs_try_except; [|each_handler; runs_auto].
  apply (runs_bind _ _ _ (λ _, True)); [|intros; runs_auto].
  apply Hlinked; [done|]. apply Hinternal. by apply elem_of_elements.
Qed.

(** A page analysed below the seed. *)
Lemma crawl_site_halts_leaf fuel url depth fresh :
  urlparse_netloc url ∈ D1 → depth ≠ 0 →
  (size D1 < fuel)%nat → (size D2 + 1 < fuel)%nat →
  halts (crawl_site w (S fuel) url depth fresh).
Proof.
  intros Hdomain Hdepth Hfuel1 Hfuel2.
  by apply crawl_site_halts_step.
Qed.

Lemma crawl_site_halts_seed fuel url fresh :
  urlparse_netloc url ∈ D1 →
  (size D1 + 1 < fuel)%nat → (size D2 + 2 < fuel)%nat →
  halts (crawl_site w (S fuel) url 0 fresh).
Proof.
  intros Hdomain Hfuel1 Hfuel2.
  apply crawl_site_halts_step; [done|lia..|].
  intros _ u Hu. destruct fuel as [|fuel]; [lia|].
  apply crawl_site_halts_leaf; [by apply domains|done|lia..].
Qed.

End Halting.

Lemma crawl_site_no_exception w fuel url depth fresh m e :
  invalid_netloc (urlparse_netloc url) = false →
  fst (crawl_site w fuel url depth fresh m) ≠ Raises e.
Proof.
  intros Hvalid. destruct fuel as [|fuel]; [done|].
  rewrite run_crawl_site.
  destruct fresh; mrun0.
  all: case_bool_decide; mrun0; [done|].
  all: rewrite run_urlparse, Hvalid; mrun0; cbn zeta.
  all: rewrite run_try_except.
  all: match goal with
       | |- context [match ?x with _ => _ end] =>
           destruct x as [[r|e'|] m1]
       end; [done| |done].
  all: cbn [dispatch isinstance]; mrun; done.
Qed.

Lemma crawl_site_fresh_result w fuel url depth m results m' :
  crawl_site w fuel url depth true m = (Returns results, m') →
  ∃ page, results = Some page ∧ res_analyzed_url page = url.
Proof.
  destruct fuel as [|fuel]; [done|].
  rewrite run_crawl_site. mrun0. fields.
  rewrite bool_decide_eq_false_2 by set_solver. mrun0.
  rewrite run_urlparse. destruct (invalid_netloc _); [done|]. mrun0.
  cbn zeta.
  match goal with
  | |- try_except ?body ?hs ?m1 = _ → _ =>
      assert (yields (try_except body hs)
                (λ r, ∃ page, r = Some page ∧ res_analyzed_url page = url))
        as Hyields; [|by apply Hyields]
  end.
  apply yields_try_except; [|each_handler; apply yields_ret; eauto].
  repeat (eapply yields_bind; [apply yields_any|intros ? _]).
  destruct a1; [|apply yields_ret; eauto].
  repeat (eapply yields_bind; [apply yields_any|intros ? _]).
  apply yields_ret. eauto.
Qed.


Lemma late_page_no_sitemaps D : references_within Site.late_page D.
Proof. intros k url response root text [= <-] Hroot. discriminate Hroot. Qed.




(** ** Structured data: the method and the coverage *)

Global Instance only_method_preorder k : PreOrder (only_method k).
Proof.
  split.
  - intros m. done.
  - intros m1 m2 m3 (Hc1 & Hd1 & Hn1 & Ho1) (Hc2 & Hd2 & Hn2 & Ho2).
    unfold only_method in *. cbn zeta in *.
    split; [congruence|]. split; [congruence|]. split; [congruence|].
    intros k' Hk'. rewrite Ho2, Ho1; done.
Qed.

Lemma classify_only_method k t url : keeps (only_method k) (classify t url).
Proof.
  intros m. unfold classify, modify_structured_data. mrun.
  assert (∀ bucket,
    only_method k m
      (snd (match schema_types (structured_data (self m)) !! bucket with
            | Some urls =>
                modify_self (λ sc,
                  set_structured_data
                    (set_schema_types
                       (<[bucket := urls ++ [url]]>
                          (schema_types (structured_data (self m))))
                       (structured_data sc)) sc)
            | None => raise (OtherException "KeyError: 'other'")
            end m))) as Hbucket.
  { intros bucket.
    destruct (schema_types (structured_data (self m)) !! bucket) as [urls|]
      eqn:Hurls; mrun; [|done].
    cbn [snd]. unfold only_method. fields. cbn.
    split; [done|]. split; [|split; [by destruct k|by intros []]].
    apply dom_insert_lookup_L. by eexists. }
  destruct t; mrun; try apply Hbucket; done.
Qed.

Lemma modify_method_valid_only k url :
  keeps (only_method k) (modify_method k (method_valid_append url)).
Proof.
  intros m. unfold modify_method, modify_structured_data. mrun. cbn [snd].
  unfold only_method. fields. cbn.
  split; [done|]. split; [done|].
  split; [by destruct k|]. intros k' Hk'. by destruct k, k'.
Qed.

Lemma modify_method_invalid_only k url error :
  keeps (only_method k) (modify_method k (method_invalid_append url error)).
Proof.
  intros m. unfold modify_method, modify_structured_data. mrun. cbn [snd].
  unfold only_method. fields. cbn.
  split; [done|]. split; [done|].
  split; [by destruct k|]. intros k' Hk'. by destruct k, k'.
Qed.

Ltac only_step :=
  first
    [ apply classify_only_method
    | apply modify_method_valid_only
    | apply modify_method_invalid_only
    | keeps_step ].

Lemma analyze_json_ld_script_only url found script :
  keeps (only_method json_ld_method) (analyze_json_ld_script url found script).
Proof. unfold analyze_json_ld_script, json_get. repeat only_step. Qed.

Lemma analyze_attribute_item_only k url found attr :
  keeps (only_method k) (analyze_attribute_item k url found attr).
Proof. unfold analyze_attribute_item. repeat only_step. Qed.

Ltac yields_next :=
  eapply yields_bind; [apply yields_any|intros ? _].

Lemma analyze_json_ld_script_method url found script :
  yields (analyze_json_ld_script url found script)
    (λ r, sd_implementation_method r = sd_implementation_method found).
Proof.
  unfold analyze_json_ld_script.
  apply yields_try_except.
  2:{ each_handler. yields_next. by apply yields_ret. }
  yields_next. yields_next.
  eapply (yields_bind _ _
            (λ r, sd_implementation_method r = sd_implementation_method found)).
  - destruct a as [| | | |items|]; try (yields_next; by apply yields_ret).
    apply yields_for_fold; [done|].
    intros acc item _ Hacc. yields_next. yields_next. by apply yields_ret.
  - intros r Hr. yields_next. by apply yields_ret.
Qed.

Lemma analyze_attribute_item_method k url found attr :
  yields (analyze_attribute_item k url found attr)
    (λ r, sd_implementation_method r = sd_implementation_method found).
Proof.
  unfold analyze_attribute_item.
  apply yields_try_except.
  2:{ each_handler. yields_next. by apply yields_ret. }
  yields_next. yields_next. by apply yields_ret.
Qed.

(** What [analyze_style] does for a method with markup on the page. *)
Lemma analyze_style_counted {A} k (items : list A) body found m :
  items ≠ [] →
  (∀ acc x, keeps (only_method k) (body acc x)) →
  (∀ acc x, yields (body acc x)
     (λ r, sd_implementation_method r = sd_implementation_method acc)) →
  let result := analyze_style k items body found m in
  let sd := structured_data (self m) in
  let sd' := structured_data (self (snd result)) in
  page_coverage sd' = page_coverage sd
  ∧ dom (schema_types sd') = dom (schema_types sd)
  ∧ im_count (get_method k sd') = im_count (get_method k sd) + 1
  ∧ (∀ k', k' ≠ k → get_method k' sd' = get_method k' sd)
  ∧ (∀ r, fst result = Returns r →
       sd_implementation_method r = Some (method_name k)).
Proof.
  intros Hitems Hkeeps Hyields. cbn zeta.
  unfold analyze_style. destruct items as [|x items]; [done|].
  generalize (x :: items). clear x items Hitems. intros items.
  unfold modify_method, modify_structured_data. mrun.
  match goal with
  | |- context [for_fold items ?acc body ?m1] =>
      pose proof (keeps_for_fold (only_method k) items acc body Hkeeps m1)
        as (Hc & Hd & Hn & Ho);
      pose proof (yields_for_fold items acc body
                    (λ r, sd_implementation_method r = Some (method_name k))
                    eq_refl) as Hmethod;
      destruct (for_fold items acc body m1) as [o m2] eqn:Hrun
  end.
  cbn [fst snd] in *. fields. cbn zeta in *. fields.
  rewrite Hc, Hd, Hn. cbn.
  split; [done|]. split; [done|]. split; [by destruct k|].
  split.
  - intros k' Hk'. rewrite Ho by done. by destruct k, k'.
  - intros r ->. revert Hrun. apply Hmethod.
    intros acc y _ Hacc m0 r' m0' Hbody.
    rewrite (Hyields acc y m0 r' m0' Hbody). exact Hacc.
Qed.

Lemma get_method_set_page_coverage k v sd :
  get_method k (set_page_coverage v sd) = get_method k sd.
Proof. by destruct k. Qed.

Lemma analyze_structured_data_run soup url m :
  let result := analyze_structured_data soup url m in
  let sd := structured_data (self m) in
  let sd' := structured_data (self (snd result)) in
  dom (schema_types sd') = dom (schema_types sd)
  ∧ (∀ k, chosen_method soup = Some k →
       im_count (get_method k sd') = im_count (get_method k sd) + 1)
  ∧ (∀ k, chosen_method soup ≠ Some k → get_method k sd' = get_method k sd)
  ∧ match fst result with
    | Returns found =>
        sd_implementation_method found = method_name <$> chosen_method soup
        ∧ page_coverage sd' = covered found url (page_coverage sd)
    | _ => page_coverage sd' = page_coverage sd
    end.
Proof.
  cbn zeta. unfold analyze_structured_data, chosen_method.
  rewrite run_bind.
  assert (∀ k (c : M StructuredDataFindings) found m1,
    c m = (Returns found, m1) →
    page_coverage (structured_data (self m1))
    = page_coverage (structured_data (self m)) →
    dom (schema_types (structured_data (self m1)))
    = dom (schema_types (structured_data (self m))) →
    im_count (get_method k (structured_data (self m1)))
    = im_count (get_method k (structured_data (self m))) + 1 →
    (∀ k', k' ≠ k → get_method k' (structured_data (self m1))
                     = get_method k' (structured_data (self m))) →
    sd_implementation_method found = Some (method_name k) →
    let result :=
      (modify_structured_data (λ sd,
         set_page_coverage (covered found url (page_coverage sd)) sd) ;;
       mret found) m1 in
    let sd := structured_data (self m) in
    let sd' := structured_data (self (snd result)) in
    dom (schema_types sd') = dom (schema_types sd)
    ∧ (∀ k', Some k = Some k' →
         im_count (get_method k' sd') = im_count (get_method k' sd) + 1)
    ∧ (∀ k', Some k ≠ Some k' → get_method k' sd' = get_method k' sd)
    ∧ match fst result with
      | Returns found' =>
          sd_implementation_method found' = Some (method_name k)
          ∧ page_coverage sd' = covered found' url (page_coverage sd)
      | _ => page_coverage sd' = page_coverage sd
      end) as Hlast.
  { intros k c found m1 _ Hc Hd Hn Ho Hm. cbn zeta.
    unfold modify_structured_data. mrun. fields.
    cbn [structured_data set_structured_data schema_types page_coverage
         set_page_coverage].
    split; [done|]. split; [|split; [|by rewrite Hc]].
    - intros k' [= <-]. by rewrite get_method_set_page_coverage.
    - intros k' Hk'. rewrite get_method_set_page_coverage. apply Ho.
      congruence. }
  assert (∀ k (o : outcome StructuredDataFindings) m1,
    (∀ found, o ≠ Returns found) →
    page_coverage (structured_data (self m1))
    = page_coverage (structured_data (self m)) →
    dom (schema_types (structured_data (self m1)))
    = dom (schema_types (structured_data (self m))) →
    im_count (get_method k (structured_data (self m1)))
    = im_count (get_method k (structured_data (self m))) + 1 →
    (∀ k', k' ≠ k → get_method k' (structured_data (self m1))
                     = get_method k' (structured_data (self m))) →
    let sd := structured_data (self m) in
    let sd' := structured_data (self m1) in
    dom (schema_types sd') = dom (schema_types sd)
    ∧ (∀ k', Some k = Some k' →
         im_count (get_method k' sd') = im_count (get_method k' sd) + 1)
    ∧ (∀ k', Some k ≠ Some k' → get_method k' sd' = get_method k' sd)
    ∧ page_coverage sd' = page_coverage sd) as Hleft.
  { intros k o m1 _ Hc Hd Hn Ho. cbn zeta.
    split; [done|]. split; [by intros k' [= <-]|]. split; [|done].
    intros k' Hk'. apply Ho. congruence. }
  destruct (find_all_json_ld soup) as [|script scripts] eqn:Hscripts.
  2:{ destruct (analyze_style_counted json_ld_method (script :: scripts)
                  (analyze_json_ld_script url) findings_init m)
        as (Hc & Hd & Hn & Ho & Hm); [done| | |].
      { intros acc x. apply analyze_json_ld_script_only. }
      { intros acc x. apply analyze_json_ld_script_method. }
      destruct (analyze_style json_ld_method (script :: scripts) _ _ m)
        as [[found|e|] m1] eqn:Hrun; cbn [fst snd] in *.
      - repeat (rewrite ?(Hm found eq_refl); mrun).
        by eapply (Hlast json_ld_method); eauto.
      - by eapply (Hleft json_ld_method (Raises e)).
      - by eapply (Hleft json_ld_method Diverges). }
  cbn [analyze_style]. mrun. cbn [sd_implementation_method findings_init].
  destruct (find_all_itemtype soup) as [|item items] eqn:Hitems.
  2:{ destruct (analyze_style_counted microdata_method (item :: items)
                  (analyze_attribute_item microdata_method url)
                  findings_init m)
        as (Hc & Hd & Hn & Ho & Hm); [done| | |].
      { intros acc x. apply analyze_attribute_item_only. }
      { intros acc x. apply analyze_attribute_item_method. }
      destruct (analyze_style microdata_method (item :: items) _ _ m)
        as [[found|e|] m1] eqn:Hrun; cbn [fst snd] in *.
      - repeat (rewrite ?(Hm found eq_refl); mrun).
        by eapply (Hlast microdata_method); eauto.
      - by eapply (Hleft microdata_method (Raises e)).
      - by eapply (Hleft microdata_method Diverges). }
  cbn [analyze_style]. mrun. cbn [sd_implementation_method findings_init].
  destruct (find_all_vocab soup) as [|item items] eqn:Hvocab.
  2:{ destruct (analyze_style_counted rdfa_method (item :: items)
                  (analyze_attribute_item rdfa_method url)
                  findings_init m)
        as (Hc & Hd & Hn & Ho & Hm); [done| | |].
      { intros acc x. apply analyze_attribute_item_only. }
      { intros acc x. apply analyze_attribute_item_method. }
      destruct (analyze_style rdfa_method (item :: items) _ _ m)
        as [[found|e|] m1] eqn:Hrun; cbn [fst snd] in *.
      - by eapply (Hlast rdfa_method); eauto.
      - by eapply (Hleft rdfa_method (Raises e)).
      - by eapply (Hleft rdfa_method Diverges). }
  cbn [analyze_style]. unfold modify_structured_data. mrun. fields.
  cbn [structured_data set_structured_data schema_types page_coverage
       set_page_coverage sd_implementation_method findings_init fmap
       option_fmap option_map].
  split; [done|]. split; [done|]. split; [|done].
  intros k _. apply get_method_set_page_coverage.
Qed.

(** X20.  The first kind of markup that the page has decides: JSON-LD
    before microdata before RDFa.  The page is counted under that method
    only, the records of the other methods are left as they are (also when
    the analysis raises), and the keys of the catalog never change. *)
Theorem analyze_structured_data_first_method (soup : Soup) (url : string)
    (m : Machine) :
  let result := analyze_structured_data soup url m in
  let sd := structured_data (self m) in
  let sd' := structured_data (self (snd result)) in
  (∀ found, fst result = Returns found →
     sd_implementation_method found = method_name <$> chosen_method soup)
  ∧ (∀ k, chosen_method soup = Some k →
       im_count (get_method k sd') = im_count (get_method k sd) + 1)
  ∧ (∀ k, chosen_method soup ≠ Some k → get_method k sd' = get_method k sd)
  ∧ dom (schema_types sd') = dom (schema_types sd).
Proof.
  destruct (analyze_structured_data_run soup url m) as (Hd & Hn & Ho & Hr).
  cbn zeta in *. split; [|done].
  intros found Hfound. rewrite Hfound in Hr. tauto.
Qed.

(** X21.  Every page whose analysis returns is counted once, as a page
    with schema when a type was found on it and as a page without
    otherwise; a page whose analysis raises is not counted.  So the total
    stays the sum of the two. *)
Theorem analyze_structured_data_coverage (soup : Soup) (url : string)
    (m : Machine) :
  let result := analyze_structured_data soup url m in
  let pc := page_coverage (structured_data (self m)) in
  let pc' := page_coverage (structured_data (self (snd result))) in
  match fst result with
  | Returns found =>
      total_pages pc' = total_pages pc + 1
      ∧ (sd_schema_types found = [] →
         pages_with_schema pc' = pages_with_schema pc
         ∧ pages_without_schema pc' = pages_without_schema pc ++ [url])
      ∧ (sd_schema_types found ≠ [] →
         pages_with_schema pc' = pages_with_schema pc + 1
         ∧ pages_without_schema pc' = pages_without_schema pc)
  | _ => pc' = pc
  end
  ∧ (coverage_consistent pc → coverage_consistent pc').
Proof.
  destruct (analyze_structured_data_run soup url m) as (_ & _ & _ & Hr).
  cbn zeta in *.
  destruct (fst (analyze_structured_data soup url m)) as [found|e|];
    [|by rewrite Hr..].
  destruct Hr as [_ ->]. unfold covered, coverage_consistent.
  destruct (sd_schema_types found) as [|t types]; cbn.
  - split; [done|]. rewrite length_app. cbn [length]. lia.
  - split; [done|]. lia.
Qed.

(** A page with one JSON-LD declaration, from the initial counters. *)
Lemma analyze_structured_data_coverage_witness :
  coverage_consistent
    (page_coverage
       (structured_data
          (self (snd (analyze_structured_data
                        (Site.with_json_ld (Site.declaration "Article"))
                        Site.page_a Machine_init))))).
Proof.
  apply (analyze_structured_data_coverage
           (Site.with_json_ld (Site.declaration "Article")) Site.page_a
           Machine_init).
  reflexivity.
Defined.

(** ** Structured data: what is filed where *)

Lemma classify_string_run s url m :
  let catalog := schema_types (structured_data (self m)) in
  is_Some (catalog !! "other") →
  ∃ urls,
    catalog !! bucket_of catalog s = Some urls
    ∧ classify (JString s) url m
      = (Returns tt,
         set_self
           (set_structured_data
              (set_schema_types
                 (<[bucket_of catalog s := urls ++ [url]]> catalog)
                 (structured_data (self m)))
              (self m)) m).
Proof.
  cbn zeta. intros [other Hother]. unfold classify, bucket_of.
  unfold modify_structured_data. mrun.
  destruct (schema_types (structured_data (self m)) !! s) as [urls|] eqn:Hs.
  - exists urls. rewrite Hs. by mrun.
  - exists other. rewrite Hother. by mrun.
Qed.

Lemma bucket_of_insert catalog b urls type :
  is_Some (catalog !! b) →
  bucket_of (<[b := urls]> catalog) type = bucket_of catalog type.
Proof.
  intros [old Hold]. unfold bucket_of.
  destruct (decide (b = type)) as [->|Hne].
  - by rewrite lookup_insert_eq, Hold.
  - by rewrite lookup_insert_ne.
Qed.

Lemma attribute_items_run k url items found m :
  let sd := structured_data (self m) in
  is_Some (schema_types sd !! "other") →
  ∃ m',
    let sd' := structured_data (self m') in
    for_fold items found (analyze_attribute_item k url) m
    = (Returns (foldl (λ found attr,
                         findings_type (JString (last_segment attr)) found)
                  found items), m')
    ∧ (∀ bucket,
         schema_types sd' !! bucket
         = (λ urls, urls ++ replicate
                              (filed_under (schema_types sd) bucket items)
                              url)
             <$> schema_types sd !! bucket)
    ∧ im_valid (get_method k sd')
      = im_valid (get_method k sd) ++ replicate (length items) url
    ∧ im_invalid (get_method k sd') = im_invalid (get_method k sd)
    ∧ im_count (get_method k sd') = im_count (get_method k sd)
    ∧ page_coverage sd' = page_coverage sd.
Proof.
  cbn zeta. revert found m.
  induction items as [|attr items IH]; intros found m Hother.
  - exists m. cbn [for_fold foldl length replicate].
    rewrite app_nil_r. split; [done|]. split; [|done].
    intros bucket. unfold filed_under. rewrite filter_nil. cbn.
    destruct (schema_types (structured_data (self m)) !! bucket); cbn;
      [by rewrite app_nil_r|done].
  - cbn [for_fold]. rewrite run_bind. unfold analyze_attribute_item at 1.
    rewrite run_try_except, run_bind.
    destruct (classify_string_run (last_segment attr) url m Hother)
      as (urls & Hurls & ->).
    unfold modify_method, modify_structured_data. mrun. fields.
    set (catalog := schema_types (structured_data (self m))) in *.
    set (b0 := bucket_of catalog (last_segment attr)) in *.
    match goal with
    | |- context [for_fold items ?acc _ ?m1] =>
        destruct (IH acc m1) as (m' & -> & Hcat & Hvalid & Hinvalid & Hcount
                                 & Hcov)
    end.
    { fields. cbn [structured_data set_structured_data schema_types
                   set_method set_schema_types].
      destruct (decide (b0 = "other")) as [->|Hne].
      - rewrite lookup_insert_eq. by eexists.
      - by rewrite lookup_insert_ne. }
    exists m'. split; [done|]. fields.
    cbn [structured_data set_structured_data schema_types set_method
         set_schema_types page_coverage] in *.
    rewrite Hvalid, Hinvalid, Hcount, Hcov.
    split; [|split; [destruct k; cbn; by rewrite <- app_assoc|]].
    2:{ split; [by destruct k|]. split; [by destruct k|done]. }
    intros bucket. rewrite Hcat. unfold filed_under.
    rewrite filter_cons.
    assert (filter (λ attr0, bucket_of (<[b0 := urls ++ [url]]> catalog)
                               (last_segment attr0) = bucket) items
            = filter (λ attr0, bucket_of catalog (last_segment attr0)
                               = bucket) items) as ->.
    { apply list_filter_iff. intros attr0.
      rewrite bucket_of_insert; [done|by eexists]. }
    fold b0. destruct (decide (b0 = bucket)) as [<-|Hne].
    + rewrite lookup_insert_eq, Hurls. cbn [fmap option_fmap option_map length].
      by rewrite <- app_assoc.
    + by rewrite lookup_insert_ne.
Qed.

(** X22.  A page without JSON-LD whose markup is microdata (or, without
    microdata, RDFa), analysed while the catalog has its entry ["other"]:
    the analysis returns; the type of every item is the last segment of
    its attribute; the page is appended to the entry of the type, or to
    ["other"] for a type that is no key of the catalog, once for every
    item (so a page with several items of a type is listed several times);
    it is listed as valid once for every item and counted as a page with
    schema. *)
Theorem analyze_structured_data_attributes (soup : Soup) (url : string)
    (m : Machine) (k : method) (items : list string) :
  find_all_json_ld soup = [] →
  (k = microdata_method ∧ find_all_itemtype soup = items
   ∨ k = rdfa_method ∧ find_all_itemtype soup = []
     ∧ find_all_vocab soup = items) →
  items ≠ [] →
  let sd := structured_data (self m) in
  is_Some (schema_types sd !! "other") →
  ∃ found m',
    let sd' := structured_data (self m') in
    analyze_structured_data soup url m = (Returns found, m')
    ∧ sd_schema_types found = (λ attr, JString (last_segment attr)) <$> items
    ∧ sd_validation_status found = "valid"
    ∧ (∀ bucket,
         schema_types sd' !! bucket
         = (λ urls, urls ++ replicate
                              (filed_under (schema_types sd) bucket items)
                              url)
             <$> schema_types sd !! bucket)
    ∧ im_valid (get_method k sd')
      = im_valid (get_method k sd) ++ replicate (length items) url
    ∧ pages_with_schema (page_coverage sd')
      = pages_with_schema (page_coverage sd) + 1.
Proof.
  intros Hjson Hk Hitems. cbn zeta. intros Hother.
  assert (∀ found0 : StructuredDataFindings,
    sd_schema_types
      (foldl (λ found attr,
                findings_type (JString (last_segment attr)) found)
         found0 items)
    = sd_schema_types found0
      ++ ((λ attr, JString (last_segment attr)) <$> items)
    ∧ sd_validation_status
        (foldl (λ found attr,
                  findings_type (JString (last_segment attr)) found)
           found0 items)
      = sd_validation_status found0
    ∧ sd_implementation_method
        (foldl (λ found attr,
                  findings_type (JString (last_segment attr)) found)
           found0 items)
      = sd_implementation_method found0) as Hfold.
  { clear. induction items as [|attr items IH]; intros found0.
    - cbn. by rewrite app_nil_r.
    - cbn [foldl fmap list_fmap].
      destruct (IH (findings_type (JString (last_segment attr)) found0))
        as (-> & -> & ->).
      cbn. by rewrite <- app_assoc. }
  unfold analyze_structured_data. rewrite Hjson.
  cbn [analyze_style]. mrun. cbn [sd_implementation_method findings_init].
  assert (∀ k0 v sd0,
            im_valid (get_method k0 (set_method k0 (method_count_incr v) sd0))
            = im_valid v) as Hincr by (by intros []).
  destruct Hk as [[-> <-]|(-> & Hnone & <-)].
  - destruct (find_all_itemtype soup) as [|attr items'] eqn:Hlist; [done|].
    cbn [analyze_style]. unfold modify_method at 1, modify_structured_data.
    mrun.
    match goal with
    | |- context [for_fold ?l ?acc _ ?m0] =>
        destruct (attribute_items_run microdata_method url l acc m0 Hother)
          as (m1 & -> & Hcat & Hvalid & _ & _ & Hcov);
        destruct (Hfold acc) as (Htypes & Hstatus & Hmethod)
    end.
    rewrite Hmethod. cbn [sd_implementation_method findings_method]. mrun.
    eexists _, _. split; [reflexivity|]. fields.
    cbn [structured_data set_structured_data schema_types page_coverage
         set_page_coverage set_method get_method microdata rdfa
         method_count_incr im_valid] in *.
    rewrite Htypes, Hstatus, Hvalid, Hcov.
    split; [done|]. split; [done|]. split; [exact Hcat|]. split; [done|].
    done.
  - rewrite Hnone. cbn [analyze_style]. mrun.
    cbn [sd_implementation_method findings_init].
    destruct (find_all_vocab soup) as [|attr items'] eqn:Hlist; [done|].
    cbn [analyze_style]. unfold modify_method at 1, modify_structured_data.
    mrun.
    match goal with
    | |- context [for_fold ?l ?acc _ ?m0] =>
        destruct (attribute_items_run rdfa_method url l acc m0 Hother)
          as (m1 & -> & Hcat & Hvalid & _ & _ & Hcov);
        destruct (Hfold acc) as (Htypes & Hstatus & Hmethod)
    end.
    mrun. eexists _, _. split; [reflexivity|]. fields.
    cbn [structured_data set_structured_data schema_types page_coverage
         set_page_coverage set_method get_method microdata rdfa
         method_count_incr im_valid] in *.
    rewrite Htypes, Hstatus, Hvalid, Hcov.
    split; [done|]. split; [done|]. split; [exact Hcat|]. split; [done|].
    done.
Qed.

(** Two microdata items, one of a type that the catalog lacks. *)
Lemma analyze_structured_data_attributes_witness :
  ∃ found m',
    analyze_structured_data
      {| find_title := None; find_meta_description := None;
         find_meta_robots := None; find_link_canonical := None;
         find_all_h := []; find_all_img := []; find_main_content := None;
         find_all_json_ld := [];
         find_all_itemtype :=
           ["https://schema.org/Article"; "https://schema.org/Recipe"];
         find_all_vocab := []; find_all_a_href := [] |}
      Site.page_a Machine_init = (Returns found, m')
    ∧ sd_schema_types found = [JString "Article"; JString "Recipe"]
    ∧ schema_types (structured_data (self m')) !! "other"
      = Some [Site.page_a].
Proof.
  destruct (analyze_structured_data_attributes
              {| find_title := None; find_meta_description := None;
                 find_meta_robots := None; find_link_canonical := None;
                 find_all_h := []; find_all_img := [];
                 find_main_content := None; find_all_json_ld := [];
                 find_all_itemtype :=
                   ["https://schema.org/Article";
                    "https://schema.org/Recipe"];
                 find_all_vocab := []; find_all_a_href := [] |}
              Site.page_a Machine_init microdata_method
              ["https://schema.org/Article"; "https://schema.org/Recipe"]
              eq_refl (or_introl (conj eq_refl eq_refl)))
    as (found & m' & Hrun & Htypes & _ & Hcatalog & _).
  - discriminate.
  - by eexists.
  - exists found, m'. split; [exact Hrun|]. split; [exact Htypes|].
    rewrite (Hcatalog "other"). reflexivity.
Defined.

Lemma analyze_style_some {A} k (items : list A) body found :
  items ≠ [] →
  analyze_style k items body found
  = (modify_method k method_count_incr ;;
     for_fold items (findings_method (method_name k) found) body).
Proof. by destruct items. Qed.

Lemma malformed_scripts_run url msgs found m :
  let sd := structured_data (self m) in
  ∃ m',
    let sd' := structured_data (self m') in
    for_fold (Malformed <$> msgs) found (analyze_json_ld_script url) m
    = (Returns (foldl (λ found msg,
                         findings_invalid ("Invalid JSON-LD: " +:+ msg) found)
                  found msgs), m')
    ∧ json_ld sd'
      = {| im_count := im_count (json_ld sd);
           im_valid := im_valid (json_ld sd);
           im_invalid := im_invalid (json_ld sd)
                         ++ replicate (length msgs) url;
           im_errors := im_errors (json_ld sd) ++ msgs |}
    ∧ schema_types sd' = schema_types sd
    ∧ microdata sd' = microdata sd
    ∧ rdfa sd' = rdfa sd
    ∧ page_coverage sd' = page_coverage sd.
Proof.
  cbn zeta. revert found m. induction msgs as [|msg msgs IH]; intros found m.
  - exists m. cbn [fmap list_fmap for_fold foldl length replicate].
    rewrite !app_nil_r. by destruct (json_ld (structured_data (self m))).
  - cbn [fmap list_fmap for_fold]. rewrite run_bind.
    unfold analyze_json_ld_script at 1. rewrite run_try_except. mrun.
    cbn [dispatch isinstance str_exn].
    unfold modify_method, modify_structured_data. mrun.
    match goal with
    | |- context [for_fold ?l ?acc _ ?m1] =>
        destruct (IH acc m1) as (m' & Hrun & Hjson & Hcat & Hmicro & Hrdfa
                                 & Hcov)
    end.
    change (list_fmap string json_loads Malformed msgs)
      with (Malformed <$> msgs).
    rewrite Hrun. exists m'. split; [done|]. fields.
    cbn [structured_data set_structured_data schema_types page_coverage
         set_method get_method json_ld microdata rdfa method_invalid_append
         im_count im_valid im_invalid im_errors] in *.
    rewrite Hjson, Hcat, Hmicro, Hrdfa, Hcov.
    cbn [length replicate]. rewrite <- !app_assoc. done.
Qed.

(** X23.  A page whose JSON-LD scripts all fail to parse: the analysis
    returns, reports the page as invalid with one error for every script,
    lists it as an invalid JSON-LD page once for every script, and counts
    it as a page without schema.  Microdata and RDFa on the page are not
    looked at, and the catalog is left as it is. *)
Theorem analyze_structured_data_malformed_json_ld (soup : Soup)
    (url : string) (m : Machine) (msgs : list string) :
  find_all_json_ld soup = Malformed <$> msgs → msgs ≠ [] →
  let sd := structured_data (self m) in
  ∃ found m',
    let sd' := structured_data (self m') in
    analyze_structured_data soup url m = (Returns found, m')
    ∧ sd_implementation_method found = Some "json_ld"
    ∧ sd_schema_types found = []
    ∧ sd_validation_status found = "invalid"
    ∧ sd_errors found = (λ msg, "Invalid JSON-LD: " +:+ msg) <$> msgs
    ∧ im_invalid (json_ld sd')
      = im_invalid (json_ld sd) ++ replicate (length msgs) url
    ∧ im_errors (json_ld sd') = im_errors (json_ld sd) ++ msgs
    ∧ microdata sd' = microdata sd ∧ rdfa sd' = rdfa sd
    ∧ schema_types sd' = schema_types sd
    ∧ pages_with_schema (page_coverage sd')
      = pages_with_schema (page_coverage sd)
    ∧ pages_without_schema (page_coverage sd')
      = pages_without_schema (page_coverage sd) ++ [url].
Proof.
  intros Hscripts Hmsgs. cbn zeta.
  assert (∀ found0 : StructuredDataFindings,
    let found :=
      foldl (λ found msg,
               findings_invalid ("Invalid JSON-LD: " +:+ msg) found)
        found0 msgs in
    sd_schema_types found = sd_schema_types found0
    ∧ sd_implementation_method found = sd_implementation_method found0
    ∧ sd_validation_status found = "invalid"
    ∧ sd_errors found
      = sd_errors found0 ++ ((λ msg, "Invalid JSON-LD: " +:+ msg) <$> msgs))
    as Hfold.
  { cbn zeta. destruct msgs as [|msg0 msgs]; [done|]. clear.
    revert msg0. induction msgs as [|msg msgs IH]; intros msg0 found0.
    - done.
    - cbn [foldl fmap list_fmap] in *.
      destruct (IH msg (findings_invalid ("Invalid JSON-LD: " +:+ msg0)
                          found0)) as (-> & -> & -> & ->).
      cbn. by rewrite <- app_assoc. }
  unfold analyze_structured_data. rewrite Hscripts.
  rewrite analyze_style_some by (by destruct msgs).
  unfold modify_method at 1, modify_structured_data. mrun.
  match goal with
  | |- context [for_fold _ ?acc _ ?m0] =>
      destruct (malformed_scripts_run url msgs acc m0)
        as (m1 & -> & Hjson & Hcat & Hmicro & Hrdfa & Hcov);
      destruct (Hfold acc) as (Htypes & Hmethod & Hstatus & Herrors)
  end.
  mrun. rewrite Hmethod. cbn [sd_implementation_method findings_method].
  mrun. rewrite Hmethod. cbn [sd_implementation_method findings_method].
  mrun. eexists _, _. split; [reflexivity|]. fields.
  cbn [structured_data set_structured_data schema_types page_coverage
       set_page_coverage set_method get_method json_ld microdata rdfa
       method_count_incr im_count im_valid im_invalid im_errors] in *.
  rewrite Htypes, Hmethod, Hstatus, Herrors, Hjson, Hcat, Hmicro, Hrdfa, Hcov.
  cbn. repeat split.
Qed.

(** A script that does not parse, on a page that also has microdata. *)
Lemma analyze_structured_data_malformed_json_ld_witness :
  ∃ found m',
    analyze_structured_data
      {| find_title := None; find_meta_description := None;
         find_meta_robots := None; find_link_canonical := None;
         find_all_h := []; find_all_img := []; find_main_content := None;
         find_all_json_ld := [Malformed "Expecting value"];
         find_all_itemtype := ["https://schema.org/Article"];
         find_all_vocab := []; find_all_a_href := [] |}
      Site.page_a Machine_init = (Returns found, m')
    ∧ sd_schema_types found = []
    ∧ pages_without_schema (page_coverage (structured_data (self m')))
      = [Site.page_a].
Proof.
  destruct (analyze_structured_data_malformed_json_ld
              {| find_title := None; find_meta_description := None;
                 find_meta_robots := None; find_link_canonical := None;
                 find_all_h := []; find_all_img := [];
                 find_main_content := None;
                 find_all_json_ld := [Malformed "Expecting value"];
                 find_all_itemtype := ["https://schema.org/Article"];
                 find_all_vocab := []; find_all_a_href := [] |}
              Site.page_a Machine_init ["Expecting value"] eq_refl)
    as (found & m' & Hrun & _ & Htypes & _ & _ & _ & _ & _ & _ & _ & _
        & Hwithout).
  - discriminate.
  - exists found, m'. split; [exact Hrun|]. split; [exact Htypes|].
    exact Hwithout.
Defined.

(** ** The link graph: what is recorded *)

Global Instance internal_kept_preorder : PreOrder internal_kept.
Proof.
  split; [by intros m Hm|].
  intros m1 m2 m3 H1 H2 Hm. apply H2, H1, Hm.
Qed.

Global Instance nonnegative_kept_preorder : PreOrder nonnegative_kept.
Proof.
  split; [by intros m Hm|].
  intros m1 m2 m3 H1 H2 Hm. apply H2, H1, Hm.
Qed.

Lemma keeps_urlparse_bind {A} R `{!PreOrder R} url (k : ParseResult → M A) :
  keeps R (k (url_parts url)) → keeps R (urlparse url ≫= k).
Proof.
  intros Hk m. rewrite run_bind, run_urlparse.
  destruct (invalid_netloc _); [reflexivity|apply Hk].
Qed.



(** X25.  The depths that [analyze_internal_links] records, called at a
    depth that is not negative, are not negative. *)
Theorem analyze_internal_links_depths_nonnegative (w : World) (fuel : nat)
    (url : string) (depth : Z) (fresh : bool) (m : Machine) :
  0 ≤ depth →
  depths_nonnegative (self m) →
  depths_nonnegative
    (self (snd (analyze_internal_links w fuel url depth fresh m))).
Proof.
  intros Hdepth. revert m.
  change (keeps nonnegative_kept
            (analyze_internal_links w fuel url depth fresh)).
  revert url depth fresh Hdepth.
  induction fuel as [|fuel IH]; intros url depth fresh Hdepth;
    [apply keeps_diverge; exact _|].
  rewrite run_analyze_internal_links.
  unfold get_page_content, urlparse, assign_depth, modify_self.
  keeps_auto.
  all: try (apply IH; lia).
  all: try (intros Hm; exact Hm).
  all: intros Hm u d; fields.
  all: match goal with
       | |- <[?k := ?v]> _ !! _ = _ → _ =>
           destruct (decide (k = u)) as [->|Hne];
           [rewrite lookup_insert_eq; intros [= <-]; lia
           |rewrite lookup_insert_ne by done; apply Hm]
       end.
Qed.

Lemma analyze_internal_links_depths_nonnegative_witness :
  depths_nonnegative
    (self (snd (analyze_internal_links Site.chain_of_pages 6 Site.home 0
                  true Machine_init))).
Proof.
  apply analyze_internal_links_depths_nonnegative; [lia|].
  intros u d. cbn. rewrite lookup_empty. done.
Defined.

(** ** The links of a crawled page *)



(** ** A page that does not load *)


